(** * EVM tracers of silkrpc (src/silkrpc/core/evm_trace.cpp)

    A shallow embedding of the three tracer state machines
    ([VmTraceTracer], [TraceTracer], [StateDiffTracer]) and of the
    orchestration in [TraceCallExecutor], with the properties of the
    specification stated over it.

    Conventions.
    - Signed 64-bit quantities (gas) are [Z] with [wrap_i64] written where
      the C++ converts; unsigned ones (offsets, lengths, program counters,
      opcodes, 256-bit words) are [N].
    - A read through a raw pointer outside the object it points into, a
      [top()]/[pop()] on an empty [std::stack], an unchecked [operator[]]
      outside a vector and the dereference of an empty [std::optional] have
      no defined result in C++: the embedding returns [None] there.
    - The stack-top pointer is a list of words, position [i] standing for
      [stack[-i]]; the EVM memory is the list of its bytes. *)

From Stdlib Require Import ZArith NArith String Ascii List Lia Bool.
From Stdlib Require DecimalString HexadecimalString HexString.
From Stdlib Require HexadecimalN HexadecimalPos HexadecimalFacts.
From stdpp Require Import base option gmap sets list strings.


(** ** Machine integers *)

Definition wrap_u64 (z : Z) : Z := (z mod 2 ^ 64)%Z.
Definition wrap_i64 (z : Z) : Z := ((z + 2 ^ 63) mod 2 ^ 64 - 2 ^ 63)%Z.
Definition in_i64 (z : Z) : Prop := (- 2 ^ 63 <= z < 2 ^ 63)%Z.

(** [int] is 32 bits wide on the platforms the program is built for. *)
Definition INT_MAX : N := 2147483647%N.

(** The least significant 64-bit limb of a 256-bit word: [w[0]] of
    [intx::uint256]. *)
Definition limb0 (w : N) : N := (w mod 2 ^ 64)%N.

(** ** Strings and hexadecimal output *)

(** [std::to_string] on a non-negative integer. *)
Definition to_string_dec (n : N) : string :=
  DecimalString.NilZero.string_of_uint (N.to_uint n).

(** [std::to_string] on an [int]. *)
Definition to_string_int (z : Z) : string :=
  DecimalString.NilZero.string_of_int (Z.to_int z).

(** [intx::to_string(v, 16)]: lower case, no leading zero, ["0"] for zero. *)
Definition intx_to_string16 (v : N) : string :=
  HexadecimalString.NilZero.string_of_uint (N.to_hex_uint v).

Definition hex_digit (n : N) : ascii :=
  match n with
  | 0 => "0" | 1 => "1" | 2 => "2" | 3 => "3" | 4 => "4" | 5 => "5"
  | 6 => "6" | 7 => "7" | 8 => "8" | 9 => "9" | 10 => "a" | 11 => "b"
  | 12 => "c" | 13 => "d" | 14 => "e" | _ => "f"
  end%N%char.

(** [evmc::hex(uint8_t)]: always two digits. *)
Definition hex_byte (b : Byte.byte) : string :=
  String (hex_digit (Byte.to_N b / 16)) (String (hex_digit (Byte.to_N b mod 16)) "").

(** [silkworm::to_hex], [evmc::hex(bytes_view)]. *)
Fixpoint to_hex (bs : list Byte.byte) : string :=
  match bs with
  | [] => ""
  | b :: bs' => hex_byte b +:+ to_hex bs'
  end.

(** [std::string::substr(pos)] for [pos] within the string. *)
Definition substr_from (pos : nat) (s : string) : string :=
  String.substring pos (String.length s - pos) s.

Definition PADDING : string :=
  "0x0000000000000000000000000000000000000000000000000000000000000000".

(** [to_string(intx::uint256)]: the word as [0x] and 64 digits. *)
Definition to_string (value : N) : string :=
  let out := intx_to_string16 value in
  String.substring 0 (String.length PADDING - String.length out) PADDING +:+ out.

(** ** Opcodes (the values of [evmc_opcode]) *)

Module Op.
Local Open Scope N_scope.
Definition STOP := 0x00.
Definition ADD := 0x01.
Definition MUL := 0x02.
Definition SUB := 0x03.
Definition DIV := 0x04.
Definition SDIV := 0x05.
Definition MOD := 0x06.
Definition ADDMOD := 0x08.
Definition MULMOD := 0x09.
Definition EXP := 0x0a.
Definition SIGNEXTEND := 0x0b.
Definition LT := 0x10.
Definition GT := 0x11.
Definition SLT := 0x12.
Definition SGT := 0x13.
Definition EQ := 0x14.
Definition ISZERO := 0x15.
Definition AND := 0x16.
Definition OR := 0x17.
Definition XOR := 0x18.
Definition NOT := 0x19.
Definition BYTE := 0x1a.
Definition SHL := 0x1b.
Definition SHR := 0x1c.
Definition SAR := 0x1d.
Definition KECCAK256 := 0x20.
Definition ADDRESS := 0x30.
Definition BALANCE := 0x31.
Definition ORIGIN := 0x32.
Definition CALLER := 0x33.
Definition CALLVALUE := 0x34.
Definition CALLDATALOAD := 0x35.
Definition CALLDATASIZE := 0x36.
Definition CALLDATACOPY := 0x37.
Definition CODESIZE := 0x38.
Definition CODECOPY := 0x39.
Definition GASPRICE := 0x3a.
Definition EXTCODESIZE := 0x3b.
Definition RETURNDATASIZE := 0x3d.
Definition RETURNDATACOPY := 0x3e.
Definition EXTCODEHASH := 0x3f.
Definition BLOCKHASH := 0x40.
Definition TIMESTAMP := 0x42.
Definition NUMBER := 0x43.
Definition GASLIMIT := 0x45.
Definition SELFBALANCE := 0x47.
Definition BASEFEE := 0x48.
Definition MLOAD := 0x51.
Definition MSTORE := 0x52.
Definition MSTORE8 := 0x53.
Definition SLOAD := 0x54.
Definition SSTORE := 0x55.
Definition PC := 0x58.
Definition MSIZE := 0x59.
Definition GAS := 0x5a.
Definition PUSH1 := 0x60.
Definition PUSH32 := 0x7f.
Definition DUP1 := 0x80.
Definition DUP16 := 0x8f.
Definition SWAP1 := 0x90.
Definition SWAP16 := 0x9f.
Definition CREATE := 0xf0.
Definition CALL := 0xf1.
Definition CALLCODE := 0xf2.
Definition DELEGATECALL := 0xf4.
Definition CREATE2 := 0xf5.
Definition STATICCALL := 0xfa.
End Op.

(** ** Messages and results handed over by the interpreter *)

#[global] Instance byte_eq_dec : EqDecision Byte.byte := Byte.byte_eq_dec.

Definition address := N.

Inductive evmc_call_kind :=
| EVMC_CALL | EVMC_DELEGATECALL | EVMC_CALLCODE | EVMC_CREATE | EVMC_CREATE2.

Inductive evmc_status_code :=
| EVMC_SUCCESS | EVMC_FAILURE | EVMC_REVERT | EVMC_OUT_OF_GAS
| EVMC_INVALID_INSTRUCTION | EVMC_UNDEFINED_INSTRUCTION | EVMC_STACK_OVERFLOW
| EVMC_STACK_UNDERFLOW | EVMC_BAD_JUMP_DESTINATION | EVMC_INVALID_MEMORY_ACCESS
| EVMC_CALL_DEPTH_EXCEEDED | EVMC_STATIC_MODE_VIOLATION | EVMC_PRECOMPILE_FAILURE
| EVMC_CONTRACT_VALIDATION_FAILURE | EVMC_ARGUMENT_OUT_OF_RANGE
| EVMC_WASM_UNREACHABLE_INSTRUCTION | EVMC_WASM_TRAP | EVMC_INSUFFICIENT_BALANCE
| EVMC_INTERNAL_ERROR | EVMC_REJECTED | EVMC_OUT_OF_MEMORY.

(** [evmc_flags::EVMC_STATIC]. *)
Definition EVMC_STATIC : N := 1%N.

Record evmc_message := {
  msg_kind : evmc_call_kind;
  msg_flags : N;
  msg_depth : Z;
  msg_gas : Z;
  msg_recipient : address;
  msg_sender : address;
  msg_input_data : list Byte.byte;
  msg_value : N;
  msg_code_address : address
}.

Record evmc_result := {
  status_code : evmc_status_code;
  gas_left : Z;
  output_data : list Byte.byte
}.

(** What the tracers read of [evmone::ExecutionState]. *)
Record ExecutionState := {
  es_code : list Byte.byte;
  es_memory : list Byte.byte;
  es_gas_left : Z;
  es_msg : evmc_message
}.

(** ** The per-opcode trace: data *)

(** Modelled from the spec: the struct declarations of evm_trace.hpp, which
    is not under src/. The fields are the ones the code under src/ reads
    and writes; their types follow the data model of the specification:
    [offset] and [len] are unsigned 64-bit words (a limb of a stack word is
    stored in them), the gas fields [gas_cost] and [used] are signed 64-bit
    ("running gas-cost attribution (signed integer)"), [depth] is the
    32-bit depth of a message, [op_code] a byte. *)
Record TraceMemory := { offset : N; len : N; data : string }.

Record TraceStorage := { key : string; value : string }.

Record TraceEx := {
  memory : option TraceMemory;
  stack : list string;
  storage : option TraceStorage;
  used : Z
}.

Inductive VmTrace := mkVmTrace { code : string; ops : list TraceOp }
with TraceOp := mkTraceOp {
  gas_cost : Z;
  trace_ex : TraceEx;
  idx : string;
  depth : Z;
  op_code : N;
  op_name : string;
  pc : N;
  sub : option VmTrace;
  precompiled_call_gas : option Z;
  call_gas_cap : option Z
}.

(** ** Capture helpers *)

Definition one_value_ops : list N :=
  [Op.CALLDATALOAD; Op.SLOAD; Op.MLOAD; Op.CALLDATASIZE; Op.LT; Op.GT; Op.DIV;
   Op.SDIV; Op.SAR; Op.AND; Op.EQ; Op.CALLVALUE; Op.ISZERO; Op.ADD; Op.EXP;
   Op.CALLER; Op.KECCAK256; Op.SUB; Op.ADDRESS; Op.GAS; Op.MUL;
   Op.RETURNDATASIZE; Op.NOT; Op.SHR; Op.SHL; Op.EXTCODESIZE; Op.SLT; Op.OR;
   Op.NUMBER; Op.PC; Op.TIMESTAMP; Op.BALANCE; Op.SELFBALANCE; Op.MULMOD;
   Op.ADDMOD; Op.BASEFEE; Op.BLOCKHASH; Op.BYTE; Op.XOR; Op.ORIGIN; Op.CODESIZE;
   Op.MOD; Op.SIGNEXTEND; Op.GASLIMIT; Op.SGT; Op.GASPRICE; Op.MSIZE;
   Op.EXTCODEHASH; Op.STATICCALL; Op.DELEGATECALL; Op.CALL; Op.CALLCODE;
   Op.CREATE; Op.CREATE2].

Definition in_range (lo hi op : N) : bool := (lo <=? op)%N && (op <=? hi)%N.

Definition get_stack_count (op_code : N) : nat :=
  if in_range Op.PUSH1 Op.PUSH32 op_code then 1
  else if in_range Op.SWAP1 Op.SWAP16 op_code then N.to_nat (op_code - Op.SWAP1 + 2)
  else if in_range Op.DUP1 Op.DUP16 op_code then N.to_nat (op_code - Op.DUP1 + 2)
  else if existsb (N.eqb op_code) one_value_ops then 1
  else 0.

(** [stack[-i]] read through the stack-top pointer. *)
Definition stack_at (stack_top : list N) (i : nat) : option N := stack_top !! i.

(** The loop of [copy_stack], [i] running from [top - 1] down to [0]. *)
Fixpoint copy_stack_loop (stack_top : list N) (top : nat) (trace_stack : list string)
  : option (list string) :=
  match top with
  | O => Some trace_stack
  | S i =>
      v ← stack_at stack_top i;
      copy_stack_loop stack_top i (trace_stack ++ ["0x" +:+ intx_to_string16 v])
  end.

Definition copy_stack (op_code : N) (stack_top : list N) (trace_stack : list string)
  : option (list string) :=
  copy_stack_loop stack_top (get_stack_count op_code) trace_stack.

(** The loop of [copy_memory]: [n] iterations are left, the next one reads
    [data[start + idx]] and appends its two digits. *)
Fixpoint copy_memory_loop (mem : list Byte.byte) (start : N) (idx : N) (n : nat)
    (acc : string) : option string :=
  match n with
  | O => Some acc
  | S n' =>
      b ← mem !! N.to_nat (start + idx);
      copy_memory_loop mem start (idx + 1) n' (acc +:+ hex_byte b)
  end.

(** [copy_memory]. The outer [option] is definedness, the inner one the
    [std::optional<TraceMemory>] left in the op. The counter [idx] is an
    [int] compared with the 64-bit [len]: a length above [INT_MAX] makes the
    increment overflow before the loop can end. *)
Definition copy_memory (mem : list Byte.byte) (trace_memory : option TraceMemory)
  : option (option TraceMemory) :=
  match trace_memory with
  | None => Some None
  | Some tm =>
      if (len tm =? 0)%N then Some None
      else if (INT_MAX <? len tm)%N then None
      else
        d ← copy_memory_loop mem (offset tm) 0 (N.to_nat (len tm)) "0x";
        Some (Some {| offset := offset tm; len := len tm; data := d |})
  end.

Definition copy_store (op_code : N) (stack_top : list N) (trace_storage : option TraceStorage)
  : option (option TraceStorage) :=
  if (op_code =? Op.SSTORE)%N then
    k ← stack_at stack_top 0;
    v ← stack_at stack_top 1;
    Some (Some {| key := "0x" +:+ intx_to_string16 k; value := "0x" +:+ intx_to_string16 v |})
  else Some trace_storage.

Definition window (off_at len_at : nat) (stack_top : list N) : option (option TraceMemory) :=
  o ← stack_at stack_top off_at;
  l ← stack_at stack_top len_at;
  Some (Some {| offset := limb0 o; len := limb0 l; data := "" |}).

Definition copy_memory_offset_len (op_code : N) (stack_top : list N)
    (trace_memory : option TraceMemory) : option (option TraceMemory) :=
  if (op_code =? Op.MSTORE)%N || (op_code =? Op.MLOAD)%N then
    o ← stack_at stack_top 0;
    Some (Some {| offset := limb0 o; len := 32; data := "" |})
  else if (op_code =? Op.MSTORE8)%N then
    o ← stack_at stack_top 0;
    Some (Some {| offset := limb0 o; len := 1; data := "" |})
  else if (op_code =? Op.RETURNDATACOPY)%N || (op_code =? Op.CALLDATACOPY)%N
          || (op_code =? Op.CODECOPY)%N then
    window 0 2 stack_top
  else if (op_code =? Op.STATICCALL)%N || (op_code =? Op.DELEGATECALL)%N then
    window 4 5 stack_top
  else if (op_code =? Op.CALL)%N || (op_code =? Op.CALLCODE)%N then
    window 5 6 stack_top
  else if (op_code =? Op.CREATE)%N || (op_code =? Op.CREATE2)%N then
    Some (Some {| offset := 0; len := 0; data := "" |})
  else Some trace_memory.

(** [get_op_name]; [names] is the table of
    [evmc_get_instruction_names_table], [None] standing for a null entry. *)
Definition get_op_name (names : N -> option string) (opcode : N) : string :=
  match names opcode with
  | Some name => name
  | None =>
      let hex := String (hex_digit (opcode / 16)) (String (hex_digit (opcode mod 16)) "") in
      let hex := if (opcode <? 16)%N then substr_from 1 hex else hex in
      "opcode 0x" +:+ hex +:+ " not defined"
  end.

(** ** VmTraceTracer *)

(** Field updates on [TraceOp] and [TraceEx]. *)
Definition set_gas_cost (g : Z) (op : TraceOp) : TraceOp :=
  mkTraceOp g (trace_ex op) (idx op) (depth op) (op_code op) (op_name op) (pc op)
            (sub op) (precompiled_call_gas op) (call_gas_cap op).
Definition set_trace_ex (ex : TraceEx) (op : TraceOp) : TraceOp :=
  mkTraceOp (gas_cost op) ex (idx op) (depth op) (op_code op) (op_name op) (pc op)
            (sub op) (precompiled_call_gas op) (call_gas_cap op).
Definition set_depth (d : Z) (op : TraceOp) : TraceOp :=
  mkTraceOp (gas_cost op) (trace_ex op) (idx op) d (op_code op) (op_name op) (pc op)
            (sub op) (precompiled_call_gas op) (call_gas_cap op).
Definition set_sub (s : option VmTrace) (op : TraceOp) : TraceOp :=
  mkTraceOp (gas_cost op) (trace_ex op) (idx op) (depth op) (op_code op) (op_name op)
            (pc op) s (precompiled_call_gas op) (call_gas_cap op).
Definition set_precompiled_call_gas (g : option Z) (op : TraceOp) : TraceOp :=
  mkTraceOp (gas_cost op) (trace_ex op) (idx op) (depth op) (op_code op) (op_name op)
            (pc op) (sub op) g (call_gas_cap op).
Definition set_call_gas_cap (c : option Z) (op : TraceOp) : TraceOp :=
  mkTraceOp (gas_cost op) (trace_ex op) (idx op) (depth op) (op_code op) (op_name op)
            (pc op) (sub op) (precompiled_call_gas op) c.
Definition set_used (u : Z) (op : TraceOp) : TraceOp :=
  set_trace_ex {| memory := memory (trace_ex op); stack := stack (trace_ex op);
                  storage := storage (trace_ex op); used := u |} op.

Definition set_ops (l : list TraceOp) (vt : VmTrace) : VmTrace := mkVmTrace (code vt) l.
Definition set_code (c : string) (vt : VmTrace) : VmTrace := mkVmTrace c (ops vt).

(** A default-constructed [VmTrace] and [TraceEx]. *)
Definition empty_VmTrace : VmTrace := mkVmTrace "" [].
Definition empty_TraceEx : TraceEx :=
  {| memory := None; stack := []; storage := None; used := 0 |}.

(** [ops[ops.size() - 1]] and [ops[ops.size() - 2]]: the subtraction is on
    [size_t], so a too short vector is indexed far outside. *)
Definition ops_back (k : nat) (l : list TraceOp) : option TraceOp :=
  if decide (k <= length l) then l !! (length l - k) else None.

(** Replace [ops[ops.size() - 1]]. *)
Definition set_last (op : TraceOp) (l : list TraceOp) : list TraceOp :=
  <[length l - 1 := op]> l.

(** *** References into the trace tree

    [traces_stack_] holds references to [VmTrace] nodes that live inside the
    tree rooted at [vm_trace_]: the root itself, or the [sub] of some op.
    A reference is the path of op positions leading from the root to the node;
    writing through a reference changes the one tree. *)

Definition path := list nat.

Fixpoint get (p : path) (t : VmTrace) : option VmTrace :=
  match p with
  | [] => Some t
  | i :: p' => op ← ops t !! i; s ← sub op; get p' s
  end.

Fixpoint upd (p : path) (f : VmTrace -> VmTrace) (t : VmTrace) : VmTrace :=
  match p with
  | [] => f t
  | i :: p' =>
      match ops t !! i with
      | Some op =>
          match sub op with
          | Some s => set_ops (<[i := set_sub (Some (upd p' f s)) op]> (ops t)) t
          | None => t
          end
      | None => t
      end
  end.

(** [q] lies at or below [p] in the tree. *)
Fixpoint below (p q : path) : bool :=
  match p, q with
  | [], _ => true
  | i :: p', j :: q' => Nat.eqb i j && below p' q'
  | _ :: _, [] => false
  end.

(** An entry of [traces_stack_]: [None] once the node it referred to has
    been destroyed (its owning [shared_ptr] was overwritten). *)
Definition frame_ref := option path.

(** Overwriting the [sub] pointer of the op at [p] frees the old subtree:
    every reference at or below [p] dangles from then on. *)
Definition invalidate (p : path) (st : list frame_ref) : list frame_ref :=
  map (fun r => match r with
                | Some q => if below p q then None else Some q
                | None => None
                end) st.

Module VmTraceTracer.

(** The members of the class, as the callbacks use them. [vm_trace_] is
    the root trace the tracer was built on; the three [std::stack]s are
    lists, top first. *)
Record t := {
  vm_trace_ : VmTrace;
  transaction_index_ : Z;
  opcode_names_ : option (N -> option string);
  traces_stack_ : list frame_ref;
  start_gas_ : list Z;
  index_prefix_ : list string
}.

(** The constructor: [VmTraceTracer(vm_trace, index)]. *)
Definition make (vm_trace : VmTrace) (index : Z) : t :=
  {| vm_trace_ := vm_trace; transaction_index_ := index; opcode_names_ := None;
     traces_stack_ := []; start_gas_ := []; index_prefix_ := [] |}.

(** [traces_stack_.top().get()] *)
Definition top_trace (s : t) : option (path * VmTrace) :=
  r ← head (traces_stack_ s); p ← r; vt ← get p (vm_trace_ s); Some (p, vt).

Definition is_call_op (op : N) : bool :=
  (op =? Op.STATICCALL)%N || (op =? Op.DELEGATECALL)%N || (op =? Op.CALL)%N.

Section WithNames.
(** [evmc_get_instruction_names_table], by revision. *)
Context {evmc_revision : Type}.
Variable evmc_get_instruction_names_table : evmc_revision -> N -> option string.

(** The call-site bookkeeping of a nested [on_execution_start] on the
    parent trace [vt]: the tail op is adjusted, gets a fresh [sub] with
    the callee's code, and the parent is returned. *)
Definition enter_sub (msg : evmc_message) (code_hex : string) (vt : VmTrace)
  : option VmTrace :=
  op ← ops_back 1 (ops vt);
  op' ← (if is_call_op (op_code op) then
           op_1 ← ops_back 2 (ops vt);
           let cap := wrap_i64 (used (trace_ex op_1) - msg_gas msg) in
           Some (set_call_gas_cap (Some cap)
                  (set_gas_cost (wrap_i64 (gas_cost op - msg_gas msg))
                    (set_depth (msg_depth msg) op)))
         else Some op);
  Some (set_ops (set_last (set_sub (Some (mkVmTrace code_hex [])) op') (ops vt)) vt).

Definition on_execution_start (rev : evmc_revision) (msg : evmc_message)
    (code : list Byte.byte) (s : t) : option t :=
  let names := match opcode_names_ s with
               | None => Some (evmc_get_instruction_names_table rev)
               | Some n => Some n
               end in
  let start_gas := msg_gas msg :: start_gas_ s in
  s' ← (if (msg_depth msg =? 0)%Z then
          Some {| vm_trace_ := set_code ("0x" +:+ to_hex code) (vm_trace_ s);
                  transaction_index_ := transaction_index_ s;
                  opcode_names_ := names;
                  traces_stack_ := Some [] :: traces_stack_ s;
                  start_gas_ := start_gas;
                  index_prefix_ :=
                    (if (transaction_index_ s =? -1)%Z then ""
                     else to_string_int (transaction_index_ s) +:+ "-")
                    :: index_prefix_ s |}
        else if decide (0 < length (ops (vm_trace_ s))) then
          '(p, vt) ← top_trace s;
          prefix ← head (index_prefix_ s);
          vt' ← enter_sub msg ("0x" +:+ to_hex code) vt;
          let last := length (ops vt) - 1 in
          Some {| vm_trace_ := upd p (fun _ => vt') (vm_trace_ s);
                  transaction_index_ := transaction_index_ s;
                  opcode_names_ := names;
                  traces_stack_ :=
                    Some (p ++ [last]) :: invalidate (p ++ [last]) (traces_stack_ s);
                  start_gas_ := start_gas;
                  index_prefix_ :=
                    (prefix +:+ to_string_dec (N.of_nat last) +:+ "-")
                    :: index_prefix_ s |}
        else
          Some {| vm_trace_ := vm_trace_ s;
                  transaction_index_ := transaction_index_ s;
                  opcode_names_ := names;
                  traces_stack_ := traces_stack_ s;
                  start_gas_ := start_gas;
                  index_prefix_ := index_prefix_ s |});
  (* [auto& index_prefix = index_prefix_.top();] *)
  _ ← head (index_prefix_ s');
  Some s'.

(** The first phase of [on_instruction_start]: the previous op of the
    frame is completed. *)
Definition finalize_previous (stack_top : list N) (es : ExecutionState) (op : TraceOp)
  : option TraceOp :=
  let gc :=
    match precompiled_call_gas op with
    | Some g => wrap_i64 (gas_cost op - g)
    | None =>
        if (depth op =? msg_depth (es_msg es))%Z
        then wrap_i64 (gas_cost op - es_gas_left es)
        else gas_cost op
    end in
  m ← copy_memory (es_memory es) (memory (trace_ex op));
  st ← copy_stack (op_code op) stack_top (stack (trace_ex op));
  Some (set_trace_ex {| memory := m; stack := st; storage := storage (trace_ex op);
                        used := es_gas_left es |}
          (set_gas_cost gc op)).

Definition on_instruction_start (pc : N) (stack_top : list N) (stack_height : Z)
    (es : ExecutionState) (s : t) : option t :=
  b ← es_code es !! N.to_nat pc;
  let op_code := Byte.to_N b in
  names ← opcode_names_ s;
  let op_name := get_op_name names op_code in
  '(p, vt) ← top_trace s;
  ops1 ← (match ops_back 1 (ops vt) with
          | Some op => op' ← finalize_previous stack_top es op;
                       Some (set_last op' (ops vt))
          | None => Some (ops vt)
          end);
  prefix ← head (index_prefix_ s);
  let index_prefix := prefix +:+ to_string_dec (N.of_nat (length ops1)) in
  m ← copy_memory_offset_len op_code stack_top None;
  sto ← copy_store op_code stack_top None;
  let trace_op :=
    mkTraceOp (es_gas_left es)
              {| memory := m; stack := []; storage := sto; used := 0 |}
              index_prefix (msg_depth (es_msg es)) op_code
              (if String.eqb op_name "KECCAK256" then "SHA3" else op_name)
              pc None None None in
  Some {| vm_trace_ := upd p (fun _ => set_ops (ops1 ++ [trace_op]) vt) (vm_trace_ s);
          transaction_index_ := transaction_index_ s;
          opcode_names_ := opcode_names_ s;
          traces_stack_ := traces_stack_ s;
          start_gas_ := start_gas_ s;
          index_prefix_ := index_prefix_ s |}.

Definition on_precompiled_run (result : evmc_result) (gas : Z) (s : t) : option t :=
  match ops_back 1 (ops (vm_trace_ s)) with
  | Some op =>
      let last := length (ops (vm_trace_ s)) - 1 in
      let op' := set_sub (Some (mkVmTrace "0x" []))
                   (set_precompiled_call_gas (Some gas) op) in
      Some {| vm_trace_ := set_ops (set_last op' (ops (vm_trace_ s))) (vm_trace_ s);
              transaction_index_ := transaction_index_ s;
              opcode_names_ := opcode_names_ s;
              traces_stack_ := invalidate [last] (traces_stack_ s);
              start_gas_ := start_gas_ s;
              index_prefix_ := index_prefix_ s |}
  | None => Some s
  end.

(** The status switch of [on_execution_end] on the tail op;
    [start_gas] is the frame's entry gas. *)
Definition finalize_tail (status : evmc_status_code) (start_gas : Z) (gas_left : Z)
    (op : TraceOp) : TraceOp :=
  match status with
  | EVMC_OUT_OF_GAS =>
      set_gas_cost (wrap_i64 (gas_cost op - gas_left)) (set_used gas_left op)
  | EVMC_UNDEFINED_INSTRUCTION =>
      let op1 := set_used (gas_cost op) op in
      let op2 := set_gas_cost (wrap_i64 (wrap_u64 start_gas - wrap_u64 (gas_cost op1))) op1 in
      set_used (wrap_i64 (used (trace_ex op2) - gas_cost op2)) op2
  | _ =>
      set_used gas_left (set_gas_cost (wrap_i64 (gas_cost op - gas_left)) op)
  end.

(** What [on_execution_end] does to the popped frame's trace. *)
Definition close_frame (result : evmc_result) (start_gas : Z) (vt : VmTrace) : VmTrace :=
  match ops_back 1 (ops vt) with
  | None => vt
  | Some op =>
      if (op_code op =? Op.STOP)%N && Nat.eqb (length (ops vt)) 1 then set_ops [] vt
      else set_ops (set_last (finalize_tail (status_code result) start_gas
                                (gas_left result) op) (ops vt)) vt
  end.

Definition on_execution_end (result : evmc_result) (s : t) : option t :=
  '(p, vt) ← top_trace s;
  start_gas ← head (start_gas_ s);
  _ ← head (index_prefix_ s);
  Some {| vm_trace_ := upd p (fun _ => close_frame result start_gas vt) (vm_trace_ s);
          transaction_index_ := transaction_index_ s;
          opcode_names_ := opcode_names_ s;
          traces_stack_ := tail (traces_stack_ s);
          start_gas_ := tail (start_gas_ s);
          index_prefix_ := tail (index_prefix_ s) |}.

(** The callbacks of one execution, as the interpreter fires them. *)
Inductive event :=
| ExecutionStart (rev : evmc_revision) (msg : evmc_message) (code : list Byte.byte)
| InstructionStart (pc : N) (stack_top : list N) (stack_height : Z) (es : ExecutionState)
| PrecompiledRun (result : evmc_result) (gas : Z)
| ExecutionEnd (result : evmc_result).

Definition step (e : event) (s : t) : option t :=
  match e with
  | ExecutionStart rev msg code => on_execution_start rev msg code s
  | InstructionStart pc stack_top stack_height es =>
      on_instruction_start pc stack_top stack_height es s
  | PrecompiledRun result gas => on_precompiled_run result gas s
  | ExecutionEnd result => on_execution_end result s
  end.

Fixpoint run (es : list event) (s : t) : option t :=
  match es with
  | [] => Some s
  | e :: es' => s' ← step e s; run es' s'
  end.

(** *** The stack discipline of the interpreter

    What the interpreter is known to do, told apart from what the tracer
    does: per open frame, how many instructions it has announced, the
    stack height announced with the latest one, and its opcode. *)
Record frame_info := { instrs : nat; height : Z; last_op : N }.

(** The number of stack operands of the opcodes that enter a frame. *)
Definition operands (op : N) : option Z :=
  if (op =? Op.CALL)%N || (op =? Op.CALLCODE)%N then Some 7%Z
  else if (op =? Op.DELEGATECALL)%N || (op =? Op.STATICCALL)%N then Some 6%Z
  else if (op =? Op.CREATE)%N then Some 3%Z
  else if (op =? Op.CREATE2)%N then Some 4%Z
  else None.

(** A frame starts with an empty stack, an instruction leaves at most
    one word more than it found, the outermost frame is entered once,
    and a nested frame is entered only from a call or create instruction
    that found its operands on the stack. *)
Definition follow (e : event) (g : list frame_info) : option (list frame_info) :=
  match e with
  | ExecutionStart _ msg _ =>
      let fresh := {| instrs := 0; height := 0; last_op := 0 |} in
      if (msg_depth msg =? 0)%Z then
        match g with [] => Some [fresh] | _ :: _ => None end
      else
        match g with
        | f :: _ =>
            if (msg_depth msg =? Z.of_nat (length g))%Z
               && negb (Nat.eqb (instrs f) 0)
               && match operands (last_op f) with
                  | Some n => (n <=? height f)%Z
                  | None => false
                  end
            then Some (fresh :: g) else None
        | [] => None
        end
  | InstructionStart pc _ h es =>
      match g with
      | f :: g' =>
          b ← es_code es !! N.to_nat pc;
          if (if Nat.eqb (instrs f) 0 then (h =? 0)%Z
              else (0 <=? h)%Z && (h <=? height f + 1)%Z)
          then Some ({| instrs := S (instrs f); height := h;
                        last_op := Byte.to_N b |} :: g')
          else None
      | [] => None
      end
  | PrecompiledRun _ _ => Some g
  | ExecutionEnd _ => match g with _ :: g' => Some g' | [] => None end
  end.

(** The frames after a whole callback sequence; [None] when the sequence
    breaks the discipline. *)
Fixpoint follow_all (es : list event) (g : list frame_info) : option (list frame_info) :=
  match es with
  | [] => Some g
  | e :: es' => g' ← follow e g; follow_all es' g'
  end.



(** *** The tracer against the interpreter's frames *)

(** The entry [r] of [traces_stack_] stands for the frame [f]: the
    reference is live, the trace it leads to holds at least one op per
    announced instruction, and the announced height stays below their
    number. *)
Definition frame_agrees (s : t) (r : frame_ref) (f : frame_info) : Prop :=
  exists p vt,
    r = Some p /\ get p (vm_trace_ s) = Some vt
    /\ instrs f <= length (ops vt)
    /\ (0 < instrs f -> (height f < Z.of_nat (instrs f))%Z).

(** The references on the stack are nested: each one lies strictly below
    all those under it on the stack. *)
Fixpoint chain (st : list frame_ref) : Prop :=
  match st with
  | [] => True
  | r :: st' =>
      (forall p q, r = Some p -> Some q ∈ st' -> below q p = true /\ length q < length p)
      /\ chain st'
  end.

(** The tracer is in step with the interpreter's frames [g]. *)
Record in_step (s : t) (g : list frame_info) : Prop := {
  is_frames : Forall2 (frame_agrees s) (traces_stack_ s) g;
  is_chain : chain (traces_stack_ s);
  is_lower : Forall (fun f => 0 < instrs f) (tail g);
  is_root : g <> [] -> last (traces_stack_ s) = Some (Some [])
}.

(** The tracer has lost its current frame: the reference on top of
    [traces_stack_] dangles. *)
Definition lost (s : t) (g : list frame_info) : Prop :=
  length (traces_stack_ s) = length g
  /\ head (traces_stack_ s) = Some None
  /\ 0 < length (ops (vm_trace_ s)).

End WithNames.
End VmTraceTracer.

(** ** The call trace: data

    Modelled from the spec: the structs of the call trace are declared in
    evm_trace.hpp, which is not under src/; fields as the code uses them,
    types as in the data model of the specification. *)

Definition wrap_i32 (z : Z) : Z := ((z + 2 ^ 31) mod 2 ^ 32 - 2 ^ 31)%Z.

Module TraceAction.
Record t := {
  call_type : option string;
  from : address;
  to : option address;
  gas : Z;
  input : option (list Byte.byte);
  init : option (list Byte.byte);
  value : N
}.
Definition default : t :=
  {| call_type := None; from := 0%N; to := None; gas := 0; input := None;
     init := None; value := 0%N |}.
End TraceAction.

Module RewardAction.
Record t := { author : address; reward_type : string; value : N }.
End RewardAction.

Module TraceResult.
Record t := {
  address : option address;
  code : option (list Byte.byte);
  output : option (list Byte.byte);
  gas_used : Z
}.
Definition default : t :=
  {| address := None; code := None; output := None; gas_used := 0 |}.
End TraceResult.

(** [std::variant<TraceAction, RewardAction>] *)
Inductive Action :=
| ActionTrace (a : TraceAction.t)
| ActionReward (a : RewardAction.t).

Module Trace.
(** Modelled from the spec: "[sub_traces] count of direct children;
    [trace_address], an ordered sequence of child-indices". A transaction
    opens far fewer frames than a 32-bit counter holds, so both are kept
    as naturals without a wrap-around. *)
Record t := {
  action : Action;
  trace_result : option TraceResult.t;
  sub_traces : N;
  trace_address : list N;
  error : option string;
  type : string;
  block_hash : option N;
  block_number : option N;
  transaction_hash : option N;
  transaction_position : option N
}.
Definition default : t :=
  {| action := ActionTrace TraceAction.default; trace_result := None;
     sub_traces := 0%N; trace_address := []; error := None; type := "";
     block_hash := None; block_number := None; transaction_hash := None;
     transaction_position := None |}.

Definition set_action (a : Action) (x : t) : t :=
  {| action := a; trace_result := trace_result x; sub_traces := sub_traces x;
     trace_address := trace_address x; error := error x; type := type x;
     block_hash := block_hash x; block_number := block_number x;
     transaction_hash := transaction_hash x;
     transaction_position := transaction_position x |}.
Definition set_trace_result (r : option TraceResult.t) (x : t) : t :=
  {| action := action x; trace_result := r; sub_traces := sub_traces x;
     trace_address := trace_address x; error := error x; type := type x;
     block_hash := block_hash x; block_number := block_number x;
     transaction_hash := transaction_hash x;
     transaction_position := transaction_position x |}.
Definition set_sub_traces (n : N) (x : t) : t :=
  {| action := action x; trace_result := trace_result x; sub_traces := n;
     trace_address := trace_address x; error := error x; type := type x;
     block_hash := block_hash x; block_number := block_number x;
     transaction_hash := transaction_hash x;
     transaction_position := transaction_position x |}.
Definition set_trace_address (a : list N) (x : t) : t :=
  {| action := action x; trace_result := trace_result x; sub_traces := sub_traces x;
     trace_address := a; error := error x; type := type x;
     block_hash := block_hash x; block_number := block_number x;
     transaction_hash := transaction_hash x;
     transaction_position := transaction_position x |}.
Definition set_error (e : option string) (x : t) : t :=
  {| action := action x; trace_result := trace_result x; sub_traces := sub_traces x;
     trace_address := trace_address x; error := e; type := type x;
     block_hash := block_hash x; block_number := block_number x;
     transaction_hash := transaction_hash x;
     transaction_position := transaction_position x |}.
Definition set_type (s : string) (x : t) : t :=
  {| action := action x; trace_result := trace_result x; sub_traces := sub_traces x;
     trace_address := trace_address x; error := error x; type := s;
     block_hash := block_hash x; block_number := block_number x;
     transaction_hash := transaction_hash x;
     transaction_position := transaction_position x |}.
End Trace.

(** [silkworm::CallResult] *)
Record CallResult := {
  cr_status : evmc_status_code;
  cr_gas_left : Z;
  cr_data : list Byte.byte
}.

(** ** TraceTracer *)

Module TraceTracer.

(** The members of the class, as the callbacks use them. [traces_] is the
    vector the tracer was built on; [index_stack_] and [start_gas_] are
    [std::stack]s, top first. *)
Record t := {
  traces_ : list Trace.t;
  (** [initial_ibs_.exists]: the state before the execution *)
  initial_ibs_exists : address -> bool;
  initial_gas_ : Z;
  current_depth_ : Z;
  created_address_ : gset address;
  index_stack_ : list nat;
  start_gas_ : list Z
}.

(** The constructor: [TraceTracer(traces, initial_ibs)]. *)
Definition make (traces : list Trace.t) (initial_exists : address -> bool) : t :=
  {| traces_ := traces; initial_ibs_exists := initial_exists; initial_gas_ := 0;
     current_depth_ := -1; created_address_ := ∅; index_stack_ := [];
     start_gas_ := [] |}.

(** The existence test that classifies a frame as a creation. *)
Definition is_create (s : t) (msg : evmc_message) : bool :=
  negb (initial_ibs_exists s (msg_recipient msg))
  && negb (bool_decide (msg_recipient msg ∈ created_address_ s))
  && negb (msg_recipient msg =? msg_code_address msg)%N.

(** The action and the pre-allocated result of a new frame. *)
Definition fill_action (create : bool) (msg : evmc_message) (code : list Byte.byte)
  : TraceAction.t * TraceResult.t :=
  let a0 :=
    {| TraceAction.call_type := None;
       TraceAction.from := msg_sender msg;
       TraceAction.to := None;
       TraceAction.gas := msg_gas msg;
       TraceAction.input := None;
       TraceAction.init := None;
       TraceAction.value := msg_value msg |} in
  if create then
    ({| TraceAction.call_type := None;
        TraceAction.from := TraceAction.from a0;
        TraceAction.to := None;
        TraceAction.gas := TraceAction.gas a0;
        TraceAction.input := None;
        TraceAction.init := Some code;
        TraceAction.value := TraceAction.value a0 |},
     {| TraceResult.address := Some (msg_recipient msg);
        TraceResult.code := Some [];
        TraceResult.output := None;
        TraceResult.gas_used := 0 |})
  else
    let in_static_mode := negb (N.land (msg_flags msg) EVMC_STATIC =? 0)%N in
    let '(call_type, to, from) :=
      match msg_kind msg with
      | EVMC_CALL =>
          (Some (if in_static_mode then "staticcall" else "call"),
           Some (msg_recipient msg), msg_sender msg)
      | EVMC_DELEGATECALL =>
          (Some "delegatecall", Some (msg_code_address msg), msg_recipient msg)
      | EVMC_CALLCODE => (Some "callcode", Some (msg_recipient msg), msg_sender msg)
      | EVMC_CREATE | EVMC_CREATE2 => (None, Some (msg_recipient msg), msg_sender msg)
      end in
    ({| TraceAction.call_type := call_type;
        TraceAction.from := from;
        TraceAction.to := to;
        TraceAction.gas := TraceAction.gas a0;
        TraceAction.input := Some (msg_input_data msg);
        TraceAction.init := None;
        TraceAction.value := TraceAction.value a0 |},
     {| TraceResult.address := None;
        TraceResult.code := None;
        TraceResult.output := Some [];
        TraceResult.gas_used := 0 |}).

(** The element appended to [traces_] for a new frame, before its trace
    address is set. *)
Definition new_trace (create : bool) (msg : evmc_message) (code : list Byte.byte)
  : Trace.t :=
  Trace.set_trace_result (Some (snd (fill_action create msg code)))
    (Trace.set_action (ActionTrace (fst (fill_action create msg code)))
      (Trace.set_type (if create then "create" else "call") Trace.default)).

Definition on_execution_start (msg : evmc_message) (code : list Byte.byte) (s : t)
  : option t :=
  let create := is_create s msg in
  let index := length (traces_ s) in
  let trace := new_trace create msg code in
  let created := if create then {[ msg_recipient msg ]} ∪ created_address_ s
                 else created_address_ s in
  '(traces, initial_gas) ←
    (if (0 <? msg_depth msg)%Z then
       match index_stack_ s with
       | index_stack :: _ =>
           (* [traces_] already holds the new element at [index] *)
           calling_trace ← (traces_ s ++ [trace]) !! index_stack;
           let trace' :=
             Trace.set_trace_address
               (Trace.trace_address calling_trace ++ [Trace.sub_traces calling_trace])
               trace in
           let traces1 := <[index := trace']> (traces_ s ++ [trace]) in
           calling_trace1 ← traces1 !! index_stack;
           Some (<[index_stack :=
                     Trace.set_sub_traces (Trace.sub_traces calling_trace1 + 1)
                       calling_trace1]> traces1,
                 initial_gas_ s)
       | [] => Some (traces_ s ++ [trace], initial_gas_ s)
       end
     else Some (traces_ s ++ [trace], msg_gas msg));
  Some {| traces_ := traces;
          initial_ibs_exists := initial_ibs_exists s;
          initial_gas_ := initial_gas;
          current_depth_ := msg_depth msg;
          created_address_ := created;
          index_stack_ := index :: index_stack_ s;
          start_gas_ := msg_gas msg :: start_gas_ s |}.

(** [on_instruction_start] only logs. *)
Definition on_instruction_start (s : t) : option t := Some s.

(** The copy of the frame's output made when [current_depth_ > 0]. *)
Definition store_output (out : list Byte.byte) (r : TraceResult.t) : TraceResult.t :=
  match TraceResult.code r, TraceResult.output r with
  | Some _, _ =>
      {| TraceResult.address := TraceResult.address r; TraceResult.code := Some out;
         TraceResult.output := TraceResult.output r;
         TraceResult.gas_used := TraceResult.gas_used r |}
  | None, Some _ =>
      {| TraceResult.address := TraceResult.address r; TraceResult.code := None;
         TraceResult.output := Some out;
         TraceResult.gas_used := TraceResult.gas_used r |}
  | None, None => r
  end.

Definition set_gas_used (g : Z) (r : TraceResult.t) : TraceResult.t :=
  {| TraceResult.address := TraceResult.address r; TraceResult.code := TraceResult.code r;
     TraceResult.output := TraceResult.output r; TraceResult.gas_used := g |}.

Definition fail (e : string) (trace : Trace.t) : option Trace.t :=
  Some (Trace.set_trace_result None (Trace.set_error (Some e) trace)).

(** The status switch of [on_execution_end]. *)
Definition end_status (status : evmc_status_code) (start_gas gas_left : Z)
    (trace : Trace.t) : option Trace.t :=
  match status with
  | EVMC_SUCCESS =>
      r ← Trace.trace_result trace;
      Some (Trace.set_trace_result
              (Some (set_gas_used (wrap_i64 (start_gas - gas_left)) r)) trace)
  | EVMC_REVERT => fail "Reverted" trace
  | EVMC_OUT_OF_GAS | EVMC_STACK_OVERFLOW => fail "Out of gas" trace
  | EVMC_UNDEFINED_INSTRUCTION | EVMC_INVALID_INSTRUCTION => fail "Bad instruction" trace
  | EVMC_STACK_UNDERFLOW => fail "Stack underflow" trace
  | EVMC_BAD_JUMP_DESTINATION => fail "Bad jump destination" trace
  | _ => fail "" trace
  end.

Definition on_execution_end (result : evmc_result) (s : t) : option t :=
  index ← head (index_stack_ s);
  start_gas ← head (start_gas_ s);
  trace ← traces_ s !! index;
  trace1 ← (if (0 <? current_depth_ s)%Z then
              r ← Trace.trace_result trace;
              Some (Trace.set_trace_result (Some (store_output (output_data result) r)) trace)
            else Some trace);
  trace2 ← end_status (status_code result) start_gas (gas_left result) trace1;
  Some {| traces_ := <[index := trace2]> (traces_ s);
          initial_ibs_exists := initial_ibs_exists s;
          initial_gas_ := initial_gas_ s;
          current_depth_ := wrap_i32 (current_depth_ s - 1);
          created_address_ := created_address_ s;
          index_stack_ := tail (index_stack_ s);
          start_gas_ := tail (start_gas_ s) |}.

(** The status switch of [on_reward_granted], on the first trace. *)
Definition reward_status (result : CallResult) (initial_gas : Z) (trace : Trace.t)
  : option Trace.t :=
  match cr_status result with
  | EVMC_SUCCESS =>
      r ← Trace.trace_result trace;
      let r1 := set_gas_used (wrap_i64 (initial_gas - cr_gas_left result)) r in
      let r2 := if decide (0 < length (cr_data result))
                then store_output (cr_data result) r1 else r1 in
      Some (Trace.set_trace_result (Some r2) trace)
  | EVMC_REVERT => fail "Reverted" trace
  | EVMC_OUT_OF_GAS | EVMC_STACK_OVERFLOW => fail "Out of gas" trace
  | EVMC_UNDEFINED_INSTRUCTION | EVMC_INVALID_INSTRUCTION => fail "Bad instruction" trace
  | EVMC_STACK_UNDERFLOW => fail "Stack underflow" trace
  | EVMC_BAD_JUMP_DESTINATION => fail "Bad jump destination" trace
  | _ => fail "" trace
  end.

Definition on_reward_granted (result : CallResult) (s : t) : option t :=
  match traces_ s with
  | [] => Some s
  | trace :: rest =>
      trace' ← reward_status result (initial_gas_ s) trace;
      Some {| traces_ := trace' :: rest;
              initial_ibs_exists := initial_ibs_exists s;
              initial_gas_ := initial_gas_ s;
              current_depth_ := current_depth_ s;
              created_address_ := created_address_ s;
              index_stack_ := index_stack_ s;
              start_gas_ := start_gas_ s |}
  end.

(** The callbacks of one execution, as the interpreter fires them. *)
Inductive event :=
| ExecutionStart (msg : evmc_message) (code : list Byte.byte)
| InstructionStart
| ExecutionEnd (result : evmc_result)
| RewardGranted (result : CallResult).

Definition step (e : event) (s : t) : option t :=
  match e with
  | ExecutionStart msg code => on_execution_start msg code s
  | InstructionStart => on_instruction_start s
  | ExecutionEnd result => on_execution_end result s
  | RewardGranted result => on_reward_granted result s
  end.

Fixpoint run (es : list event) (s : t) : option t :=
  match es with
  | [] => Some s
  | e :: es' => s' ← step e s; run es' s'
  end.

(** A callback sequence is well nested when every frame is entered with
    its nesting level as [msg.depth], the outermost frame is the first
    thing the tracer sees, frames are left innermost first, and the reward
    is granted once all frames are left. *)
Definition admissible (e : event) (s : t) : bool :=
  match e with
  | ExecutionStart msg _ =>
      (msg_depth msg =? Z.of_nat (length (index_stack_ s)))%Z
      && (negb (msg_depth msg =? 0)%Z || Nat.eqb (length (traces_ s)) 0)
  | ExecutionEnd _ => negb (Nat.eqb (length (index_stack_ s)) 0)
  | InstructionStart => true
  | RewardGranted _ => Nat.eqb (length (index_stack_ s)) 0
  end.

Fixpoint well_nested (es : list event) (s : t) : bool :=
  match es with
  | [] => true
  | e :: es' =>
      admissible e s &&
      match step e s with
      | Some s' => well_nested es' s'
      | None => false
      end
  end.

(** The error table of the specification (its section 4.2), written from
    its words: the error string a status leads to, none for success. *)
Definition spec_error (status : evmc_status_code) : option string :=
  match status with
  | EVMC_SUCCESS => None
  | EVMC_REVERT => Some "Reverted"
  | EVMC_OUT_OF_GAS => Some "Out of gas"
  | EVMC_STACK_OVERFLOW => Some "Out of gas"
  | EVMC_UNDEFINED_INSTRUCTION => Some "Bad instruction"
  | EVMC_INVALID_INSTRUCTION => Some "Bad instruction"
  | EVMC_STACK_UNDERFLOW => Some "Stack underflow"
  | EVMC_BAD_JUMP_DESTINATION => Some "Bad jump destination"
  | _ => Some ""
  end.

(** [b] is [a] extended by one element. *)
Definition is_child (a b : list N) : bool :=
  bool_decide (length b = S (length a) /\ take (length a) b = a).

(** The number of addresses after position [i] that extend the address at
    [i] by one element. *)
Definition count_children (addrs : list (list N)) (i : nat) : nat :=
  match addrs !! i with
  | Some a => length (List.filter (is_child a) (drop (S i) addrs))
  | None => 0
  end.

Definition children_after (traces : list Trace.t) (i : nat) : nat :=
  count_children (map Trace.trace_address traces) i.

(** The part of a trace the trace-address bookkeeping is about. *)
Definition shape (tr : Trace.t) : list N * N :=
  (Trace.trace_address tr, Trace.sub_traces tr).

(** The bookkeeping is consistent: addresses are pairwise distinct, every
    proper prefix of an address is the address of a trace whose counter
    lies above the next element, and every counter equals the number of
    later addresses one element longer. *)
Record shape_inv (sh : list (list N * N)) : Prop := {
  sh_addr : forall i j x y, sh !! i = Some x -> sh !! j = Some y -> x.1 = y.1 -> i = j;
  sh_bound : forall j x a k rest,
    sh !! j = Some x -> x.1 = a ++ k :: rest ->
    exists i y, sh !! i = Some y /\ y.1 = a /\ (k < y.2)%N;
  sh_count : forall i x,
    sh !! i = Some x -> x.2 = N.of_nat (count_children (map fst sh) i)
}.

(** The trace at [i] belongs to a frame that is still open and was
    entered with gas [g]: its result is allocated, it carries no error,
    and its action records [g]. *)
Definition open_frame (traces : list Trace.t) (i : nat) (g : Z) : Prop :=
  exists tr a,
    traces !! i = Some tr
    /\ is_Some (Trace.trace_result tr) /\ Trace.error tr = None
    /\ Trace.action tr = ActionTrace a /\ TraceAction.gas a = g.

(** What holds of the tracer throughout a well-nested execution. *)
Record inv (s : t) : Prop := {
  inv_frames : Forall2 (open_frame (traces_ s)) (index_stack_ s) (start_gas_ s);
  inv_nodup : NoDup (index_stack_ s);
  inv_root : index_stack_ s <> [] -> traces_ s <> [];
  inv_shape : shape_inv (map shape (traces_ s))
}.

End TraceTracer.

(** ** The state diff: data

    Modelled from the spec: [DiffValue], [StateDiffEntry] and the map type
    [StateDiff] are declared in evm_trace.hpp, which is not under src/. A
    [DiffValue] is the pair of optional strings [from], [to] that
    [to_json] tells apart; the state diff is a [std::map] from the address
    in hex to its entry. *)

Module DiffValue.
Record t := { from : option string; to : option string }.
(** The default value: serialised as ["="]. *)
Definition unchanged : t := {| from := None; to := None |}.
Definition is_unchanged (d : t) : bool :=
  match from d, to d with None, None => true | _, _ => false end.
End DiffValue.

Module StateDiffEntry.
Record t := {
  balance : DiffValue.t;
  code : DiffValue.t;
  nonce : DiffValue.t;
  storage : gmap string DiffValue.t
}.
Definition default : t :=
  {| balance := DiffValue.unchanged; code := DiffValue.unchanged;
     nonce := DiffValue.unchanged; storage := ∅ |}.

(** At least one of the four fields carries a change. *)
Definition has_change (e : t) : bool :=
  negb (DiffValue.is_unchanged (balance e))
  || negb (DiffValue.is_unchanged (nonce e))
  || negb (DiffValue.is_unchanged (code e))
  || negb (bool_decide (storage e = ∅)).
End StateDiffEntry.

(** What the tracers read of [silkworm::IntraBlockState]. *)
Record IntraBlockState := {
  ibs_exists : address -> bool;
  ibs_get_balance : address -> N;
  ibs_get_nonce : address -> N;
  ibs_get_code : address -> list Byte.byte;
  ibs_get_original_storage : address -> N -> N;
  ibs_get_current_storage : address -> N -> N;
  ibs_touched : list address
}.

(** Digits of a fixed-width big-endian byte string: [silkworm::to_hex] on
    an [evmc::address] (20 bytes) or an [evmc::bytes32]. *)
Definition to_hex_fixed (bytes : nat) (v : N) : string :=
  let out := intx_to_string16 v in
  String.substring 0 (2 * bytes - String.length out) (substr_from 2 PADDING) +:+ out.

(** [silkworm::bytes32_from_hex] on a [0x]-prefixed key. *)
Definition bytes32_from_hex (s : string) : N := HexString.to_N s.

(** Modelled from the spec: [to_quantity] of silkrpc/common/util.hpp, which
    is not under src/; "a minimal-width hex quantity (RPC quantity rules)". *)
Definition to_quantity (v : N) : string := "0x" +:+ intx_to_string16 v.

(** ** StateAddresses: the shadow baseline *)

Module StateAddresses.
Record t := {
  balances_ : gmap address N;
  nonces_ : gmap address N;
  codes_ : gmap address (list Byte.byte);
  initial_ibs_ : IntraBlockState;
  (** [exists] is defined in the header, which is not under src/: its
      answer is taken as given. *)
  exists_ : address -> bool
}.

Definition get_balance (s : t) (a : address) : N :=
  match balances_ s !! a with
  | Some v => v
  | None => ibs_get_balance (initial_ibs_ s) a
  end.

Definition get_nonce (s : t) (a : address) : N :=
  match nonces_ s !! a with
  | Some v => v
  | None => ibs_get_nonce (initial_ibs_ s) a
  end.

Definition get_code (s : t) (a : address) : list Byte.byte :=
  match codes_ s !! a with
  | Some v => v
  | None => ibs_get_code (initial_ibs_ s) a
  end.
End StateAddresses.

(** ** StateDiffTracer *)

Module StateDiffTracer.

(** The members of the class, as the callbacks use them: [state_diff_] is
    the map the tracer was built on, [diff_storage_] the keys written per
    address. *)
Record t := {
  state_diff_ : gmap string StateDiffEntry.t;
  state_addresses_ : StateAddresses.t;
  (** the names table, a null pointer until the first execution start *)
  opcode_names_ : option (N -> option string);
  diff_storage_ : gmap address (gset string);
  code_ : gmap address (list Byte.byte)
}.

Definition make (state_diff : gmap string StateDiffEntry.t) (sa : StateAddresses.t) : t :=
  {| state_diff_ := state_diff; state_addresses_ := sa; opcode_names_ := None;
     diff_storage_ := ∅; code_ := ∅ |}.

Section WithNames.
Context {evmc_revision : Type}.
Variable evmc_get_instruction_names_table : evmc_revision -> N -> option string.

Definition on_execution_start (rev : evmc_revision) (msg : evmc_message)
    (code : list Byte.byte) (s : t) : t :=
  {| state_diff_ := state_diff_ s; state_addresses_ := state_addresses_ s;
     opcode_names_ := match opcode_names_ s with
                      | None => Some (evmc_get_instruction_names_table rev)
                      | Some n => Some n
                      end;
     diff_storage_ := diff_storage_ s;
     code_ := <[msg_recipient msg := code]> (code_ s) |}.
End WithNames.

(** [get_op_name] reads the names table through the pointer: it has no
    defined result on a tracer that saw no execution start.  The name
    itself only goes to the debug log. *)
Definition on_instruction_start (pc : N) (stack_top : list N) (es : ExecutionState) (s : t)
  : option t :=
  b ← es_code es !! N.to_nat pc;
  let opcode := Byte.to_N b in
  names ← opcode_names_ s;
  let opcode_name := get_op_name names opcode in
  if (opcode =? Op.SSTORE)%N then
    k ← stack_at stack_top 0;
    _ ← stack_at stack_top 1;
    let a := msg_recipient (es_msg es) in
    let keys := default ∅ (diff_storage_ s !! a) in
    Some {| state_diff_ := state_diff_ s; state_addresses_ := state_addresses_ s;
            opcode_names_ := opcode_names_ s;
            diff_storage_ := <[a := {[ to_string k ]} ∪ keys]> (diff_storage_ s);
            code_ := code_ s |}
  else Some s.

Definition changed (a b : string) : DiffValue.t :=
  {| DiffValue.from := Some a; DiffValue.to := Some b |}.
Definition removed (a : string) : DiffValue.t :=
  {| DiffValue.from := Some a; DiffValue.to := None |}.
Definition added (b : string) : DiffValue.t :=
  {| DiffValue.from := None; DiffValue.to := Some b |}.

Section Address.
Variable sa : StateAddresses.t.
Variable ibs : IntraBlockState.
Variable a : address.
(** the keys written under [a], in the order of the [std::set] *)
Variable keys : list string.

(** Both states have the account: fields that differ are overwritten;
    the flag tells whether all were equal. *)
Definition diff_existing (entry : StateDiffEntry.t) : StateDiffEntry.t * bool :=
  let initial_balance := StateAddresses.get_balance sa a in
  let initial_code := StateAddresses.get_code sa a in
  let initial_nonce := StateAddresses.get_nonce sa a in
  let final_balance := ibs_get_balance ibs a in
  let final_code := ibs_get_code ibs a in
  let final_nonce := ibs_get_nonce ibs a in
  let eq_b := (initial_balance =? final_balance)%N in
  let eq_c := bool_decide (initial_code = final_code) in
  let eq_n := (initial_nonce =? final_nonce)%N in
  let '(st, eq_s) :=
    foldl (fun '(st, eq) key =>
             let key_b32 := bytes32_from_hex key in
             let initial_storage := ibs_get_original_storage ibs a key_b32 in
             let final_storage := ibs_get_current_storage ibs a key_b32 in
             if (initial_storage =? final_storage)%N then (st, eq)
             else (<[key := changed ("0x" +:+ to_hex_fixed 32 initial_storage)
                                    ("0x" +:+ to_hex_fixed 32 final_storage)]> st,
                   false))
          (StateDiffEntry.storage entry, true) keys in
  ({| StateDiffEntry.balance :=
        if eq_b then StateDiffEntry.balance entry
        else changed ("0x" +:+ intx_to_string16 initial_balance)
                     ("0x" +:+ intx_to_string16 final_balance);
      StateDiffEntry.code :=
        if eq_c then StateDiffEntry.code entry
        else changed ("0x" +:+ to_hex initial_code) ("0x" +:+ to_hex final_code);
      StateDiffEntry.nonce :=
        if eq_n then StateDiffEntry.nonce entry
        else changed (to_quantity initial_nonce) (to_quantity final_nonce);
      StateDiffEntry.storage := st |},
   eq_b && eq_c && eq_n && eq_s).

(** Only the baseline has the account. *)
Definition diff_removed (entry : StateDiffEntry.t) : StateDiffEntry.t :=
  {| StateDiffEntry.balance :=
       removed ("0x" +:+ intx_to_string16 (StateAddresses.get_balance sa a));
     StateDiffEntry.code := removed ("0x" +:+ to_hex (StateAddresses.get_code sa a));
     StateDiffEntry.nonce := removed (to_quantity (StateAddresses.get_nonce sa a));
     StateDiffEntry.storage :=
       foldl (fun st key =>
                <[key := removed ("0x" +:+ to_hex_fixed 32
                           (ibs_get_original_storage ibs a (bytes32_from_hex key)))]> st)
             (StateDiffEntry.storage entry) keys |}.

(** Only the final state has the account; the flag is [to_be_removed]. *)
Definition diff_added (entry : StateDiffEntry.t) : StateDiffEntry.t * bool :=
  let balance := ibs_get_balance ibs a in
  let code := ibs_get_code ibs a in
  let nonce := ibs_get_nonce ibs a in
  ({| StateDiffEntry.balance := added ("0x" +:+ intx_to_string16 balance);
      StateDiffEntry.code := added ("0x" +:+ to_hex code);
      StateDiffEntry.nonce := added (to_quantity nonce);
      StateDiffEntry.storage :=
        foldl (fun st key =>
                 <[key := added ("0x" +:+ to_hex_fixed 32
                            (ibs_get_current_storage ibs a (bytes32_from_hex key)))]> st)
              (StateDiffEntry.storage entry) keys |},
   (balance =? 0)%N && bool_decide (code = []) && (nonce =? 0)%N
   && Nat.eqb (length keys) 0).
End Address.

(** The body of the loop of [on_reward_granted] for one touched address.
    Both [diff_storage_[address]] and [state_diff_[address_key]] insert a
    default element when the key is new. *)
Definition diff_address (ibs : IntraBlockState) (s : t) (a : address) : t :=
  let sa := state_addresses_ s in
  let initial_exists := StateAddresses.exists_ sa a in
  let exists_now := ibs_exists ibs a in
  let keyset := default ∅ (diff_storage_ s !! a) in
  let keys := elements keyset in
  let address_key := "0x" +:+ to_hex_fixed 20 a in
  let entry := default StateDiffEntry.default (state_diff_ s !! address_key) in
  let state_diff :=
    if initial_exists then
      if exists_now then
        let '(entry', all_equals) := diff_existing sa ibs a keys entry in
        if all_equals then delete address_key (state_diff_ s)
        else <[address_key := entry']> (state_diff_ s)
      else <[address_key := diff_removed sa ibs a keys entry]> (state_diff_ s)
    else if exists_now then
      let '(entry', to_be_removed) := diff_added ibs a keys entry in
      if to_be_removed then delete address_key (state_diff_ s)
      else <[address_key := entry']> (state_diff_ s)
    else <[address_key := entry]> (state_diff_ s) in
  {| state_diff_ := state_diff; state_addresses_ := sa;
     opcode_names_ := opcode_names_ s;
     diff_storage_ := <[a := keyset]> (diff_storage_ s);
     code_ := code_ s |}.

Definition on_reward_granted (result : CallResult) (ibs : IntraBlockState) (s : t) : t :=
  foldl (diff_address ibs) s (ibs_touched ibs).

End StateDiffTracer.

(** ** TraceCallExecutor *)

Record TraceConfig := { cfg_vm_trace : bool; cfg_trace : bool; cfg_state_diff : bool }.

Module TraceCallTraces.
Record t := {
  output : string;
  state_diff : option (gmap string StateDiffEntry.t);
  trace : list Trace.t;
  vm_trace : option VmTrace;
  transaction_hash : option N
}.
Definition default : t :=
  {| output := ""; state_diff := None; trace := []; vm_trace := None;
     transaction_hash := None |}.
Definition set_output (o : string) (x : t) : t :=
  {| output := o; state_diff := state_diff x; trace := trace x;
     vm_trace := vm_trace x; transaction_hash := transaction_hash x |}.
End TraceCallTraces.

Module TraceCallResult.
Record t := { traces : TraceCallTraces.t; pre_check_error : option string }.
End TraceCallResult.

Module TraceManyCallResult.
Record t := { traces : list TraceCallTraces.t; pre_check_error : option string }.
End TraceManyCallResult.

(** [silkrpc::ExecutionResult] *)
Record ExecutionResult := {
  er_error_code : Z;
  er_gas_left : Z;
  er_data : list Byte.byte;
  er_pre_check_error : option string
}.

(** The tracers handed to the executor, by class. *)
Inductive Tracer :=
| TracerVmTrace (index : Z)
| TracerTrace
| TracerStateDiff
| TracerIntraBlockState.

(** [silkrpc::ethash::BlockReward] *)
Record BlockReward := { miner_reward : N; ommer_rewards : list N }.

Module TraceCallExecutor.
Section WithExecutor.
(** The collaborators the orchestration is written against. [Executor]
    is the state of an [EVMExecutor] together with the shadow state its
    tracers share; [executor_call] runs one transaction with the given
    tracers and returns what they wrote into the [TraceCallTraces]. *)
Context {Transaction Call Json Executor : Type}.

Record Block := {
  header_number : N;
  header_beneficiary : address;
  transactions : list Transaction
}.
Record BlockWithHash := { block : Block; hash : N }.
Record ChainConfig := { chain_id : N; config : gmap string Json }.
Record TraceCall := { call : Call; trace_config : TraceConfig }.

Variable has_from : Transaction -> bool.
Variable recover_sender : Transaction -> Transaction.
Variable hash_of_transaction : Transaction -> N.
Variable to_transaction : Call -> Transaction.
Variable new_executor : Z -> Executor.
Variable executor_call :
  Executor -> Block -> Transaction -> bool -> bool -> list Tracer ->
  TraceCallTraces.t -> Executor * ExecutionResult * TraceCallTraces.t.
Variable executor_reset : Executor -> Executor.
Variable read_chain_config : ChainConfig.
Variable compute_reward : ChainConfig -> Block -> BlockReward.

(** The tracer set built from a configuration, and the [TraceCallTraces]
    with the optional parts the tracers write to. *)
Definition install (cfg : TraceConfig) (index : Z) (traces : TraceCallTraces.t)
  : list Tracer * TraceCallTraces.t :=
  let '(t1, vm) := if cfg_vm_trace cfg
                   then ([TracerVmTrace index], Some empty_VmTrace)
                   else ([], TraceCallTraces.vm_trace traces) in
  let t2 := if cfg_trace cfg then [TracerTrace] else [] in
  let '(t3, sd) := if cfg_state_diff cfg
                   then ([TracerStateDiff], Some ∅)
                   else ([], TraceCallTraces.state_diff traces) in
  (t1 ++ t2 ++ t3 ++ [TracerIntraBlockState],
   {| TraceCallTraces.output := TraceCallTraces.output traces;
      TraceCallTraces.state_diff := sd;
      TraceCallTraces.trace := TraceCallTraces.trace traces;
      TraceCallTraces.vm_trace := vm;
      TraceCallTraces.transaction_hash := TraceCallTraces.transaction_hash traces |}).

Definition with_sender (txn : Transaction) : Transaction :=
  if has_from txn then txn else recover_sender txn.

(** The loop of [trace_block_transactions]. *)
Fixpoint trace_block_transactions_loop (blk : Block) (cfg : TraceConfig)
    (txns : list Transaction) (index : Z) (executor : Executor)
  : list TraceCallResult.t :=
  match txns with
  | [] => []
  | txn :: rest =>
      let transaction := with_sender txn in
      let traces0 :=
        {| TraceCallTraces.output := ""; TraceCallTraces.state_diff := None;
           TraceCallTraces.trace := []; TraceCallTraces.vm_trace := None;
           TraceCallTraces.transaction_hash := Some (hash_of_transaction transaction) |} in
      let '(tracers, traces1) := install cfg index traces0 in
      let '(executor', execution_result, traces2) :=
        executor_call executor blk transaction true true tracers traces1 in
      let result :=
        match er_pre_check_error execution_result with
        | Some e =>
            {| TraceCallResult.traces := traces2; TraceCallResult.pre_check_error := Some e |}
        | None =>
            {| TraceCallResult.traces :=
                 TraceCallTraces.set_output ("0x" +:+ to_hex (er_data execution_result)) traces2;
               TraceCallResult.pre_check_error := None |}
        end in
      result :: trace_block_transactions_loop blk cfg rest (index + 1) executor'
  end.

Definition trace_block_transactions (blk : Block) (cfg : TraceConfig)
  : list TraceCallResult.t :=
  trace_block_transactions_loop blk cfg (transactions blk) 0
    (new_executor (wrap_u64 (Z.of_N (header_number blk) - 1))).

Definition decorate (bwh : BlockWithHash) (pos : N) (tnx_hash : N) (call_trace : Trace.t)
  : Trace.t :=
  {| Trace.action := Trace.action call_trace;
     Trace.trace_result := Trace.trace_result call_trace;
     Trace.sub_traces := Trace.sub_traces call_trace;
     Trace.trace_address := Trace.trace_address call_trace;
     Trace.error := Trace.error call_trace;
     Trace.type := Trace.type call_trace;
     Trace.block_hash := Some (hash bwh);
     Trace.block_number := Some (header_number (block bwh));
     Trace.transaction_hash := Some tnx_hash;
     Trace.transaction_position := Some pos |}.

(** The first loop of [trace_block], over the results by position. *)
Fixpoint trace_block_loop (bwh : BlockWithHash) (results : list TraceCallResult.t)
    (pos : nat) (traces : list Trace.t) : option (list Trace.t) :=
  match results with
  | [] => Some traces
  | trace_call_result :: rest =>
      txn ← transactions (block bwh) !! pos;
      let tnx_hash := hash_of_transaction (with_sender txn) in
      let call_traces := TraceCallTraces.trace (TraceCallResult.traces trace_call_result) in
      trace_block_loop bwh rest (S pos)
        (traces ++ map (decorate bwh (N.of_nat pos) tnx_hash) call_traces)
  end.

(** The trace appended by [trace_block] after the transactions. *)
Definition reward_trace (bwh : BlockWithHash) : Trace.t :=
  let chain_config := read_chain_config in
  let block_rewards :=
    (* [chain_config.config.count("ethash") != 0] *)
    match config chain_config !! "ethash" with
    | Some _ => compute_reward chain_config (block bwh)
    | None => {| miner_reward := 0; ommer_rewards := [] |}
    end in
  let action :=
    {| RewardAction.author := header_beneficiary (block bwh);
       RewardAction.reward_type := "block";
       RewardAction.value := miner_reward block_rewards |} in
  {| Trace.action := ActionReward action;
     Trace.trace_result := None;
     Trace.sub_traces := 0;
     Trace.trace_address := [];
     Trace.error := None;
     Trace.type := "reward";
     Trace.block_hash := Some (hash bwh);
     Trace.block_number := Some (header_number (block bwh));
     Trace.transaction_hash := None;
     Trace.transaction_position := None |}.

Definition trace_block (bwh : BlockWithHash) : option (list Trace.t) :=
  let trace_call_results :=
    trace_block_transactions (block bwh)
      {| cfg_vm_trace := false; cfg_trace := true; cfg_state_diff := false |} in
  traces ← trace_block_loop bwh trace_call_results 0 [];
  Some (traces ++ [reward_trace bwh]).

(** One turn of the loop of [trace_calls] up to the executor's answer:
    the tracers are built from the call's configuration and the call is run. *)
Definition run_call (blk : Block) (index : Z) (c : TraceCall) (executor : Executor)
  : Executor * ExecutionResult * TraceCallTraces.t :=
  let '(tracers, traces) := install (trace_config c) index TraceCallTraces.default in
  executor_call executor blk (to_transaction (call c)) true true tracers traces.

(** The loop of [trace_calls]; besides the result it returns the
    indices at which [executor.call] was invoked, in order. The counter
    numbers the calls of one request and stays far below [INT_MAX]. *)
Fixpoint trace_calls_loop (blk : Block) (calls : list TraceCall) (index : Z)
    (executor : Executor) (result : TraceManyCallResult.t) (called : list Z)
  : TraceManyCallResult.t * list Z :=
  match calls with
  | [] => (result, called)
  | c :: rest =>
      let '(executor', execution_result, traces') := run_call blk index c executor in
      match er_pre_check_error execution_result with
      | Some e =>
          ({| TraceManyCallResult.traces := [];
              TraceManyCallResult.pre_check_error :=
                Some ("first run for txIndex " +:+ to_string_int index
                      +:+ " error: " +:+ e) |},
           called ++ [index])
      | None =>
          let traces'' :=
            TraceCallTraces.set_output ("0x" +:+ to_hex (er_data execution_result)) traces' in
          trace_calls_loop blk rest (index + 1) (executor_reset executor')
            {| TraceManyCallResult.traces := TraceManyCallResult.traces result ++ [traces''];
               TraceManyCallResult.pre_check_error :=
                 TraceManyCallResult.pre_check_error result |}
            (called ++ [index])
      end
  end.

Definition trace_calls (blk : Block) (calls : list TraceCall)
  : TraceManyCallResult.t * list Z :=
  trace_calls_loop blk calls 0 (new_executor (Z.of_N (header_number blk)))
    {| TraceManyCallResult.traces := []; TraceManyCallResult.pre_check_error := None |} [].

(** *** The calls of a batch, one after the other

    What "the call at index [k]" means when the calls share one executor:
    the executor as the [k]-th call finds it (reset after every earlier
    call), and what that call returns. *)
Fixpoint executor_before (blk : Block) (calls : list TraceCall) (k : nat) : Executor :=
  match k with
  | O => new_executor (Z.of_N (header_number blk))
  | S k' =>
      match calls !! k' with
      | Some c =>
          executor_reset
            (fst (fst (run_call blk (Z.of_nat k') c (executor_before blk calls k'))))
      | None => executor_before blk calls k'
      end
  end.

Definition outcome (blk : Block) (calls : list TraceCall) (k : nat)
  : option (ExecutionResult * TraceCallTraces.t) :=
  c ← calls !! k;
  let r := run_call blk (Z.of_nat k) c (executor_before blk calls k) in
  Some (snd (fst r), snd r).

(** The call at [k] passes the pre-check. *)
Definition passes (blk : Block) (calls : list TraceCall) (k : nat) : Prop :=
  exists er tr, outcome blk calls k = Some (er, tr) /\ er_pre_check_error er = None.

(** The [TraceCallTraces] a passing call contributes. *)
Definition contribution (blk : Block) (calls : list TraceCall) (k : nat)
  : option TraceCallTraces.t :=
  '(er, tr) ← outcome blk calls k;
  Some (TraceCallTraces.set_output ("0x" +:+ to_hex (er_data er)) tr).

End WithExecutor.
End TraceCallExecutor.

(** ** Further parts of the file

    The functions of evm_trace.cpp that the sections above do not need:
    the request side ([from_json]), the JSON form of the state diff
    ([to_json]), [push_memory_offset_len], the tracer of the shadow
    baseline, and [execute] with its two callers. *)

(** [from_json(json, TraceConfig&)]: [config] is the array of strings
    read by [json.get_to]. *)
Definition from_json_TraceConfig (config : list string) : TraceConfig :=
  {| cfg_vm_trace := bool_decide ("vmTrace" ∈ config);
     cfg_trace := bool_decide ("trace" ∈ config);
     cfg_state_diff := bool_decide ("stateDiff" ∈ config) |}.

(** The values of [nlohmann::json] the serialisers build; an object is a
    [std::map] from keys to values. *)
#[warnings="-register-all"]
Inductive Json :=
| JNull
| JBool (b : bool)
| JNumber (z : Z)
| JString (s : string)
| JArray (l : list Json)
| JObject (m : gmap string Json).

(** [to_json(json, DiffValue)], on the fresh [json] that an assignment
    such as [json["balance"] = state_diff.balance] hands over. *)
Definition to_json_DiffValue (dv : DiffValue.t) : Json :=
  match DiffValue.from dv, DiffValue.to dv with
  | Some f, Some t =>
      JObject {[ "*" := JObject (<["from" := JString f]> {[ "to" := JString t ]}) ]}
  | Some f, None => JObject {[ "-" := JString f ]}
  | None, Some t => JObject {[ "+" := JString t ]}
  | None, None => JString "="
  end.

(** [to_json(json, StateDiffEntry)] *)
Definition to_json_StateDiffEntry (e : StateDiffEntry.t) : Json :=
  JObject (<["balance" := to_json_DiffValue (StateDiffEntry.balance e)]>
          (<["code" := to_json_DiffValue (StateDiffEntry.code e)]>
          (<["nonce" := to_json_DiffValue (StateDiffEntry.nonce e)]>
          {[ "storage" := JObject (to_json_DiffValue <$> StateDiffEntry.storage e) ]}))).

(** [push_memory_offset_len]; the [std::stack] is a list, top first. *)
Definition push_memory_offset_len (op_code : N) (stack_top : list N) (tms : list TraceMemory)
  : option (list TraceMemory) :=
  if (op_code =? Op.STATICCALL)%N || (op_code =? Op.DELEGATECALL)%N then
    o ← stack_at stack_top 4;
    l ← stack_at stack_top 5;
    Some ({| offset := limb0 o; len := limb0 l; data := "" |} :: tms)
  else if (op_code =? Op.CALL)%N || (op_code =? Op.CALLCODE)%N then
    o ← stack_at stack_top 5;
    l ← stack_at stack_top 6;
    Some ({| offset := limb0 o; len := limb0 l; data := "" |} :: tms)
  else if (op_code =? Op.CREATE)%N || (op_code =? Op.CREATE2)%N then
    Some ({| offset := 0; len := 0; data := "" |} :: tms)
  else Some tms.

(** *** The index labels of the per-opcode trace *)

(** The prefix pushed by the outermost [on_execution_start]. *)
Definition root_prefix (index : Z) : string :=
  if (index =? -1)%Z then "" else to_string_int index +:+ "-".

(** The prefix of the node at path [p] under a node of prefix [base]:
    every step into the [sub] of the op at [i] appends [i] and a dash. *)
Fixpoint prefix_of (base : string) (p : path) : string :=
  match p with
  | [] => base
  | i :: p' => prefix_of (base +:+ to_string_dec (N.of_nat i) +:+ "-") p'
  end.

(** Every op of the tree under [t] is labelled with the prefix of its
    node followed by its position in the node. *)
Definition well_indexed (base : string) (t : VmTrace) : Prop :=
  forall (p : path) (vt : VmTrace) (i : nat) (op : TraceOp),
    get p t = Some vt -> ops vt !! i = Some op ->
    idx op = prefix_of base p +:+ to_string_dec (N.of_nat i).

(** [traces_stack_] and [index_prefix_] go together: a live reference is
    paired with the prefix of the node it leads to. *)
Definition prefixes_agree (base : string) (st : list frame_ref) (pf : list string) : Prop :=
  Forall2 (fun r pre => forall p, r = Some p -> pre = prefix_of base p) st pf.

(** *** The trace addresses of open frames *)

(** The traces of the open frames, innermost first, have trace addresses
    as long as the frames are deep. *)
Fixpoint address_depths (traces : list Trace.t) (st : list nat) : Prop :=
  match st with
  | [] => True
  | i :: st' =>
      (exists tr, traces !! i = Some tr /\ length (Trace.trace_address tr) = length st')
      /\ address_depths traces st'
  end.

(** The number of [on_execution_start] callbacks in a sequence. *)
Definition starts (es : list TraceTracer.event) : nat :=
  length (List.filter (fun e => match e with
                                | TraceTracer.ExecutionStart _ _ => true
                                | _ => false
                                end) es).

(** ** IntraBlockStateTracer *)

Module IntraBlockStateTracer.

(** Modelled from the spec: [set_balance], [set_nonce] and [set_code] of
    [StateAddresses] are defined in evm_trace.hpp, which is not under
    src/; "if an address has a stored override use it": they store the
    override that the getters look up first. *)
Definition set_balance (a : address) (v : N) (s : StateAddresses.t) : StateAddresses.t :=
  {| StateAddresses.balances_ := <[a := v]> (StateAddresses.balances_ s);
     StateAddresses.nonces_ := StateAddresses.nonces_ s;
     StateAddresses.codes_ := StateAddresses.codes_ s;
     StateAddresses.initial_ibs_ := StateAddresses.initial_ibs_ s;
     StateAddresses.exists_ := StateAddresses.exists_ s |}.
Definition set_nonce (a : address) (v : N) (s : StateAddresses.t) : StateAddresses.t :=
  {| StateAddresses.balances_ := StateAddresses.balances_ s;
     StateAddresses.nonces_ := <[a := v]> (StateAddresses.nonces_ s);
     StateAddresses.codes_ := StateAddresses.codes_ s;
     StateAddresses.initial_ibs_ := StateAddresses.initial_ibs_ s;
     StateAddresses.exists_ := StateAddresses.exists_ s |}.
Definition set_code (a : address) (v : list Byte.byte) (s : StateAddresses.t)
  : StateAddresses.t :=
  {| StateAddresses.balances_ := StateAddresses.balances_ s;
     StateAddresses.nonces_ := StateAddresses.nonces_ s;
     StateAddresses.codes_ := <[a := v]> (StateAddresses.codes_ s);
     StateAddresses.initial_ibs_ := StateAddresses.initial_ibs_ s;
     StateAddresses.exists_ := StateAddresses.exists_ s |}.

(** The body of the loop of [on_reward_granted] for one touched address. *)
Definition record_address (ibs : IntraBlockState) (s : StateAddresses.t) (a : address)
  : StateAddresses.t :=
  set_code a (ibs_get_code ibs a)
    (set_nonce a (ibs_get_nonce ibs a)
      (set_balance a (ibs_get_balance ibs a) s)).

Definition on_reward_granted (result : CallResult) (ibs : IntraBlockState)
    (s : StateAddresses.t) : StateAddresses.t :=
  foldl (record_address ibs) s (ibs_touched ibs).

End IntraBlockStateTracer.

(** ** [execute] and its callers *)

Module Execute.
Section WithExecutor.
Context {Transaction Call Executor : Type}.

Variable has_from : Transaction -> bool.
Variable recover_sender : Transaction -> Transaction.
Variable hash_of_transaction : Transaction -> N.
Variable to_transaction : Call -> Transaction.
(** [transaction.transaction_index], an unsigned 64-bit position. *)
Variable transaction_index : Transaction -> N.
Variable new_executor : Z -> Executor.
Variable executor_call :
  Executor -> TraceCallExecutor.Block (Transaction := Transaction) -> Transaction ->
  bool -> bool -> list Tracer ->
  TraceCallTraces.t -> Executor * ExecutionResult * TraceCallTraces.t.
Variable executor_reset : Executor -> Executor.

(** The tracers [execute] builds for the traced transaction: the ones of
    the configuration, after [tracers.clear()]. *)
Definition install (cfg : TraceConfig) (index : Z) (traces : TraceCallTraces.t)
  : list Tracer * TraceCallTraces.t :=
  let '(t1, vm) := if cfg_vm_trace cfg
                   then ([TracerVmTrace index], Some empty_VmTrace)
                   else ([], TraceCallTraces.vm_trace traces) in
  let t2 := if cfg_trace cfg then [TracerTrace] else [] in
  let '(t3, sd) := if cfg_state_diff cfg
                   then ([TracerStateDiff], Some ∅)
                   else ([], TraceCallTraces.state_diff traces) in
  (t1 ++ t2 ++ t3,
   {| TraceCallTraces.output := TraceCallTraces.output traces;
      TraceCallTraces.state_diff := sd;
      TraceCallTraces.trace := TraceCallTraces.trace traces;
      TraceCallTraces.vm_trace := vm;
      TraceCallTraces.transaction_hash := TraceCallTraces.transaction_hash traces |}).

(** The first loop of [execute]: the transactions of the block at the
    positions [idx], ..., [idx + n - 1] are run with the tracer of the
    shadow baseline alone. Besides the executor it returns what
    [executor.call] was invoked with, in order. *)
Fixpoint replay (blk : TraceCallExecutor.Block) (n : nat) (idx : nat) (executor : Executor)
    (called : list (Transaction * list Tracer))
  : option (Executor * list (Transaction * list Tracer)) :=
  match n with
  | O => Some (executor, called)
  | S n' =>
      t ← TraceCallExecutor.transactions blk !! idx;
      let txn := TraceCallExecutor.with_sender has_from recover_sender t in
      let tracers := [TracerIntraBlockState] in
      let '(executor', _, _) :=
        executor_call executor blk txn true true tracers TraceCallTraces.default in
      replay blk n' (S idx) executor' (called ++ [(txn, tracers)])
  end.

Definition execute (block_number : Z) (blk : TraceCallExecutor.Block)
    (transaction : Transaction) (index : Z) (cfg : TraceConfig)
  : option (TraceCallResult.t * list (Transaction * list Tracer)) :=
  '(executor, called) ←
    replay blk (N.to_nat (transaction_index transaction)) 0 (new_executor block_number) [];
  let executor := executor_reset executor in
  let '(tracers, traces) := install cfg index TraceCallTraces.default in
  let '(_, execution_result, traces') :=
    executor_call executor blk transaction true true tracers traces in
  let result :=
    match er_pre_check_error execution_result with
    | Some e =>
        {| TraceCallResult.traces := traces'; TraceCallResult.pre_check_error := Some e |}
    | None =>
        {| TraceCallResult.traces :=
             TraceCallTraces.set_output ("0x" +:+ to_hex (er_data execution_result)) traces';
           TraceCallResult.pre_check_error := None |}
    end in
  Some (result, called ++ [(transaction, tracers)]).

Definition trace_call (blk : TraceCallExecutor.Block) (c : Call) (cfg : TraceConfig)
  : option (TraceCallResult.t * list (Transaction * list Tracer)) :=
  execute (Z.of_N (TraceCallExecutor.header_number blk)) blk (to_transaction c) (-1) cfg.

Definition trace_transaction (bwh : TraceCallExecutor.BlockWithHash) (transaction : Transaction)
  : option (list Trace.t) :=
  let blk := TraceCallExecutor.block bwh in
  '(result, _) ←
    execute (wrap_u64 (Z.of_N (TraceCallExecutor.header_number blk) - 1)) blk transaction
      (wrap_i32 (Z.of_N (transaction_index transaction)))
      {| cfg_vm_trace := false; cfg_trace := true; cfg_state_diff := false |};
  Some (map (TraceCallExecutor.decorate bwh (transaction_index transaction)
               (hash_of_transaction transaction))
            (TraceCallTraces.trace (TraceCallResult.traces result))).

End WithExecutor.
End Execute.

(** ** A small execution, for the examples

    A contract that pushes six zero words and makes a [DELEGATECALL],
    which enters a frame at depth 1. *)
Module Scenario.
Definition names : unit -> N -> option string := fun _ _ => None.
Definition outer : evmc_message :=
  {| msg_kind := EVMC_CALL; msg_flags := 0; msg_depth := 0; msg_gas := 50000;
     msg_recipient := 0xaa%N; msg_sender := 0xbb%N; msg_input_data := [];
     msg_value := 0; msg_code_address := 0xaa%N |}.
Definition inner : evmc_message :=
  {| msg_kind := EVMC_DELEGATECALL; msg_flags := 0; msg_depth := 1; msg_gas := 30000;
     msg_recipient := 0xaa%N; msg_sender := 0xbb%N; msg_input_data := [];
     msg_value := 0; msg_code_address := 0xcc%N |}.
Definition bytecode : list Byte.byte :=
  [Byte.x60; Byte.x00; Byte.x60; Byte.x00; Byte.x60; Byte.x00;
   Byte.x60; Byte.x00; Byte.x60; Byte.x00; Byte.x60; Byte.x00; Byte.xf4].
Definition at_gas (g : Z) : ExecutionState :=
  {| es_code := bytecode; es_memory := []; es_gas_left := g; es_msg := outer |}.
Definition inner_at_gas (g : Z) : ExecutionState :=
  {| es_code := [Byte.x00]; es_memory := []; es_gas_left := g; es_msg := inner |}.
(** The outer frame up to its call, and the entry into the inner frame. *)
Definition to_the_call : list (VmTraceTracer.event (evmc_revision := unit)) :=
  [VmTraceTracer.ExecutionStart tt outer bytecode;
   VmTraceTracer.InstructionStart 0 [] 0 (at_gas 50000);
   VmTraceTracer.InstructionStart 2 [0]%N 1 (at_gas 49997);
   VmTraceTracer.InstructionStart 4 [0; 0]%N 2 (at_gas 49994);
   VmTraceTracer.InstructionStart 6 [0; 0; 0]%N 3 (at_gas 49991);
   VmTraceTracer.InstructionStart 8 [0; 0; 0; 0]%N 4 (at_gas 49988);
   VmTraceTracer.InstructionStart 10 [0; 0; 0; 0; 0]%N 5 (at_gas 49985);
   VmTraceTracer.InstructionStart 12 [0; 0; 0; 0; 0; 0]%N 6 (at_gas 49982)].
Definition into_the_callee : list (VmTraceTracer.event (evmc_revision := unit)) :=
  to_the_call ++ [VmTraceTracer.ExecutionStart tt inner [Byte.x00]].
(** The tracer after a callback sequence; the initial one when the
    sequence has no defined result. *)
Definition after (index : Z) (es : list (VmTraceTracer.event (evmc_revision := unit)))
  : VmTraceTracer.t :=
  default (VmTraceTracer.make empty_VmTrace index)
          (VmTraceTracer.run names es (VmTraceTracer.make empty_VmTrace index)).
(** A final state in which every account exists or not, has the given
    balance, no code and nonce zero, and every slot went from 0 to
    [current]; and a baseline over the state in which nothing has changed. *)
Definition final_state (exists_now : bool) (balance current : N) : IntraBlockState :=
  {| ibs_exists := fun _ => exists_now; ibs_get_balance := fun _ => balance;
     ibs_get_nonce := fun _ => 0%N; ibs_get_code := fun _ => [];
     ibs_get_original_storage := fun _ _ => 0%N;
     ibs_get_current_storage := fun _ _ => current;
     ibs_touched := [0xaa%N] |}.
Definition baseline (existed : bool) : StateAddresses.t :=
  {| StateAddresses.balances_ := ∅; StateAddresses.nonces_ := ∅;
     StateAddresses.codes_ := ∅; StateAddresses.initial_ibs_ := final_state existed 0 0;
     StateAddresses.exists_ := fun _ => existed |}.
(** A frame of 0xaa whose code is a single [SSTORE], and the state diff
    tracer once that frame has started. *)
Definition storing : ExecutionState :=
  {| es_code := [Byte.x55]; es_memory := []; es_gas_left := 40000; es_msg := outer |}.
Definition started (existed : bool) : StateDiffTracer.t :=
  StateDiffTracer.on_execution_start names tt outer (es_code storing)
    (StateDiffTracer.make ∅ (baseline existed)).
(** A state diff tracer that has seen an [SSTORE] to slot 5 of 0xaa. *)
Definition after_sstore (existed : bool) : StateDiffTracer.t :=
  default (started existed)
          (StateDiffTracer.on_instruction_start 0 [5; 9]%N storing (started existed)).
End Scenario.

(** * Properties *)

(** ** Memory windows *)

Lemma string_app_assoc (a b c : string) : (a +:+ b) +:+ c = a +:+ (b +:+ c).
Proof.
  induction a as [|x a IH]; [reflexivity|].
  change (String x ((a +:+ b) +:+ c) = String x (a +:+ (b +:+ c))).
  now rewrite IH.
Qed.

Lemma string_app_nil_r (a : string) : a +:+ "" = a.
Proof.
  induction a as [|x a IH]; [reflexivity|].
  change (String x (a +:+ "") = String x a). now rewrite IH.
Qed.

Lemma copy_memory_loop_in_bounds (mem : list Byte.byte) (start : N) (n : nat) :
  forall (idx : N) (acc : string),
    N.to_nat (start + idx) + n <= length mem ->
    copy_memory_loop mem start idx n acc
    = Some (acc +:+ to_hex (take n (drop (N.to_nat (start + idx)) mem))).
Proof.
  induction n as [|n IH]; intros idx acc Hb; simpl.
  - now rewrite string_app_nil_r.
  - destruct (mem !! N.to_nat (start + idx)) as [b|] eqn:Hl.
    + simpl. rewrite IH by lia.
      f_equal. rewrite string_app_assoc. f_equal.
      replace (N.to_nat (start + (idx + 1))) with (S (N.to_nat (start + idx))) by lia.
      rewrite (drop_S _ _ _ Hl). reflexivity.
    + apply lookup_ge_None in Hl. lia.
Qed.




(** ** The trace tree and its references *)

Lemma get_upd_same (p : path) (f : VmTrace -> VmTrace) :
  forall (t vt : VmTrace), get p t = Some vt -> get p (upd p f t) = Some (f vt).
Proof.
  induction p as [|i p IH]; intros t vt H; simpl in *.
  - congruence.
  - destruct (ops t !! i) as [op|] eqn:Hop; simpl in H; [|discriminate].
    destruct (sub op) as [s|] eqn:Hs; simpl in H; [|discriminate].
    simpl. rewrite list_lookup_insert_eq by (eapply lookup_lt_Some; eassumption).
    simpl. now apply IH.
Qed.

Lemma ops_back_1_app (l : list TraceOp) (op : TraceOp) : ops_back 1 (l ++ [op]) = Some op.
Proof.
  unfold ops_back. rewrite length_app. simpl.
  destruct (decide (1 <= length l + 1)) as [_|n]; [|lia].
  replace (length l + 1 - 1) with (length l) by lia.
  rewrite lookup_app_r by lia. now rewrite Nat.sub_diag.
Qed.

Lemma ops_back_1_inv (l : list TraceOp) (op : TraceOp) :
  ops_back 1 l = Some op -> exists l', l = l' ++ [op].
Proof.
  unfold ops_back. destruct (decide (1 <= length l)) as [Hl|]; [|discriminate].
  intros H. destruct (decide (l = [])) as [->|Hne]; [simpl in Hl; lia|].
  destruct (exists_last Hne) as (l' & x & ->). exists l'.
  rewrite length_app in H. simpl in H.
  replace (length l' + 1 - 1) with (length l') in H by lia.
  rewrite lookup_app_r in H by lia. rewrite Nat.sub_diag in H. simpl in H. congruence.
Qed.

Lemma set_last_app (l : list TraceOp) (op op' : TraceOp) :
  set_last op' (l ++ [op]) = l ++ [op'].
Proof.
  unfold set_last. rewrite length_app. simpl.
  replace (length l + 1 - 1) with (length l + 0) by lia.
  now rewrite insert_app_r.
Qed.

(** ** Machine arithmetic *)

Lemma wrap_i64_id (z : Z) : in_i64 z -> wrap_i64 z = z.
Proof. unfold in_i64, wrap_i64. intros H. rewrite Z.mod_small; lia. Qed.

Lemma wrap_i64_eqm (a b : Z) :
  (a mod 2 ^ 64 = b mod 2 ^ 64)%Z -> wrap_i64 a = wrap_i64 b.
Proof.
  intros H. unfold wrap_i64.
  rewrite <- (Zplus_mod_idemp_l a), <- (Zplus_mod_idemp_l b), H. reflexivity.
Qed.

Lemma wrap_i64_mod (a : Z) : (wrap_i64 a mod 2 ^ 64 = a mod 2 ^ 64)%Z.
Proof.
  unfold wrap_i64.
  rewrite Zminus_mod_idemp_l.
  replace (a + 2 ^ 63 - 2 ^ 63)%Z with a by lia. reflexivity.
Qed.

Lemma wrap_u64_sub (a b : Z) : wrap_i64 (wrap_u64 a - wrap_u64 b) = wrap_i64 (a - b).
Proof.
  apply wrap_i64_eqm. unfold wrap_u64. now rewrite <- Zminus_mod.
Qed.

Lemma wrap_i64_sub_r (a b : Z) : wrap_i64 (a - wrap_i64 b) = wrap_i64 (a - b).
Proof.
  apply wrap_i64_eqm.
  rewrite (Zminus_mod a (wrap_i64 b)), wrap_i64_mod, <- Zminus_mod. reflexivity.
Qed.

(** ** VmTraceTracer: leaving a frame *)

Lemma on_execution_end_defined (result : evmc_result) (s : VmTraceTracer.t)
    (p : path) (vt : VmTrace) (start_gas : Z) (prefix : string) :
  VmTraceTracer.top_trace s = Some (p, vt) ->
  head (VmTraceTracer.start_gas_ s) = Some start_gas ->
  head (VmTraceTracer.index_prefix_ s) = Some prefix ->
  exists s',
    VmTraceTracer.on_execution_end result s = Some s'
    /\ get p (VmTraceTracer.vm_trace_ s')
       = Some (VmTraceTracer.close_frame result start_gas vt)
    /\ VmTraceTracer.traces_stack_ s' = tail (VmTraceTracer.traces_stack_ s).
Proof.
  intros Htop Hg Hp. unfold VmTraceTracer.on_execution_end.
  rewrite Htop, Hg, Hp. simpl. eexists. split; [reflexivity|]. simpl. split; [|reflexivity].
  apply (get_upd_same p (fun _ => VmTraceTracer.close_frame result start_gas vt) _ vt).
  unfold VmTraceTracer.top_trace in Htop.
  destruct (head (VmTraceTracer.traces_stack_ s)) as [[q|]|]; simpl in Htop; try discriminate.
  destruct (get q (VmTraceTracer.vm_trace_ s)) eqn:E; simpl in Htop; congruence.
Qed.

(** C8. A frame that ends holding exactly one op, a [STOP], has its ops
    cleared by [on_execution_end], whatever the status, and nothing else is
    done to it; and a transaction that executes a single [STOP] at pc 0
    leaves a [VmTrace] without ops. *)
Theorem single_stop_clears_ops :
  (forall (result : evmc_result) (s : VmTraceTracer.t) (p : path) (vt : VmTrace)
          (op : TraceOp) (start_gas : Z) (prefix : string),
      VmTraceTracer.top_trace s = Some (p, vt) ->
      ops vt = [op] ->
      op_code op = Op.STOP ->
      head (VmTraceTracer.start_gas_ s) = Some start_gas ->
      head (VmTraceTracer.index_prefix_ s) = Some prefix ->
      exists s',
        VmTraceTracer.on_execution_end result s = Some s'
        /\ get p (VmTraceTracer.vm_trace_ s') = Some (mkVmTrace (code vt) []))
  /\ (forall (evmc_revision : Type) (names : evmc_revision -> N -> option string)
             (rev : evmc_revision) (msg : evmc_message) (bytecode : list Byte.byte)
             (result : evmc_result) (stack_top : list N) (stack_height : Z)
             (es : ExecutionState) (index : Z),
         msg_depth msg = 0%Z ->
         es_code es = Byte.x00 :: bytecode ->
         exists s',
           VmTraceTracer.run names
             [VmTraceTracer.ExecutionStart rev msg (Byte.x00 :: bytecode);
              VmTraceTracer.InstructionStart 0 stack_top stack_height es;
              VmTraceTracer.ExecutionEnd result]
             (VmTraceTracer.make empty_VmTrace index) = Some s'
           /\ ops (VmTraceTracer.vm_trace_ s') = []
           /\ VmTraceTracer.traces_stack_ s' = []).
Proof.
  split.
  - intros result s p vt op start_gas prefix Htop Hops Hstop Hg Hp.
    destruct (on_execution_end_defined result s p vt start_gas prefix Htop Hg Hp)
      as (s' & Hs' & Hget & _).
    exists s'. split; [exact Hs'|]. rewrite Hget. f_equal.
    unfold VmTraceTracer.close_frame. rewrite Hops.
    pose proof (ops_back_1_app [] op) as Hb. simpl in Hb. rewrite Hb.
    cbn. rewrite Hstop. reflexivity.
  - intros evmc_revision names rev msg bytecode result stack_top stack_height es index
           Hd Hcode.
    unfold VmTraceTracer.run, VmTraceTracer.step, VmTraceTracer.on_execution_start.
    rewrite Hd. cbn.
    unfold VmTraceTracer.on_instruction_start. rewrite Hcode. cbn.
    eexists. split; [reflexivity|]. cbn. split; reflexivity.
Qed.

Lemma single_stop_clears_ops_witness :
  let stop := mkTraceOp 21000 empty_TraceEx "0" 0 Op.STOP "STOP" 0 None None None in
  let s := {| VmTraceTracer.vm_trace_ := mkVmTrace "0x00" [stop];
              VmTraceTracer.transaction_index_ := -1;
              VmTraceTracer.opcode_names_ := None;
              VmTraceTracer.traces_stack_ := [Some []];
              VmTraceTracer.start_gas_ := [21000%Z];
              VmTraceTracer.index_prefix_ := [""] |} in
  exists s',
    VmTraceTracer.on_execution_end
      {| status_code := EVMC_SUCCESS; gas_left := 21000; output_data := [] |} s = Some s'
    /\ get [] (VmTraceTracer.vm_trace_ s') = Some (mkVmTrace "0x00" []).
Proof.
  intros stop s.
  apply (proj1 single_stop_clears_ops
           {| status_code := EVMC_SUCCESS; gas_left := 21000; output_data := [] |}
           s [] (mkVmTrace "0x00" [stop]) stop 21000%Z "");
    reflexivity.
Defined.

(** C5. On [UNDEFINED_INSTRUCTION], for a frame with ops other than a lone
    [STOP], the tail op is closed by the three updates in their order:
    [used] takes the value [g] of the [gas_cost] field, [gas_cost] becomes
    [start_gas - g], and [used] is lowered by the new [gas_cost]; so
    [gas_cost = start_gas - g] and [used = 2 * g - start_gas], in 64-bit
    arithmetic and exactly for gas values in range. Earlier ops are kept. *)
Theorem undefined_instruction_tail
    (result : evmc_result) (s : VmTraceTracer.t) (p : path) (vt : VmTrace)
    (l : list TraceOp) (op : TraceOp) (start_gas : Z) (prefix : string) :
  VmTraceTracer.top_trace s = Some (p, vt) ->
  ops vt = l ++ [op] ->
  ~ (l = [] /\ op_code op = Op.STOP) ->
  status_code result = EVMC_UNDEFINED_INSTRUCTION ->
  head (VmTraceTracer.start_gas_ s) = Some start_gas ->
  head (VmTraceTracer.index_prefix_ s) = Some prefix ->
  let g := gas_cost op in
  let step1 := set_used g op in
  let step2 := set_gas_cost (wrap_i64 (start_gas - g)) step1 in
  let step3 := set_used (wrap_i64 (used (trace_ex step2) - gas_cost step2)) step2 in
  exists s',
    VmTraceTracer.on_execution_end result s = Some s'
    /\ get p (VmTraceTracer.vm_trace_ s') = Some (mkVmTrace (code vt) (l ++ [step3]))
    /\ gas_cost step3 = wrap_i64 (start_gas - g)
    /\ used (trace_ex step3) = wrap_i64 (2 * g - start_gas)
    /\ ((0 <= g <= start_gas)%Z -> (start_gas < 2 ^ 63)%Z ->
        gas_cost step3 = (start_gas - g)%Z
        /\ used (trace_ex step3) = (2 * g - start_gas)%Z).
Proof.
  intros Htop Hops Hne Hst Hg Hp g step1 step2 step3.
  destruct (on_execution_end_defined result s p vt start_gas prefix Htop Hg Hp)
    as (s' & Hs' & Hget & _).
  assert (Hu : used (trace_ex step3) = wrap_i64 (2 * g - start_gas)).
  { cbn. rewrite wrap_i64_sub_r. f_equal. lia. }
  exists s'. split; [exact Hs'|]. split; [|split; [reflexivity|split; [exact Hu|]]].
  - rewrite Hget. f_equal.
    unfold VmTraceTracer.close_frame. rewrite Hops, ops_back_1_app.
    assert (Hstop : (op_code op =? Op.STOP)%N && Nat.eqb (length (l ++ [op])) 1 = false).
    { destruct (N.eqb_spec (op_code op) Op.STOP) as [E|]; [|reflexivity].
      destruct l as [|x l]; [tauto|]. rewrite length_app. simpl.
      destruct (length l + 1) eqn:El; [lia | reflexivity]. }
    rewrite Hstop, Hst, set_last_app. unfold set_ops. cbn [code]. do 3 f_equal.
    cbn [VmTraceTracer.finalize_tail]. fold g.
    cbn. rewrite wrap_u64_sub. reflexivity.
  - intros Hr Hs. rewrite Hu. cbn.
    split; apply wrap_i64_id; unfold in_i64; lia.
Qed.

Lemma undefined_instruction_tail_witness :
  let push := mkTraceOp 3 empty_TraceEx "0" 0 Op.PUSH1 "PUSH1" 0 None None None in
  let bad := mkTraceOp 70 empty_TraceEx "1" 0 0x0c "opcode 0xc not defined" 2 None None None in
  let s := {| VmTraceTracer.vm_trace_ := mkVmTrace "0x60000c" [push; bad];
              VmTraceTracer.transaction_index_ := -1;
              VmTraceTracer.opcode_names_ := None;
              VmTraceTracer.traces_stack_ := [Some []];
              VmTraceTracer.start_gas_ := [100%Z];
              VmTraceTracer.index_prefix_ := [""] |} in
  exists s',
    VmTraceTracer.on_execution_end
      {| status_code := EVMC_UNDEFINED_INSTRUCTION; gas_left := 0; output_data := [] |} s
    = Some s'
    /\ (ops <$> get [] (VmTraceTracer.vm_trace_ s'))
       = Some [push; set_used 40 (set_gas_cost 30 bad)].
Proof.
  intros push bad s.
  destruct (undefined_instruction_tail
              {| status_code := EVMC_UNDEFINED_INSTRUCTION; gas_left := 0; output_data := [] |}
              s [] (mkVmTrace "0x60000c" [push; bad]) [push] bad 100%Z "")
    as (s' & Hs' & Hget & _).
  - reflexivity.
  - reflexivity.
  - intros [H _]. discriminate H.
  - reflexivity.
  - reflexivity.
  - reflexivity.
  - exists s'. split; [exact Hs'|]. rewrite Hget. reflexivity.
Defined.

(** ** TraceTracer: entering a frame *)

Lemma new_trace_shape (create : bool) (msg : evmc_message) (code : list Byte.byte) :
  Trace.trace_address (TraceTracer.new_trace create msg code) = []
  /\ Trace.sub_traces (TraceTracer.new_trace create msg code) = 0%N
  /\ Trace.error (TraceTracer.new_trace create msg code) = None
  /\ is_Some (Trace.trace_result (TraceTracer.new_trace create msg code)).
Proof. unfold TraceTracer.new_trace. cbn. repeat split. eexists; reflexivity. Qed.

(** The effect of a nested [on_execution_start] on [traces_]. *)
Lemma on_execution_start_nested (msg : evmc_message) (code : list Byte.byte)
    (s : TraceTracer.t) (ip : nat) (rest : list nat) (parent : Trace.t) :
  (0 < msg_depth msg)%Z ->
  TraceTracer.index_stack_ s = ip :: rest ->
  TraceTracer.traces_ s !! ip = Some parent ->
  exists s',
    TraceTracer.on_execution_start msg code s = Some s'
    /\ TraceTracer.traces_ s'
       = <[ip := Trace.set_sub_traces (Trace.sub_traces parent + 1) parent]>
           (TraceTracer.traces_ s
            ++ [Trace.set_trace_address
                  (Trace.trace_address parent ++ [Trace.sub_traces parent])
                  (TraceTracer.new_trace (TraceTracer.is_create s msg) msg code)])
    /\ TraceTracer.index_stack_ s' = length (TraceTracer.traces_ s) :: TraceTracer.index_stack_ s
    /\ TraceTracer.start_gas_ s' = msg_gas msg :: TraceTracer.start_gas_ s.
Proof.
  intros Hd Hst Hp. unfold TraceTracer.on_execution_start.
  destruct (Z.ltb_spec 0 (msg_depth msg)) as [_|]; [|lia].
  rewrite Hst.
  pose proof (lookup_lt_Some _ _ _ Hp) as Hlt.
  rewrite lookup_app_l by exact Hlt. rewrite Hp. cbn [mbind option_bind].
  rewrite (insert_app_r_alt _ _ (length (TraceTracer.traces_ s))) by lia.
  rewrite Nat.sub_diag. cbn [insert list_insert].
  rewrite lookup_app_l by exact Hlt. rewrite Hp. cbn.
  eexists. split; [reflexivity|]. cbn. repeat split; rewrite ?Hst; reflexivity.
Qed.

Lemma on_execution_start_outer (msg : evmc_message) (code : list Byte.byte) (s : TraceTracer.t) :
  (msg_depth msg <= 0)%Z \/ TraceTracer.index_stack_ s = [] ->
  exists s',
    TraceTracer.on_execution_start msg code s = Some s'
    /\ TraceTracer.traces_ s'
       = TraceTracer.traces_ s ++ [TraceTracer.new_trace (TraceTracer.is_create s msg) msg code]
    /\ TraceTracer.index_stack_ s' = length (TraceTracer.traces_ s) :: TraceTracer.index_stack_ s
    /\ TraceTracer.start_gas_ s' = msg_gas msg :: TraceTracer.start_gas_ s.
Proof.
  intros H. unfold TraceTracer.on_execution_start.
  destruct (Z.ltb_spec 0 (msg_depth msg)) as [Hd|Hd].
  - destruct H as [H|H]; [lia|]. rewrite H. cbn. eexists. split; [reflexivity|].
    cbn. repeat split; rewrite ?H; reflexivity.
  - cbn. eexists. split; [reflexivity|]. cbn. repeat split.
Qed.

(** ** Trace addresses and child counts *)

Lemma is_child_spec (a b : list N) :
  TraceTracer.is_child a b = true <-> exists k, b = a ++ [k].
Proof.
  unfold TraceTracer.is_child. rewrite bool_decide_eq_true. split.
  - intros [Hl Ht].
    rewrite <- (take_drop (length a) b). rewrite Ht.
    destruct (drop (length a) b) as [|k [|k' r]] eqn:E.
    + apply (f_equal length) in E. rewrite length_drop in E. simpl in E. lia.
    + exists k. reflexivity.
    + apply (f_equal length) in E. rewrite length_drop in E. simpl in E. lia.
  - intros [k ->]. rewrite length_app. simpl. split; [lia|].
    now rewrite take_app_length.
Qed.

Lemma is_child_extend (a b : list N) (n : N) :
  TraceTracer.is_child a (b ++ [n]) = bool_decide (a = b).
Proof.
  destruct (TraceTracer.is_child a (b ++ [n])) eqn:E.
  - apply is_child_spec in E. destruct E as [k E].
    apply app_inj_tail in E. destruct E as [-> _]. symmetry. now apply bool_decide_eq_true.
  - symmetry. apply bool_decide_eq_false. intros ->.
    assert (TraceTracer.is_child b (b ++ [n]) = true) by (apply is_child_spec; eauto).
    congruence.
Qed.

Lemma count_children_snoc (addrs : list (list N)) (c a : list N) (i : nat) :
  addrs !! i = Some a ->
  TraceTracer.count_children (addrs ++ [c]) i
  = TraceTracer.count_children addrs i + (if TraceTracer.is_child a c then 1 else 0).
Proof.
  intros H. pose proof (lookup_lt_Some _ _ _ H) as Hlt.
  unfold TraceTracer.count_children.
  rewrite lookup_app_l by exact Hlt. rewrite H.
  rewrite drop_app_le by lia.
  rewrite List.filter_app, length_app. simpl.
  destruct (TraceTracer.is_child a c); reflexivity.
Qed.

Lemma count_children_last (addrs : list (list N)) (c : list N) :
  TraceTracer.count_children (addrs ++ [c]) (length addrs) = 0.
Proof.
  unfold TraceTracer.count_children.
  rewrite lookup_app_r by lia. rewrite Nat.sub_diag. simpl.
  rewrite drop_ge; [reflexivity|]. rewrite length_app. simpl. lia.
Qed.

Section Child.
Variable sh : list (list N * N).
Variable ip : nat.
Variable a : list N.
Variable n : N.
Hypothesis Hinv : TraceTracer.shape_inv sh.
Hypothesis Hip : sh !! ip = Some (a, n).

Local Abbreviation sh' := (<[ip := (a, (n + 1)%N)]> sh ++ [(a ++ [n], 0%N)]).

Lemma child_lookup (i : nat) (x : list N * N) :
  sh' !! i = Some x ->
  (exists x0, sh !! i = Some x0 /\ x0.1 = x.1 /\ (x0.2 <= x.2)%N
              /\ (i = ip -> x.2 = (n + 1)%N) /\ (i <> ip -> x = x0))
  \/ (i = length sh /\ x = (a ++ [n], 0%N)).
Proof.
  intros H.
  destruct (decide (i < length sh)) as [Hlt|Hge].
  - left. rewrite lookup_app_l in H by (rewrite length_insert; exact Hlt).
    destruct (decide (i = ip)) as [->|Hne].
    + rewrite list_lookup_insert_eq in H by exact Hlt. injection H as <-.
      exists (a, n). simpl. repeat split; [exact Hip | lia | congruence].
    + rewrite list_lookup_insert_ne in H by congruence.
      exists x. repeat split; [exact H | lia | congruence].
  - right. rewrite lookup_app_r in H by (rewrite length_insert; lia).
    rewrite length_insert in H.
    destruct (i - length sh) as [|m] eqn:E; simpl in H; [|discriminate].
    split; [lia | congruence].
Qed.

Lemma child_lift (i : nat) (y : list N * N) :
  sh !! i = Some y -> exists y', sh' !! i = Some y' /\ y'.1 = y.1 /\ (y.2 <= y'.2)%N.
Proof.
  intros H. pose proof (lookup_lt_Some _ _ _ H) as Hlt.
  rewrite lookup_app_l by (rewrite length_insert; exact Hlt).
  destruct (decide (i = ip)) as [->|Hne].
  - rewrite list_lookup_insert_eq by exact Hlt.
    rewrite Hip in H. injection H as <-. eexists. split; [reflexivity|]. simpl. split
        ; [reflexivity|lia].
  - rewrite list_lookup_insert_ne by congruence. exists y. split; [exact H|]. split
      ; [reflexivity|lia].
Qed.

Lemma child_fresh (j : nat) (x : list N * N) (rest : list N) :
  sh !! j = Some x -> x.1 <> a ++ n :: rest.
Proof.
  intros H E.
  destruct (TraceTracer.sh_bound _ Hinv j x a n rest H E) as (i & y & Hy & Ha & Hlt).
  assert (i = ip) as -> by (eapply (TraceTracer.sh_addr _ Hinv); eauto).
  rewrite Hip in Hy. injection Hy as <-. simpl in Hlt. lia.
Qed.

Lemma child_fst : map fst sh' = map fst sh ++ [a ++ [n]].
Proof.
  rewrite map_app. simpl. f_equal.
  change (map fst (<[ip:=(a, (n + 1)%N)]> sh)) with (fst <$> <[ip:=(a, (n + 1)%N)]> sh).
  rewrite list_fmap_insert. simpl.
  apply list_insert_id. rewrite list_lookup_fmap, Hip. reflexivity.
Qed.

Lemma shape_inv_child : TraceTracer.shape_inv sh'.
Proof.
  split.
  - intros i j x y Hx Hy E.
    destruct (child_lookup i x Hx) as [(x0 & Hx0 & Ex & _)|[-> ->]];
      destruct (child_lookup j y Hy) as [(y0 & Hy0 & Ey & _)|[-> ->]].
    + eapply (TraceTracer.sh_addr _ Hinv); eauto. congruence.
    + exfalso. apply (child_fresh i x0 [] Hx0). simpl in E. congruence.
    + exfalso. apply (child_fresh j y0 [] Hy0). simpl in E. congruence.
    + reflexivity.
  - intros j x a' k rest Hx E.
    destruct (child_lookup j x Hx) as [(x0 & Hx0 & Ex & _)|[-> ->]].
    + rewrite <- Ex in E.
      destruct (TraceTracer.sh_bound _ Hinv j x0 a' k rest Hx0 E) as (i & y & Hy & Ha & Hlt).
      destruct (child_lift i y Hy) as (y' & Hy' & E1 & E2).
      exists i, y'. split; [exact Hy'|]. split; [congruence|lia].
    + simpl in E.
      destruct rest as [|z r _] using rev_ind.
      * apply app_inj_tail in E. destruct E as [<- <-].
        exists ip, (a, (n + 1)%N). split; [|simpl; split; [reflexivity|lia]].
        rewrite lookup_app_l
          by (rewrite length_insert; eapply lookup_lt_Some; exact Hip).
        apply list_lookup_insert_eq. eapply lookup_lt_Some; exact Hip.
      * rewrite app_comm_cons, app_assoc in E.
        apply app_inj_tail in E. destruct E as [E _].
        destruct (TraceTracer.sh_bound _ Hinv ip (a, n) a' k r Hip E) as (i & y & Hy & Ha & Hlt).
        destruct (child_lift i y Hy) as (y' & Hy' & E1 & E2).
        exists i, y'. split; [exact Hy'|]. split; [congruence|lia].
  - intros i x Hx. rewrite child_fst.
    destruct (child_lookup i x Hx) as [(x0 & Hx0 & Ex & Elt & Hsame & Hother)|[-> ->]].
    + rewrite (count_children_snoc _ _ x0.1)
        by (rewrite list_lookup_fmap, Hx0; reflexivity).
      rewrite is_child_extend.
      pose proof (TraceTracer.sh_count _ Hinv i x0 Hx0) as Hc.
      destruct (decide (i = ip)) as [->|Hne].
      * rewrite Hip in Hx0. injection Hx0 as <-. simpl in *.
        rewrite bool_decide_eq_true_2 by reflexivity.
        rewrite (Hsame eq_refl). lia.
      * rewrite (Hother Hne).
        rewrite bool_decide_eq_false_2; [lia|].
        intros E. apply Hne. eapply (TraceTracer.sh_addr _ Hinv); eauto.
    + rewrite <- (length_map fst sh). rewrite count_children_last. reflexivity.
Qed.
End Child.

Lemma shape_inv_root : TraceTracer.shape_inv [([], 0%N)].
Proof.
  split.
  - intros [|i] [|j] x y Hx Hy _; simpl in *; try discriminate; reflexivity.
  - intros [|j] x a k rest Hx E; simpl in *; [|discriminate].
    injection Hx as <-. simpl in E. destruct a; discriminate.
  - intros [|i] x Hx; simpl in *; [|discriminate]. injection Hx as <-. reflexivity.
Qed.

(** ** TraceTracer: the invariant of a well-nested execution *)

Lemma new_trace_action (create : bool) (msg : evmc_message) (code : list Byte.byte) :
  exists a, Trace.action (TraceTracer.new_trace create msg code) = ActionTrace a
            /\ TraceAction.gas a = msg_gas msg.
Proof.
  unfold TraceTracer.new_trace. cbn. eexists. split; [reflexivity|].
  unfold TraceTracer.fill_action. destruct create; [reflexivity|].
  destruct (msg_kind msg); reflexivity.
Qed.

Lemma open_frame_keep (T T' : list Trace.t) (i : nat) (g : Z) :
  (forall tr, T !! i = Some tr ->
     exists tr', T' !! i = Some tr'
                 /\ Trace.trace_result tr' = Trace.trace_result tr
                 /\ Trace.error tr' = Trace.error tr
                 /\ Trace.action tr' = Trace.action tr) ->
  TraceTracer.open_frame T i g -> TraceTracer.open_frame T' i g.
Proof.
  intros H (tr & a & Hl & Hr & He & Ha & Hg).
  destruct (H tr Hl) as (tr' & Hl' & E1 & E2 & E3).
  exists tr', a. rewrite E1, E2, E3. auto.
Qed.

Lemma map_shape_insert (T : list Trace.t) (i : nat) (tr tr' : Trace.t) :
  T !! i = Some tr -> TraceTracer.shape tr' = TraceTracer.shape tr ->
  map TraceTracer.shape (<[i := tr']> T) = map TraceTracer.shape T.
Proof.
  intros H E.
  change (TraceTracer.shape <$> <[i := tr']> T = TraceTracer.shape <$> T).
  rewrite list_fmap_insert. apply list_insert_id.
  rewrite list_lookup_fmap, H, E. reflexivity.
Qed.

Lemma inv_open_lookup (s : TraceTracer.t) (i : nat) :
  TraceTracer.inv s -> i ∈ TraceTracer.index_stack_ s -> exists g, TraceTracer.open_frame
      (TraceTracer.traces_ s) i g.
Proof.
  intros Hinv Hi. pose proof (TraceTracer.inv_frames _ Hinv) as HF.
  induction HF as [|j g js gs Hj HF IH]; [inversion Hi|].
  apply elem_of_cons in Hi. destruct Hi as [->|Hi]; eauto.
Qed.

Lemma inv_init (ex : address -> bool) : TraceTracer.inv (TraceTracer.make [] ex).
Proof.
  split; simpl.
  - constructor.
  - constructor.
  - congruence.
  - split; intros *; simpl; intros H; discriminate.
Qed.

Lemma inv_start (msg : evmc_message) (code : list Byte.byte) (s s' : TraceTracer.t) :
  TraceTracer.inv s ->
  TraceTracer.admissible (TraceTracer.ExecutionStart msg code) s = true ->
  TraceTracer.on_execution_start msg code s = Some s' ->
  TraceTracer.inv s'.
Proof.
  intros Hinv Hadm Hs. simpl in Hadm.
  apply andb_true_iff in Hadm. destruct Hadm as [Hdepth Hroot].
  apply Z.eqb_eq in Hdepth.
  destruct (TraceTracer.index_stack_ s) as [|ip rest] eqn:Hst.
  - (* the outermost frame *)
    simpl in Hdepth. rewrite Hdepth in Hroot. simpl in Hroot.
    apply Nat.eqb_eq in Hroot. apply length_zero_iff_nil in Hroot.
    destruct (on_execution_start_outer msg code s (or_intror Hst))
      as (s1 & Hs1 & HT & HI & HG).
    rewrite Hs in Hs1. injection Hs1 as <-.
    pose proof (TraceTracer.inv_frames _ Hinv) as HF. rewrite Hst in HF. inversion HF as [E1 E2|].
    rewrite Hroot in HT. simpl in HT.
    destruct (new_trace_shape (TraceTracer.is_create s msg) msg code) as (Ea & Es & Ee & Er).
    destruct (new_trace_action (TraceTracer.is_create s msg) msg code) as (a & Ha & Hg).
    split.
    + rewrite HT, HI, HG, Hst, Hroot, <- E2. simpl. constructor; [|constructor].
      exists (TraceTracer.new_trace (TraceTracer.is_create s msg) msg code), a. simpl. auto.
    + rewrite HI, Hst. apply NoDup_singleton.
    + rewrite HT. discriminate.
    + rewrite HT. simpl. unfold TraceTracer.shape. rewrite Ea, Es. apply shape_inv_root.
  - (* a nested frame *)
    assert (Hd : (0 < msg_depth msg)%Z) by (rewrite Hdepth; simpl; lia).
    assert (Hip : ip ∈ TraceTracer.index_stack_ s) by (rewrite Hst; apply elem_of_cons; left
        ; reflexivity).
    destruct (inv_open_lookup s ip Hinv Hip) as (g0 & parent & a0 & Hp & _).
    destruct (on_execution_start_nested msg code s ip rest parent Hd Hst Hp)
      as (s1 & Hs1 & HT & HI & HG).
    rewrite Hs in Hs1. injection Hs1 as <-.
    pose proof (lookup_lt_Some _ _ _ Hp) as Hlt.
    destruct (new_trace_shape (TraceTracer.is_create s msg) msg code) as (Ea & Es & Ee & Er).
    destruct (new_trace_action (TraceTracer.is_create s msg) msg code) as (a & Ha & Hg).
    set (child := Trace.set_trace_address
                    (Trace.trace_address parent ++ [Trace.sub_traces parent])
                    (TraceTracer.new_trace (TraceTracer.is_create s msg) msg code)) in *.
    set (parent' := Trace.set_sub_traces (Trace.sub_traces parent + 1) parent) in *.
    assert (Hold : forall i g, TraceTracer.open_frame (TraceTracer.traces_ s) i g ->
                               TraceTracer.open_frame (TraceTracer.traces_ s') i g).
    { intros i g. apply open_frame_keep. intros tr Htr.
      pose proof (lookup_lt_Some _ _ _ Htr) as Hi. rewrite HT.
      destruct (decide (i = ip)) as [->|Hne].
      - rewrite list_lookup_insert_eq by (rewrite length_app; simpl; lia).
        exists parent'. rewrite Hp in Htr. injection Htr as <-. auto.
      - rewrite list_lookup_insert_ne by congruence.
        rewrite lookup_app_l by exact Hi. eauto. }
    split.
    + rewrite HI, HG. constructor.
      * exists child, a. rewrite HT.
        rewrite list_lookup_insert_ne by lia.
        rewrite lookup_app_r by lia. rewrite Nat.sub_diag. simpl. auto.
      * eapply Forall2_impl; [apply (TraceTracer.inv_frames _ Hinv)|]. exact Hold.
    + rewrite HI. apply NoDup_cons. split; [|apply (TraceTracer.inv_nodup _ Hinv)].
      intros Hin. destruct (inv_open_lookup s _ Hinv Hin) as (g1 & tr & a1 & Hl & _).
      apply lookup_lt_Some in Hl. lia.
    + rewrite HT. intros _ E. apply (f_equal length) in E.
      rewrite length_insert, length_app in E. simpl in E. lia.
    + rewrite HT.
      change (map TraceTracer.shape
                (<[ip := parent']> (TraceTracer.traces_ s ++ [child])))
        with (TraceTracer.shape <$> <[ip := parent']> (TraceTracer.traces_ s ++ [child])).
      rewrite list_fmap_insert, fmap_app. simpl.
      rewrite insert_app_l by (rewrite length_fmap; exact Hlt).
      unfold child, parent', TraceTracer.shape at 1 3. cbn [Trace.trace_address Trace.sub_traces
        Trace.set_trace_address Trace.set_sub_traces]. rewrite Es.
      apply (shape_inv_child (TraceTracer.shape <$> TraceTracer.traces_ s) ip
               (Trace.trace_address parent) (Trace.sub_traces parent)).
      * apply (TraceTracer.inv_shape _ Hinv).
      * rewrite list_lookup_fmap, Hp. reflexivity.
Qed.

Lemma end_status_spec (status : evmc_status_code) (start_gas gas_left : Z) (trace : Trace.t)
    (r : TraceResult.t) :
  Trace.trace_result trace = Some r ->
  Trace.error trace = None ->
  exists trace',
    TraceTracer.end_status status start_gas gas_left trace = Some trace'
    /\ TraceTracer.shape trace' = TraceTracer.shape trace
    /\ Trace.action trace' = Trace.action trace
    /\ Trace.error trace' = TraceTracer.spec_error status
    /\ (status = EVMC_SUCCESS ->
        Trace.trace_result trace'
        = Some (TraceTracer.set_gas_used (wrap_i64 (start_gas - gas_left)) r))
    /\ (status <> EVMC_SUCCESS -> Trace.trace_result trace' = None).
Proof.
  intros Hr He.
  destruct status; cbn; rewrite ?Hr; cbn;
    (eexists; split; [reflexivity|]; cbn; rewrite ?He;
     repeat split; try reflexivity; try congruence).
Qed.

Lemma on_execution_end_open (result : evmc_result) (s : TraceTracer.t) (index : nat) (g : Z)
    (rest : list nat) (gs : list Z) :
  TraceTracer.index_stack_ s = index :: rest ->
  TraceTracer.start_gas_ s = g :: gs ->
  TraceTracer.open_frame (TraceTracer.traces_ s) index g ->
  exists s' trace trace' r,
    TraceTracer.traces_ s !! index = Some trace
    /\ TraceTracer.on_execution_end result s = Some s'
    /\ TraceTracer.traces_ s' = <[index := trace']> (TraceTracer.traces_ s)
    /\ TraceTracer.index_stack_ s' = rest
    /\ TraceTracer.start_gas_ s' = gs
    /\ TraceTracer.shape trace' = TraceTracer.shape trace
    /\ Trace.action trace' = Trace.action trace
    /\ Trace.error trace' = TraceTracer.spec_error (status_code result)
    /\ (status_code result = EVMC_SUCCESS ->
        Trace.trace_result trace' = Some r
        /\ TraceResult.gas_used r = wrap_i64 (g - gas_left result))
    /\ (status_code result <> EVMC_SUCCESS -> Trace.trace_result trace' = None).
Proof.
  intros Hi Hg (trace & a & Hl & [r Hr] & He & Ha & Hga).
  set (trace1 := if (0 <? TraceTracer.current_depth_ s)%Z
                 then Trace.set_trace_result
                        (Some (TraceTracer.store_output (output_data result) r)) trace
                 else trace).
  assert (exists r1, Trace.trace_result trace1 = Some r1) as [r1 Hr1].
  { unfold trace1. destruct (0 <? TraceTracer.current_depth_ s)%Z; cbn; eauto. }
  assert (He1 : Trace.error trace1 = None).
  { unfold trace1. destruct (0 <? TraceTracer.current_depth_ s)%Z; cbn; exact He. }
  assert (Hs1 : TraceTracer.shape trace1 = TraceTracer.shape trace
                /\ Trace.action trace1 = Trace.action trace).
  { unfold trace1. destruct (0 <? TraceTracer.current_depth_ s)%Z; cbn; auto. }
  destruct (end_status_spec (status_code result) g (gas_left result) trace1 r1 Hr1 He1)
    as (trace' & Ht' & Hsh & Hact & Herr & Hok & Hfail).
  assert (Hend : TraceTracer.on_execution_end result s
                 = Some {| TraceTracer.traces_ := <[index := trace']> (TraceTracer.traces_ s);
                           TraceTracer.initial_ibs_exists := TraceTracer.initial_ibs_exists s;
                           TraceTracer.initial_gas_ := TraceTracer.initial_gas_ s;
                           TraceTracer.current_depth_ := wrap_i32
                               (TraceTracer.current_depth_ s - 1);
                           TraceTracer.created_address_ := TraceTracer.created_address_ s;
                           TraceTracer.index_stack_ := rest;
                           TraceTracer.start_gas_ := gs |}).
  { unfold TraceTracer.on_execution_end. rewrite Hi, Hg. cbn [head mbind option_bind].
    rewrite Hl. cbn [mbind option_bind]. rewrite Hr.
    fold trace1.
    replace (if (0 <? TraceTracer.current_depth_ s)%Z
             then Some r ≫= (fun r0 => Some (Trace.set_trace_result
                                 (Some (TraceTracer.store_output (output_data result) r0)) trace))
             else Some trace) with (Some trace1)
      by (unfold trace1; destruct (0 <? TraceTracer.current_depth_ s)%Z; reflexivity).
    cbn [mbind option_bind]. rewrite Ht'. reflexivity. }
  eexists. exists trace, trace', (TraceTracer.set_gas_used (wrap_i64 (g - gas_left result)) r1).
  split; [exact Hl|]. split; [exact Hend|]. cbn.
  destruct Hs1 as [Hs1 Hs2].
  repeat split; try congruence; try exact Hfail.
  rewrite Hok; auto.
Qed.

Lemma inv_end (result : evmc_result) (s s' : TraceTracer.t) :
  TraceTracer.inv s ->
  TraceTracer.admissible (TraceTracer.ExecutionEnd result) s = true ->
  TraceTracer.on_execution_end result s = Some s' ->
  TraceTracer.inv s'.
Proof.
  intros Hinv Hadm Hs. simpl in Hadm.
  pose proof (TraceTracer.inv_frames _ Hinv) as HF.
  destruct (TraceTracer.index_stack_ s) as [|index rest] eqn:Hi; [discriminate|].
  inversion HF as [|i0 g is0 gs Hopen HF' E1 E2]. subst i0 is0.
  symmetry in E2.
  destruct (on_execution_end_open result s index g rest gs Hi E2 Hopen)
    as (s1 & trace & trace' & r & Hl & Hs1 & HT & HI & HG & Hsh & _).
  rewrite Hs in Hs1. injection Hs1 as <-.
  pose proof (TraceTracer.inv_nodup _ Hinv) as Hnd. rewrite Hi in Hnd.
  apply NoDup_cons in Hnd. destruct Hnd as [Hnotin Hnd].
  split.
  - rewrite HI, HG, HT.
    apply Forall2_same_length_lookup_2; [eapply Forall2_length; exact HF'|].
    intros k i gi Hk1 Hk2.
    pose proof (Forall2_lookup_lr _ _ _ _ _ _ HF' Hk1 Hk2) as Ho.
    revert Ho. apply open_frame_keep. intros tr Htr.
    assert (i <> index).
    { intros ->. apply Hnotin. eapply list_elem_of_lookup_2. exact Hk1. }
    rewrite list_lookup_insert_ne by congruence. eauto.
  - rewrite HI. exact Hnd.
  - rewrite HT. intros _ E. apply (f_equal length) in E. rewrite length_insert in E.
    apply lookup_lt_Some in Hl. simpl in E. lia.
  - rewrite HT, (map_shape_insert _ _ trace) by assumption. apply (TraceTracer.inv_shape _ Hinv).
Qed.

Lemma reward_status_shape (result : CallResult) (g : Z) (trace trace' : Trace.t) :
  TraceTracer.reward_status result g trace = Some trace' ->
  TraceTracer.shape trace' = TraceTracer.shape trace.
Proof.
  unfold TraceTracer.reward_status.
  destruct (cr_status result); cbn;
    try (intros H; injection H as <-; reflexivity).
  destruct (Trace.trace_result trace); cbn; [|discriminate].
  intros H; injection H as <-; reflexivity.
Qed.

Lemma inv_reward (result : CallResult) (s s' : TraceTracer.t) :
  TraceTracer.inv s ->
  TraceTracer.admissible (TraceTracer.RewardGranted result) s = true ->
  TraceTracer.on_reward_granted result s = Some s' ->
  TraceTracer.inv s'.
Proof.
  intros Hinv Hadm Hs. simpl in Hadm. apply Nat.eqb_eq in Hadm.
  apply length_zero_iff_nil in Hadm.
  unfold TraceTracer.on_reward_granted in Hs.
  destruct (TraceTracer.traces_ s) as [|trace rest] eqn:HT.
  - injection Hs as <-. exact Hinv.
  - destruct (TraceTracer.reward_status result (TraceTracer.initial_gas_ s) trace)
      as [trace'|] eqn:Hr;
      cbn in Hs; [|discriminate].
    injection Hs as <-.
    pose proof (TraceTracer.inv_frames _ Hinv) as HF. rewrite Hadm in HF.
    apply Forall2_nil_inv_l in HF.
    split; cbn.
    + rewrite Hadm, HF. constructor.
    + rewrite Hadm. constructor.
    + discriminate.
    + rewrite (reward_status_shape _ _ _ _ Hr).
      pose proof (TraceTracer.inv_shape _ Hinv) as Hsh. rewrite HT in Hsh. exact Hsh.
Qed.

Lemma inv_step (e : TraceTracer.event) (s s' : TraceTracer.t) :
  TraceTracer.inv s ->
  TraceTracer.admissible e s = true ->
  TraceTracer.step e s = Some s' ->
  TraceTracer.inv s'.
Proof.
  destruct e as [msg code| |result|result]; intros Hinv Hadm Hs.
  - eapply inv_start; eauto.
  - injection Hs as <-. exact Hinv.
  - eapply inv_end; eauto.
  - eapply inv_reward; eauto.
Qed.

Lemma inv_run (es : list TraceTracer.event) :
  forall s s',
    TraceTracer.inv s ->
    TraceTracer.well_nested es s = true ->
    TraceTracer.run es s = Some s' ->
    TraceTracer.inv s'.
Proof.
  induction es as [|e es IH]; intros s s' Hinv Hwn Hrun; simpl in *.
  - injection Hrun as <-. exact Hinv.
  - apply andb_true_iff in Hwn. destruct Hwn as [Hadm Hwn].
    destruct (TraceTracer.step e s) as [s1|] eqn:Hs; [|discriminate].
    simpl in Hrun. eapply IH; [|exact Hwn|exact Hrun]. eapply inv_step; eauto.
Qed.

(** ** TraceTracer: actions, trace addresses and the status table *)

Lemma new_trace_lookup (msg : evmc_message) (code : list Byte.byte) (s : TraceTracer.t) :
  (forall i, head (TraceTracer.index_stack_ s) = Some i -> i < length (TraceTracer.traces_ s)) ->
  exists s' trace,
    TraceTracer.on_execution_start msg code s = Some s'
    /\ TraceTracer.traces_ s' !! length (TraceTracer.traces_ s) = Some trace
    /\ Trace.action trace = Trace.action (TraceTracer.new_trace
        (TraceTracer.is_create s msg) msg code)
    /\ Trace.type trace = Trace.type (TraceTracer.new_trace (TraceTracer.is_create s msg) msg code)
    /\ Trace.trace_result trace
       = Trace.trace_result (TraceTracer.new_trace (TraceTracer.is_create s msg) msg code).
Proof.
  intros Hvalid.
  destruct (Z.ltb_spec 0 (msg_depth msg)) as [Hd|Hd];
    [destruct (TraceTracer.index_stack_ s) as [|ip rest] eqn:Hst|].
  - destruct (on_execution_start_outer msg code s (or_intror Hst)) as (s' & Hs & HT & _).
    exists s'. eexists. split; [exact Hs|]. rewrite HT.
    rewrite lookup_app_r by lia. rewrite Nat.sub_diag. simpl. auto.
  - assert (Hlt : ip < length (TraceTracer.traces_ s)) by (apply Hvalid; reflexivity).
    destruct (lookup_lt_is_Some_2 _ _ Hlt) as [parent Hp].
    destruct (on_execution_start_nested msg code s ip rest parent Hd Hst Hp)
      as (s' & Hs & HT & _).
    exists s'. eexists. split; [exact Hs|]. rewrite HT.
    rewrite list_lookup_insert_ne by lia.
    rewrite lookup_app_r by lia. rewrite Nat.sub_diag. simpl. auto.
  - destruct (on_execution_start_outer msg code s (or_introl Hd)) as (s' & Hs & HT & _).
    exists s'. eexists. split; [exact Hs|]. rewrite HT.
    rewrite lookup_app_r by lia. rewrite Nat.sub_diag. simpl. auto.
Qed.

(** C10. A frame that is not classified as a creation and is entered with
    kind [DELEGATECALL] gets the action [call_type = "delegatecall"],
    [to = code_address] and [from = recipient]. *)
Theorem delegatecall_action (msg : evmc_message) (code : list Byte.byte) (s : TraceTracer.t) :
  TraceTracer.is_create s msg = false ->
  msg_kind msg = EVMC_DELEGATECALL ->
  (forall i, head (TraceTracer.index_stack_ s) = Some i -> i < length (TraceTracer.traces_ s)) ->
  exists s' trace a,
    TraceTracer.on_execution_start msg code s = Some s'
    /\ TraceTracer.traces_ s' !! length (TraceTracer.traces_ s) = Some trace
    /\ Trace.type trace = "call"
    /\ Trace.action trace = ActionTrace a
    /\ TraceAction.call_type a = Some "delegatecall"
    /\ TraceAction.to a = Some (msg_code_address msg)
    /\ TraceAction.from a = msg_recipient msg.
Proof.
  intros Hc Hk Hvalid.
  destruct (new_trace_lookup msg code s Hvalid) as (s' & trace & Hs & Hl & Ha & Ht & _).
  exists s', trace. eexists. split; [exact Hs|]. split; [exact Hl|].
  rewrite Ht, Ha, Hc. unfold TraceTracer.new_trace, TraceTracer.fill_action. rewrite Hk. cbn.
  repeat split.
Qed.

Lemma delegatecall_action_witness :
  let msg := {| msg_kind := EVMC_DELEGATECALL; msg_flags := 0; msg_depth := 0;
                msg_gas := 50000; msg_recipient := 0xaa%N; msg_sender := 0xbb%N;
                msg_input_data := []; msg_value := 0; msg_code_address := 0xcc%N |} in
  exists s' trace a,
    TraceTracer.on_execution_start msg [] (TraceTracer.make [] (fun _ => true)) = Some s'
    /\ TraceTracer.traces_ s' !! 0 = Some trace
    /\ Trace.type trace = "call"
    /\ Trace.action trace = ActionTrace a
    /\ TraceAction.call_type a = Some "delegatecall"
    /\ TraceAction.to a = Some 0xcc%N
    /\ TraceAction.from a = 0xaa%N.
Proof.
  intros msg.
  apply (delegatecall_action msg [] (TraceTracer.make [] (fun _ => true))).
  - reflexivity.
  - reflexivity.
  - intros i H. discriminate H.
Defined.

Lemma filter_map_length {A B : Type} (f : B -> bool) (g : A -> B) (l : list A) :
  length (List.filter f (map g l)) = length (List.filter (fun x => f (g x)) l).
Proof.
  induction l as [|x l IH]; simpl; [reflexivity|].
  destruct (f (g x)); simpl; now rewrite IH.
Qed.

Lemma children_after_filter (T : list Trace.t) (i : nat) (tr : Trace.t) :
  T !! i = Some tr ->
  TraceTracer.children_after T i
  = length (List.filter
              (fun x => TraceTracer.is_child (Trace.trace_address tr) (Trace.trace_address x))
              (drop (S i) T)).
Proof.
  intros H. unfold TraceTracer.children_after, TraceTracer.count_children.
  change (map Trace.trace_address T) with (Trace.trace_address <$> T).
  rewrite list_lookup_fmap, H. simpl.
  rewrite <- fmap_drop. apply filter_map_length.
Qed.

(** C7. At an execution start of depth above zero with an open parent
    frame, the new frame's trace address is the parent's extended by the
    parent's current [sub_traces], which is then raised by one; and in the
    flat list of a well-nested execution, every trace's [sub_traces] is the
    number of later traces whose address is its own extended by one
    element. *)
Theorem trace_address_bookkeeping :
  (forall (msg : evmc_message) (code : list Byte.byte) (s : TraceTracer.t)
          (ip : nat) (rest : list nat) (parent : Trace.t),
      (0 < msg_depth msg)%Z ->
      TraceTracer.index_stack_ s = ip :: rest ->
      TraceTracer.traces_ s !! ip = Some parent ->
      exists s' child parent',
        TraceTracer.on_execution_start msg code s = Some s'
        /\ TraceTracer.traces_ s' !! length (TraceTracer.traces_ s) = Some child
        /\ Trace.trace_address child
           = Trace.trace_address parent ++ [Trace.sub_traces parent]
        /\ TraceTracer.traces_ s' !! ip = Some parent'
        /\ Trace.sub_traces parent' = (Trace.sub_traces parent + 1)%N
        /\ Trace.trace_address parent' = Trace.trace_address parent)
  /\ (forall (es : list TraceTracer.event) (ex : address -> bool) (s : TraceTracer.t) (i : nat)
      (tr : Trace.t),
        TraceTracer.well_nested es (TraceTracer.make [] ex) = true ->
        TraceTracer.run es (TraceTracer.make [] ex) = Some s ->
        TraceTracer.traces_ s !! i = Some tr ->
        Trace.sub_traces tr
        = N.of_nat (length (List.filter
                              (fun x => TraceTracer.is_child (Trace.trace_address tr)
                                          (Trace.trace_address x))
                              (drop (S i) (TraceTracer.traces_ s)))))
  /\ (forall a b : list N, TraceTracer.is_child a b = true <-> exists k, b = a ++ [k]).
Proof.
  split; [|split].
  - intros msg code s ip rest parent Hd Hst Hp.
    destruct (on_execution_start_nested msg code s ip rest parent Hd Hst Hp)
      as (s' & Hs & HT & _).
    pose proof (lookup_lt_Some _ _ _ Hp) as Hlt.
    exists s'. eexists. eexists. split; [exact Hs|]. rewrite HT.
    rewrite list_lookup_insert_ne by lia.
    rewrite lookup_app_r by lia. rewrite Nat.sub_diag.
    rewrite list_lookup_insert_eq by (rewrite length_app; simpl; lia).
    simpl. repeat split.
  - intros es ex s i tr Hwn Hrun Hl.
    pose proof (inv_run es _ _ (inv_init ex) Hwn Hrun) as Hinv.
    rewrite <- children_after_filter by exact Hl.
    pose proof (TraceTracer.sh_count _ (TraceTracer.inv_shape _ Hinv) i (TraceTracer.shape tr))
        as Hc.
    rewrite map_map in Hc. apply Hc.
    change (map TraceTracer.shape (TraceTracer.traces_ s))
        with (TraceTracer.shape <$> TraceTracer.traces_ s).
    rewrite list_lookup_fmap, Hl. reflexivity.
  - exact is_child_spec.
Qed.

(** C6. For the open frame of any well-nested execution, [on_execution_end]
    sets the error by the table of the specification, keeps the result with
    [gas_used = start_gas - gas_left] and no error on [SUCCESS], and drops
    the result on every other status. *)
Theorem on_execution_end_status_table
    (es : list TraceTracer.event) (ex : address -> bool) (s : TraceTracer.t) (result
        : evmc_result) :
  TraceTracer.well_nested es (TraceTracer.make [] ex) = true ->
  TraceTracer.run es (TraceTracer.make [] ex) = Some s ->
  TraceTracer.index_stack_ s <> [] ->
  exists index start_gas trace s' trace',
    head (TraceTracer.index_stack_ s) = Some index
    /\ head (TraceTracer.start_gas_ s) = Some start_gas
    /\ TraceTracer.traces_ s !! index = Some trace
    /\ (exists a, Trace.action trace = ActionTrace a /\ TraceAction.gas a = start_gas)
    /\ TraceTracer.on_execution_end result s = Some s'
    /\ TraceTracer.traces_ s' !! index = Some trace'
    /\ Trace.error trace' = TraceTracer.spec_error (status_code result)
    /\ (status_code result = EVMC_SUCCESS ->
        exists r, Trace.trace_result trace' = Some r
                  /\ TraceResult.gas_used r = wrap_i64 (start_gas - gas_left result))
    /\ (status_code result <> EVMC_SUCCESS -> Trace.trace_result trace' = None).
Proof.
  intros Hwn Hrun Hne.
  pose proof (inv_run es _ _ (inv_init ex) Hwn Hrun) as Hinv.
  pose proof (TraceTracer.inv_frames _ Hinv) as HF.
  destruct (TraceTracer.index_stack_ s) as [|index rest] eqn:Hi; [congruence|].
  inversion HF as [|i0 g is0 gs Hopen HF' E1 E2]. subst i0 is0. symmetry in E2.
  destruct (on_execution_end_open result s index g rest gs Hi E2 Hopen)
    as (s' & trace & trace' & r & Hl & Hs & HT & _ & _ & _ & _ & Herr & Hok & Hfail).
  exists index, g, trace, s', trace'.
  split; [reflexivity|]. split; [reflexivity|]. split; [exact Hl|].
  split.
  { destruct Hopen as (tr & a & Hl' & _ & _ & Ha & Hg).
    rewrite Hl in Hl'. injection Hl' as <-. eauto. }
  split; [exact Hs|]. split.
  { rewrite HT. apply list_lookup_insert_eq. eapply lookup_lt_Some; exact Hl. }
  split; [exact Herr|]. split; [|exact Hfail].
  intros E. exists r. apply Hok. exact E.
Qed.

Lemma on_execution_end_status_table_witness :
  let msg := {| msg_kind := EVMC_CALL; msg_flags := 0; msg_depth := 0;
                msg_gas := 50000; msg_recipient := 0xaa%N; msg_sender := 0xbb%N;
                msg_input_data := []; msg_value := 0; msg_code_address := 0xaa%N |} in
  let result := {| status_code := EVMC_OUT_OF_GAS; gas_left := 0; output_data := [] |} in
  exists s,
    TraceTracer.run [TraceTracer.ExecutionStart msg []] (TraceTracer.make [] (fun _ => true))
        = Some s
    /\ exists index start_gas trace s' trace',
      head (TraceTracer.index_stack_ s) = Some index
      /\ head (TraceTracer.start_gas_ s) = Some start_gas
      /\ TraceTracer.traces_ s !! index = Some trace
      /\ (exists a, Trace.action trace = ActionTrace a /\ TraceAction.gas a = start_gas)
      /\ TraceTracer.on_execution_end result s = Some s'
      /\ TraceTracer.traces_ s' !! index = Some trace'
      /\ Trace.error trace' = TraceTracer.spec_error (status_code result)
      /\ (status_code result = EVMC_SUCCESS ->
          exists r, Trace.trace_result trace' = Some r
                    /\ TraceResult.gas_used r = wrap_i64 (start_gas - gas_left result))
      /\ (status_code result <> EVMC_SUCCESS -> Trace.trace_result trace' = None).
Proof.
  intros msg result. eexists. split; [vm_compute; reflexivity|].
  apply (on_execution_end_status_table [TraceTracer.ExecutionStart msg []]
      (fun _ => true) _ result).
  - vm_compute. reflexivity.
  - vm_compute. reflexivity.
  - discriminate.
Defined.

Lemma trace_address_bookkeeping_witness :
  let outer := {| msg_kind := EVMC_CALL; msg_flags := 0; msg_depth := 0;
                  msg_gas := 50000; msg_recipient := 0xaa%N; msg_sender := 0xbb%N;
                  msg_input_data := []; msg_value := 0; msg_code_address := 0xaa%N |} in
  let inner := {| msg_kind := EVMC_CALL; msg_flags := 0; msg_depth := 1;
                  msg_gas := 30000; msg_recipient := 0xcc%N; msg_sender := 0xaa%N;
                  msg_input_data := []; msg_value := 0; msg_code_address := 0xcc%N |} in
  let ok := {| status_code := EVMC_SUCCESS; gas_left := 10; output_data := [] |} in
  let es := [TraceTracer.ExecutionStart outer []; TraceTracer.ExecutionStart inner []
      ; TraceTracer.ExecutionEnd ok;
             TraceTracer.ExecutionStart inner []; TraceTracer.ExecutionEnd ok
                 ; TraceTracer.ExecutionEnd ok] in
  exists s tr,
    TraceTracer.run es (TraceTracer.make [] (fun _ => true)) = Some s
    /\ TraceTracer.traces_ s !! 0 = Some tr
    /\ Trace.sub_traces tr = 2%N
    /\ Trace.sub_traces tr
       = N.of_nat (length (List.filter
                             (fun x => TraceTracer.is_child (Trace.trace_address tr)
                                         (Trace.trace_address x))
                             (drop 1 (TraceTracer.traces_ s)))).
Proof.
  intros outer inner ok es. eexists. eexists.
  split; [vm_compute; reflexivity|]. split; [vm_compute; reflexivity|].
  split; [reflexivity|].
  apply (proj1 (proj2 trace_address_bookkeeping) es (fun _ => true)).
  - vm_compute. reflexivity.
  - vm_compute. reflexivity.
  - vm_compute. reflexivity.
Defined.

(** ** The trace tree: paths *)

Lemma below_length (p : path) : forall q, below p q = true -> length p <= length q.
Proof.
  induction p as [|i p IH]; intros [|j q] H; simpl in *; try lia; try discriminate.
  apply andb_true_iff in H. destruct H as [_ H]. apply IH in H. lia.
Qed.

Lemma below_app (p x : path) : below p (p ++ x) = true.
Proof. induction p as [|i p IH]; simpl; [reflexivity|]. now rewrite Nat.eqb_refl, IH. Qed.

Lemma below_app_r (q : path) : forall p x, below q p = true -> below q (p ++ x) = true.
Proof.
  induction q as [|i q IH]; intros [|j p] x H; simpl in *; try reflexivity; try discriminate.
  apply andb_true_iff in H. destruct H as [H1 H2]. rewrite H1. simpl. now apply IH.
Qed.

Lemma below_longer (p q : path) : length q < length p -> below p q = false.
Proof.
  intros H. destruct (below p q) eqn:E; [|reflexivity].
  apply below_length in E. lia.
Qed.

Lemma get_app (p q : path) : forall t, get (p ++ q) t = get p t ≫= get q.
Proof.
  induction p as [|i p IH]; intros t; simpl; [reflexivity|].
  destruct (ops t !! i) as [op|]; simpl; [|reflexivity].
  destruct (sub op) as [s|]; simpl; [|reflexivity]. apply IH.
Qed.

(** Writing below a node keeps the number of its ops. *)
Lemma get_upd_above (f : VmTrace -> VmTrace) (q : path) :
  forall (p : path) (t vq : VmTrace),
    below q p = true -> length q < length p ->
    get q t = Some vq ->
    exists vq', get q (upd p f t) = Some vq' /\ length (ops vq') = length (ops vq).
Proof.
  induction q as [|j q IH]; intros [|i p] t vq Hb Hl Hg; simpl in Hl; try lia.
  - simpl in Hg. injection Hg as <-. simpl.
    destruct (ops t !! i) as [op|]; [|eauto].
    destruct (sub op) as [s|]; [|eauto].
    eexists. split; [reflexivity|]. simpl. apply length_insert.
  - simpl in Hb. apply andb_true_iff in Hb. destruct Hb as [Hij Hb].
    apply Nat.eqb_eq in Hij. subst j.
    simpl in Hg. destruct (ops t !! i) as [op|] eqn:Hop; simpl in Hg; [|discriminate].
    destruct (sub op) as [s|] eqn:Hs; simpl in Hg; [|discriminate].
    destruct (IH p s vq Hb ltac:(lia) Hg) as (vq' & Hg' & Hlen).
    exists vq'. split; [|exact Hlen].
    simpl. rewrite Hop, Hs. simpl.
    rewrite list_lookup_insert_eq by (eapply lookup_lt_Some; exact Hop).
    simpl. exact Hg'.
Qed.

Lemma invalidate_id (x : path) (st : list frame_ref) :
  (forall r, r ∈ st -> exists q, r = Some q /\ below x q = false) ->
  invalidate x st = st.
Proof.
  induction st as [|r st IH]; intros H; simpl; [reflexivity|].
  destruct (H r) as (q & -> & Hq); [apply elem_of_cons; auto|].
  rewrite Hq. f_equal. apply IH. intros r Hr. apply H. apply elem_of_cons. auto.
Qed.

Lemma invalidate_length (x : path) (st : list frame_ref) :
  length (invalidate x st) = length st.
Proof. unfold invalidate. apply length_map. Qed.

Lemma invalidate_head_None (x : path) (st : list frame_ref) :
  head st = Some None -> head (invalidate x st) = Some None.
Proof. destruct st as [|[q|] st]; simpl; intros H; try discriminate; reflexivity. Qed.

Lemma ops_back_length (k : nat) (l : list TraceOp) :
  0 < k -> (is_Some (ops_back k l) <-> k <= length l).
Proof.
  intros Hk. unfold ops_back. destruct (decide (k <= length l)) as [H|H].
  - split; [auto|]. intros _. apply lookup_lt_is_Some_2. lia.
  - split; [intros [x Hx]; discriminate|]. intros; lia.
Qed.

(** What a nested [on_execution_start] needs of the parent trace, and
    what it leaves. *)
Lemma enter_sub_spec (msg : evmc_message) (c : string) (vt vt' : VmTrace) :
  VmTraceTracer.enter_sub msg c vt = Some vt' ->
  length (ops vt') = length (ops vt)
  /\ 0 < length (ops vt)
  /\ get [length (ops vt) - 1] vt' = Some (mkVmTrace c [])
  /\ (forall op, ops_back 1 (ops vt) = Some op ->
                 VmTraceTracer.is_call_op (op_code op) = true -> 2 <= length (ops vt)).
Proof.
  unfold VmTraceTracer.enter_sub. intros H.
  destruct (ops_back 1 (ops vt)) as [op|] eqn:Hop; simpl in H; [|discriminate].
  assert (Hlen : 1 <= length (ops vt)).
  { apply (ops_back_length 1); [lia|]. rewrite Hop. eauto. }
  destruct (VmTraceTracer.is_call_op (op_code op)) eqn:Hcall.
  - destruct (ops_back 2 (ops vt)) as [op_1|] eqn:Hop1; simpl in H; [|discriminate].
    assert (Hlen2 : 2 <= length (ops vt)).
    { apply (ops_back_length 2); [lia|]. rewrite Hop1. eauto. }
    injection H as <-. simpl. unfold set_last. rewrite length_insert.
    repeat split; try lia.
    + rewrite list_lookup_insert_eq by lia. reflexivity.
  - simpl in H. injection H as <-. simpl. unfold set_last. rewrite length_insert.
    repeat split; try lia.
    + rewrite list_lookup_insert_eq by lia. reflexivity.
    + intros op0 E Hc. injection E as <-. congruence.
Qed.

(** The read of [ops[size - 2]] is in bounds exactly when the parent holds
    two ops. *)
Lemma enter_sub_defined (msg : evmc_message) (c : string) (vt : VmTrace) (op : TraceOp) :
  ops_back 1 (ops vt) = Some op ->
  VmTraceTracer.is_call_op (op_code op) = true ->
  (is_Some (VmTraceTracer.enter_sub msg c vt) <-> 2 <= length (ops vt)).
Proof.
  intros Hop Hcall. unfold VmTraceTracer.enter_sub. rewrite Hop. simpl. rewrite Hcall.
  rewrite <- (ops_back_length 2) by lia.
  destruct (ops_back 2 (ops vt)) as [op_1|]; simpl; split; eauto;
    intros [x Hx]; discriminate.
Qed.

(** ** VmTraceTracer: what a callback leaves *)

Section Callbacks.
Context {evmc_revision : Type}.
Variable names : evmc_revision -> N -> option string.

Lemma top_trace_inv (s : VmTraceTracer.t) (p : path) (vt : VmTrace) :
  VmTraceTracer.top_trace s = Some (p, vt) ->
  exists st0,
    VmTraceTracer.traces_stack_ s = Some p :: st0
    /\ get p (VmTraceTracer.vm_trace_ s) = Some vt.
Proof.
  unfold VmTraceTracer.top_trace. intros H.
  destruct (VmTraceTracer.traces_stack_ s) as [|[q|] st0]; simpl in H; try discriminate.
  destruct (get q (VmTraceTracer.vm_trace_ s)) as [v|] eqn:E; simpl in H; [|discriminate].
  injection H as -> ->. eauto.
Qed.

Lemma on_execution_start_outer_inv (rev : evmc_revision) (msg : evmc_message)
    (code : list Byte.byte) (s s' : VmTraceTracer.t) :
  msg_depth msg = 0%Z ->
  VmTraceTracer.on_execution_start names rev msg code s = Some s' ->
  VmTraceTracer.vm_trace_ s' = set_code ("0x" +:+ to_hex code) (VmTraceTracer.vm_trace_ s)
  /\ VmTraceTracer.traces_stack_ s' = Some [] :: VmTraceTracer.traces_stack_ s.
Proof.
  intros Hd. unfold VmTraceTracer.on_execution_start. rewrite Hd. cbn.
  intros H. injection H as <-. split; reflexivity.
Qed.

Lemma on_execution_start_nested_inv (rev : evmc_revision) (msg : evmc_message)
    (code : list Byte.byte) (s s' : VmTraceTracer.t) :
  msg_depth msg <> 0%Z ->
  0 < length (ops (VmTraceTracer.vm_trace_ s)) ->
  VmTraceTracer.on_execution_start names rev msg code s = Some s' ->
  exists p vt vt',
    VmTraceTracer.top_trace s = Some (p, vt)
    /\ VmTraceTracer.enter_sub msg ("0x" +:+ to_hex code) vt = Some vt'
    /\ VmTraceTracer.vm_trace_ s' = upd p (fun _ => vt') (VmTraceTracer.vm_trace_ s)
    /\ VmTraceTracer.traces_stack_ s'
       = Some (p ++ [length (ops vt) - 1])
         :: invalidate (p ++ [length (ops vt) - 1]) (VmTraceTracer.traces_stack_ s).
Proof.
  intros Hd Hroot. unfold VmTraceTracer.on_execution_start.
  destruct (Z.eqb_spec (msg_depth msg) 0) as [E|_]; [congruence|].
  destruct (decide (0 < length (ops (VmTraceTracer.vm_trace_ s)))) as [_|n]; [|lia].
  destruct (VmTraceTracer.top_trace s) as [[p vt]|] eqn:Htop; cbn; [|discriminate].
  destruct (head (VmTraceTracer.index_prefix_ s)) as [prefix|]; cbn; [|discriminate].
  destruct (VmTraceTracer.enter_sub msg ("0x" +:+ to_hex code) vt) as [vt'|] eqn:He; cbn;
    [|discriminate].
  intros H. injection H as <-. exists p, vt, vt'. repeat split. exact He.
Qed.

Lemma on_instruction_start_inv (pc : N) (stack_top : list N) (stack_height : Z)
    (es : ExecutionState) (s s' : VmTraceTracer.t) :
  VmTraceTracer.on_instruction_start pc stack_top stack_height es s = Some s' ->
  exists p vt ops1 trace_op,
    VmTraceTracer.top_trace s = Some (p, vt)
    /\ length ops1 = length (ops vt)
    /\ VmTraceTracer.vm_trace_ s' = upd p (fun _ => set_ops (ops1 ++ [trace_op]) vt)
        (VmTraceTracer.vm_trace_ s)
    /\ VmTraceTracer.traces_stack_ s' = VmTraceTracer.traces_stack_ s.
Proof.
  unfold VmTraceTracer.on_instruction_start. intros H.
  destruct (es_code es !! N.to_nat pc) as [b|]; cbn in H; [|discriminate].
  destruct (VmTraceTracer.opcode_names_ s) as [nm|]; cbn in H; [|discriminate].
  destruct (VmTraceTracer.top_trace s) as [[p vt]|] eqn:Htop; cbn in H; [|discriminate].
  destruct (ops_back 1 (ops vt)) as [op|] eqn:Hop.
  - destruct (VmTraceTracer.finalize_previous stack_top es op) as [op'|]; cbn in H; [|discriminate].
    destruct (head (VmTraceTracer.index_prefix_ s)) as [prefix|]; cbn in H; [|discriminate].
    destruct (copy_memory_offset_len _ stack_top None) as [m|]; cbn in H; [|discriminate].
    destruct (copy_store _ stack_top None) as [sto|]; cbn in H; [|discriminate].
    injection H as <-. exists p, vt, (set_last op' (ops vt)). eexists.
    split; [reflexivity|]. split; [apply length_insert|]. split; reflexivity.
  - cbn in H.
    destruct (head (VmTraceTracer.index_prefix_ s)) as [prefix|]; cbn in H; [|discriminate].
    destruct (copy_memory_offset_len _ stack_top None) as [m|]; cbn in H; [|discriminate].
    destruct (copy_store _ stack_top None) as [sto|]; cbn in H; [|discriminate].
    injection H as <-. exists p, vt, (ops vt). eexists.
    split; [reflexivity|]. split; [reflexivity|]. split; reflexivity.
Qed.

Lemma on_execution_end_inv (result : evmc_result) (s s' : VmTraceTracer.t) :
  VmTraceTracer.on_execution_end result s = Some s' ->
  exists p vt vt',
    VmTraceTracer.top_trace s = Some (p, vt)
    /\ VmTraceTracer.vm_trace_ s' = upd p (fun _ => vt') (VmTraceTracer.vm_trace_ s)
    /\ VmTraceTracer.traces_stack_ s' = tail (VmTraceTracer.traces_stack_ s).
Proof.
  unfold VmTraceTracer.on_execution_end. intros H.
  destruct (VmTraceTracer.top_trace s) as [[p vt]|] eqn:Htop; cbn in H; [|discriminate].
  destruct (head (VmTraceTracer.start_gas_ s)) as [g|]; cbn in H; [|discriminate].
  destruct (head (VmTraceTracer.index_prefix_ s)) as [prefix|]; cbn in H; [|discriminate].
  injection H as <-. exists p, vt. eexists. split; [reflexivity|]. split; reflexivity.
Qed.

(** Frames under the top one are untouched by a write to the top one. *)
Lemma lower_frames_kept (s s' : VmTraceTracer.t) (p : path) (F : VmTrace -> VmTrace)
    (st0 : list frame_ref) (g0 : list VmTraceTracer.frame_info) :
  VmTraceTracer.vm_trace_ s' = upd p F (VmTraceTracer.vm_trace_ s) ->
  (forall q, Some q ∈ st0 -> below q p = true /\ length q < length p) ->
  Forall2 (VmTraceTracer.frame_agrees s) st0 g0 ->
  Forall2 (VmTraceTracer.frame_agrees s') st0 g0.
Proof.
  intros Hvm Hbelow HF. induction HF as [|r f st1 g1 Hr HF IH]; [constructor|].
  constructor.
  - destruct Hr as (q & vq & -> & Hget & Hlen & Hh).
    destruct (Hbelow q) as [Hb Hl]; [apply elem_of_cons; auto|].
    destruct (get_upd_above F q p _ vq Hb Hl Hget) as (vq' & Hget' & Hlen').
    exists q, vq'. rewrite Hvm. repeat split; [exact Hget'|lia|exact Hh].
  - apply IH. intros q Hq. apply Hbelow. apply elem_of_cons. auto.
Qed.

End Callbacks.

(** ** VmTraceTracer against the interpreter's stack discipline *)

Lemma below_trans (x : path) : forall q p, below x q = true -> below q p = true -> below x p = true.
Proof.
  induction x as [|i x IH]; intros [|j q] [|k p] H1 H2; simpl in *;
    try reflexivity; try discriminate.
  apply andb_true_iff in H1. destruct H1 as [E1 H1].
  apply andb_true_iff in H2. destruct H2 as [E2 H2].
  apply Nat.eqb_eq in E1. apply Nat.eqb_eq in E2. subst.
  rewrite Nat.eqb_refl. simpl. eapply IH; eauto.
Qed.

Lemma in_step_top (s : VmTraceTracer.t) (f : VmTraceTracer.frame_info) (g0
    : list VmTraceTracer.frame_info) :
  VmTraceTracer.in_step s (f :: g0) ->
  exists p vt st0,
    VmTraceTracer.traces_stack_ s = Some p :: st0
    /\ VmTraceTracer.top_trace s = Some (p, vt)
    /\ VmTraceTracer.instrs f <= length (ops vt)
    /\ (0 < VmTraceTracer.instrs f -> (VmTraceTracer.height f < Z.of_nat
        (VmTraceTracer.instrs f))%Z)
    /\ Forall2 (VmTraceTracer.frame_agrees s) st0 g0
    /\ (forall q, Some q ∈ st0 -> below q p = true /\ length q < length p)
    /\ VmTraceTracer.chain st0.
Proof.
  intros [HF Hch Hlow Hroot].
  inversion HF as [|r f0 st0 g1 Hr HF0 E1 E2]. subst.
  destruct Hr as (p & vt & -> & Hget & Hlen & Hh).
  rewrite <- E1 in Hch. destruct Hch as [Hb Hch0].
  exists p, vt, st0. unfold VmTraceTracer.top_trace. rewrite <- E1. simpl. rewrite Hget. simpl.
  repeat split; auto; apply (Hb p q eq_refl); assumption.
Qed.

Lemma lost_no_top (s : VmTraceTracer.t) (g : list VmTraceTracer.frame_info) :
  VmTraceTracer.lost s g -> VmTraceTracer.top_trace s = None.
Proof.
  intros (_ & Hh & _). unfold VmTraceTracer.top_trace.
  destruct (VmTraceTracer.traces_stack_ s) as [|[q|] st]; simpl in *; congruence.
Qed.

Lemma agrees_all_some (s : VmTraceTracer.t) (st : list frame_ref) (g
    : list VmTraceTracer.frame_info) :
  Forall2 (VmTraceTracer.frame_agrees s) st g -> forall r, r ∈ st -> exists q, r = Some q.
Proof.
  intros HF. induction HF as [|r f st1 g1 Hr HF IH]; intros r0 Hin.
  - inversion Hin.
  - apply elem_of_cons in Hin. destruct Hin as [->|Hin]; [|auto].
    destruct Hr as (q & _ & -> & _). eauto.
Qed.

Lemma root_has_ops (s : VmTraceTracer.t) (st : list frame_ref) (g : list VmTraceTracer.frame_info) :
  Forall2 (VmTraceTracer.frame_agrees s) st g ->
  Forall (fun f => 0 < VmTraceTracer.instrs f) g ->
  last st = Some (Some []) ->
  0 < length (ops (VmTraceTracer.vm_trace_ s)).
Proof.
  intros HF. induction HF as [|r f st1 g1 Hr HF IH]; intros Hpos Hlast.
  - discriminate.
  - apply Forall_cons in Hpos. destruct Hpos as [Hf Hpos].
    destruct st1 as [|r1 st2].
    + simpl in Hlast. injection Hlast as ->.
      destruct Hr as (q & vt & E & Hget & Hlen & _). injection E as <-.
      simpl in Hget. injection Hget as <-. lia.
    + apply IH; [exact Hpos|]. exact Hlast.
Qed.

Section Keeping.
Context {evmc_revision : Type}.
Variable names : evmc_revision -> N -> option string.


Lemma keep_start (rev : evmc_revision) (msg : evmc_message) (code : list Byte.byte)
    (s s' : VmTraceTracer.t) (g g' : list VmTraceTracer.frame_info) :
  VmTraceTracer.in_step s g \/ VmTraceTracer.lost s g ->
  VmTraceTracer.follow (VmTraceTracer.ExecutionStart rev msg code) g = Some g' ->
  VmTraceTracer.on_execution_start names rev msg code s = Some s' ->
  VmTraceTracer.in_step s' g' \/ VmTraceTracer.lost s' g'.
Proof.
  intros Hinv Hf Hs. simpl in Hf.
  destruct (Z.eqb_spec (msg_depth msg) 0) as [Hd|Hd].
  - (* the outermost frame *)
    destruct g as [|f g0]; [|discriminate]. injection Hf as <-.
    destruct Hinv as [Hin|(Hlen & Hhead & _)].
    2:{ destruct (VmTraceTracer.traces_stack_ s); simpl in *; [discriminate|lia]. }
    destruct (on_execution_start_outer_inv names rev msg code s s' Hd Hs) as [Hvm Hst].
    pose proof (VmTraceTracer.is_frames _ _ Hin) as HF. inversion HF as [E|]. clear HF.
    left. split.
    + rewrite Hst, <- E. constructor; [|constructor].
      exists [], (VmTraceTracer.vm_trace_ s'). simpl. repeat split; [lia|intros; lia].
    + rewrite Hst, <- E. simpl. split; [|exact I]. intros p q _ Hq. inversion Hq.
    + constructor.
    + intros _. rewrite Hst, <- E. reflexivity.
  - (* a nested frame *)
    destruct g as [|f g0]; [discriminate|].
    destruct (_ && _) eqn:Hcond; [|discriminate]. injection Hf as <-.
    apply andb_true_iff in Hcond. destruct Hcond as [Hcond Hop].
    apply andb_true_iff in Hcond. destruct Hcond as [_ Hne].
    apply negb_true_iff, Nat.eqb_neq in Hne.
    destruct Hinv as [Hin|Hlost].
    2:{ exfalso. pose proof (lost_no_top _ _ Hlost) as Hno.
        destruct Hlost as (_ & _ & Hroot).
        destruct (on_execution_start_nested_inv names rev msg code s s' Hd Hroot Hs)
          as (p & vt & vt' & Htop & _). congruence. }
    destruct (in_step_top s f g0 Hin) as (p & vt & st0 & Hst & Htop & Hlen & Hh & HF0 & Hb & Hch0).
    assert (Hroot : 0 < length (ops (VmTraceTracer.vm_trace_ s))).
    { apply (root_has_ops s (VmTraceTracer.traces_stack_ s) (f :: g0)).
      - apply (VmTraceTracer.is_frames _ _ Hin).
      - constructor; [lia|]. apply (VmTraceTracer.is_lower _ _ Hin).
      - apply (VmTraceTracer.is_root _ _ Hin). discriminate. }
    destruct (on_execution_start_nested_inv names rev msg code s s' Hd Hroot Hs)
      as (p1 & vt1 & vt' & Htop1 & Hent & Hvm & Hst').
    rewrite Htop in Htop1. injection Htop1 as <- <-.
    destruct (enter_sub_spec _ _ _ _ Hent) as (Hlen' & Hpos & Hsub & _).
    destruct (top_trace_inv s p vt Htop) as (st0' & Hst2 & Hget).
    set (c := length (ops vt) - 1) in *.
    assert (Hid : invalidate (p ++ [c]) (VmTraceTracer.traces_stack_ s)
        = VmTraceTracer.traces_stack_ s).
    { apply invalidate_id. intros r Hr.
      destruct (agrees_all_some s _ _ (VmTraceTracer.is_frames _ _ Hin) r Hr) as [q ->].
      exists q. split; [reflexivity|]. apply below_longer. rewrite length_app. simpl.
      rewrite Hst in Hr. apply elem_of_cons in Hr. destruct Hr as [E|Hr].
      - injection E as ->. lia.
      - destruct (Hb q Hr). lia. }
    rewrite Hid, Hst in Hst'.
    assert (Hget' : get p (VmTraceTracer.vm_trace_ s') = Some vt').
    { rewrite Hvm. apply (get_upd_same p (fun _ => vt') _ vt Hget). }
    left. split.
    + rewrite Hst'. constructor; [|constructor].
      * exists (p ++ [c]). eexists. split; [reflexivity|].
        rewrite get_app, Hget'. simpl. split; [exact Hsub|]. simpl. split; [lia|intros; lia].
      * exists p, vt'. repeat split; [exact Hget'|lia|exact Hh].
      * eapply lower_frames_kept; eauto.
    + rewrite Hst'. simpl. split; [|split; [|exact Hch0]].
      * intros p0 q E Hq. injection E as <-. rewrite length_app. simpl.
        apply elem_of_cons in Hq. destruct Hq as [E|Hq].
        -- injection E as ->. split; [apply below_app|lia].
        -- destruct (Hb q Hq). split; [now apply below_app_r|lia].
      * intros p0 q E Hq. injection E as <-. apply Hb. exact Hq.
    + simpl. constructor; [lia|]. apply (VmTraceTracer.is_lower _ _ Hin).
    + intros _. rewrite Hst'.
      pose proof (VmTraceTracer.is_root _ _ Hin ltac:(discriminate)) as Hl. rewrite Hst in Hl.
      exact Hl.
Qed.

Lemma keep_instruction (pc : N) (stack_top : list N) (h : Z) (es : ExecutionState)
    (s s' : VmTraceTracer.t) (g g' : list VmTraceTracer.frame_info) :
  VmTraceTracer.in_step s g \/ VmTraceTracer.lost s g ->
  VmTraceTracer.follow (@VmTraceTracer.InstructionStart evmc_revision pc stack_top h es) g
      = Some g' ->
  VmTraceTracer.on_instruction_start pc stack_top h es s = Some s' ->
  VmTraceTracer.in_step s' g' \/ VmTraceTracer.lost s' g'.
Proof.
  intros Hinv Hf Hs. simpl in Hf.
  destruct g as [|f g0]; [discriminate|].
  destruct (es_code es !! N.to_nat pc) as [b|]; simpl in Hf; [|discriminate].
  destruct (if Nat.eqb _ 0 then _ else _) eqn:Hcond; [|discriminate].
  injection Hf as <-.
  destruct (on_instruction_start_inv pc stack_top h es s s' Hs)
    as (p1 & vt1 & ops1 & trace_op & Htop1 & Hlen1 & Hvm & Hst').
  destruct Hinv as [Hin|Hlost]; [|rewrite (lost_no_top _ _ Hlost) in Htop1; discriminate].
  destruct (in_step_top s f g0 Hin) as (p & vt & st0 & Hst & Htop & Hlen & Hh & HF0 & Hb & Hch0).
  rewrite Htop in Htop1. injection Htop1 as <- <-.
  destruct (top_trace_inv s p vt Htop) as (_ & _ & Hget).
  left. split.
  - rewrite Hst', Hst. constructor.
    + exists p. eexists. split; [reflexivity|]. split.
      * rewrite Hvm. apply (get_upd_same p _ _ vt Hget).
      * simpl. rewrite length_app. simpl. split; [lia|]. intros _.
        destruct (Nat.eqb_spec (VmTraceTracer.instrs f) 0) as [E|E].
        -- apply Z.eqb_eq in Hcond. lia.
        -- apply andb_true_iff in Hcond. destruct Hcond as [_ Hle].
           apply Z.leb_le in Hle. specialize (Hh ltac:(lia)). lia.
    + eapply lower_frames_kept; eauto.
  - rewrite Hst'. apply (VmTraceTracer.is_chain _ _ Hin).
  - apply (VmTraceTracer.is_lower _ _ Hin).
  - intros _. rewrite Hst'. apply (VmTraceTracer.is_root _ _ Hin). discriminate.
Qed.

Lemma keep_end (result : evmc_result) (s s' : VmTraceTracer.t) (g g'
    : list VmTraceTracer.frame_info) :
  VmTraceTracer.in_step s g \/ VmTraceTracer.lost s g ->
  VmTraceTracer.follow (@VmTraceTracer.ExecutionEnd evmc_revision result) g = Some g' ->
  VmTraceTracer.on_execution_end result s = Some s' ->
  VmTraceTracer.in_step s' g' \/ VmTraceTracer.lost s' g'.
Proof.
  intros Hinv Hf Hs. simpl in Hf.
  destruct g as [|f g0]; [discriminate|]. injection Hf as <-.
  destruct (on_execution_end_inv result s s' Hs) as (p1 & vt1 & vt' & Htop1 & Hvm & Hst').
  destruct Hinv as [Hin|Hlost]; [|rewrite (lost_no_top _ _ Hlost) in Htop1; discriminate].
  destruct (in_step_top s f g0 Hin) as (p & vt & st0 & Hst & Htop & Hlen & Hh & HF0 & Hb & Hch0).
  rewrite Htop in Htop1. injection Htop1 as <- <-.
  rewrite Hst in Hst'. simpl in Hst'.
  left. split.
  - rewrite Hst'. eapply lower_frames_kept; eauto.
  - rewrite Hst'. exact Hch0.
  - pose proof (VmTraceTracer.is_lower _ _ Hin) as Hl. simpl in Hl.
    destruct g0 as [|f0 g1]; [constructor|]. simpl. apply Forall_cons in Hl. tauto.
  - intros Hne. rewrite Hst'.
    pose proof (VmTraceTracer.is_root _ _ Hin ltac:(discriminate)) as Hl. rewrite Hst in Hl.
    destruct st0 as [|r st1]; [|exact Hl].
    inversion HF0. subst. congruence.
Qed.
End Keeping.

Lemma get_set_last_other (root : VmTrace) (op' : TraceOp) (q : path) :
  q <> [] ->
  below [length (ops root) - 1] q = false ->
  get q (set_ops (set_last op' (ops root)) root) = get q root.
Proof.
  destruct q as [|i q]; [congruence|]. intros _ Hb. simpl in Hb.
  rewrite andb_true_r in Hb. apply Nat.eqb_neq in Hb.
  simpl. unfold set_last. rewrite list_lookup_insert_ne by exact Hb. reflexivity.
Qed.

Lemma precompiled_frames_kept (s s' : VmTraceTracer.t) (op' : TraceOp)
    (st : list frame_ref) (g : list VmTraceTracer.frame_info) :
  VmTraceTracer.vm_trace_ s' = set_ops (set_last op' (ops (VmTraceTracer.vm_trace_ s)))
      (VmTraceTracer.vm_trace_ s) ->
  (forall q, Some q ∈ st -> below [length (ops (VmTraceTracer.vm_trace_ s)) - 1] q = false) ->
  Forall2 (VmTraceTracer.frame_agrees s) st g ->
  Forall2 (VmTraceTracer.frame_agrees s') st g.
Proof.
  intros Hvm Hb HF. induction HF as [|r f st1 g1 Hr HF IH]; constructor.
  - destruct Hr as (q & vt & -> & Hget & Hlen & Hh).
    destruct (decide (q = [])) as [->|Hne].
    + simpl in Hget. injection Hget as <-.
      exists [], (VmTraceTracer.vm_trace_ s'). simpl. repeat split; [|exact Hh].
      rewrite Hvm. simpl. unfold set_last. rewrite length_insert. exact Hlen.
    + exists q, vt. repeat split; [|exact Hlen|exact Hh].
      rewrite Hvm, get_set_last_other; [exact Hget|exact Hne|].
      apply Hb. apply elem_of_cons. auto.
  - apply IH. intros q Hq. apply Hb. apply elem_of_cons. auto.
Qed.


Section Discipline.
Context {evmc_revision : Type}.
Variable names : evmc_revision -> N -> option string.

Lemma keep_precompiled (result : evmc_result) (gas : Z)
    (s s' : VmTraceTracer.t) (g g' : list VmTraceTracer.frame_info) :
  VmTraceTracer.in_step s g \/ VmTraceTracer.lost s g ->
  VmTraceTracer.follow (@VmTraceTracer.PrecompiledRun evmc_revision result gas) g = Some g' ->
  VmTraceTracer.on_precompiled_run result gas s = Some s' ->
  VmTraceTracer.in_step s' g' \/ VmTraceTracer.lost s' g'.
Proof.
  intros Hinv Hf Hs. simpl in Hf. injection Hf as <-.
  unfold VmTraceTracer.on_precompiled_run in Hs.
  destruct (ops_back 1 (ops (VmTraceTracer.vm_trace_ s))) as [op|] eqn:Hop;
    [|injection Hs as <-; exact Hinv].
  injection Hs as <-.
  assert (Hpos : 1 <= length (ops (VmTraceTracer.vm_trace_ s))).
  { apply (ops_back_length 1); [lia|]. rewrite Hop. eauto. }
  set (c := length (ops (VmTraceTracer.vm_trace_ s)) - 1) in *.
  set (op' := set_sub (Some (mkVmTrace "0x" [])) (set_precompiled_call_gas (Some gas) op)).
  destruct Hinv as [Hin|(Hlen & Hhead & Hroot)].
  2:{ right. repeat split; simpl.
      - rewrite invalidate_length. exact Hlen.
      - apply invalidate_head_None. exact Hhead.
      - unfold set_last. rewrite length_insert. lia. }
  destruct g as [|f g0].
  - pose proof (VmTraceTracer.is_frames _ _ Hin) as HF. inversion HF as [E|].
    left. split; simpl; rewrite <- ?E; simpl; [constructor|exact I|constructor|congruence].
  - destruct (in_step_top s f g0 Hin)
      as (p & vt & st0 & Hst & Htop & Hlenp & Hh & HF0 & Hb & Hch0).
    destruct (below [c] p) eqn:Hbp.
    + right. repeat split; simpl.
      * rewrite invalidate_length.
        pose proof (Forall2_length _ _ _ (VmTraceTracer.is_frames _ _ Hin)) as HL. exact HL.
      * rewrite Hst. unfold invalidate. cbn [map head]. rewrite Hbp. reflexivity.
      * unfold set_last. rewrite length_insert. lia.
    + assert (Hall : forall q, Some q ∈ VmTraceTracer.traces_stack_ s -> below [c] q = false).
      { intros q Hq. rewrite Hst in Hq. apply elem_of_cons in Hq.
        destruct Hq as [E|Hq]; [injection E as ->; exact Hbp|].
        destruct (below [c] q) eqn:Hbq; [|reflexivity].
        destruct (Hb q Hq) as [Hqp _].
        rewrite (below_trans [c] q p Hbq Hqp) in Hbp. discriminate. }
      assert (Hid : invalidate [c] (VmTraceTracer.traces_stack_ s) = VmTraceTracer.traces_stack_ s).
      { apply invalidate_id. intros r Hr.
        destruct (agrees_all_some s _ _ (VmTraceTracer.is_frames _ _ Hin) r Hr) as [q ->].
        exists q. split; [reflexivity|]. apply Hall. exact Hr. }
      left. split; simpl; rewrite ?Hid.
      * eapply (precompiled_frames_kept s _ op'); [reflexivity|exact Hall|].
        apply (VmTraceTracer.is_frames _ _ Hin).
      * apply (VmTraceTracer.is_chain _ _ Hin).
      * apply (VmTraceTracer.is_lower _ _ Hin).
      * apply (VmTraceTracer.is_root _ _ Hin).
Qed.

Lemma keep_step (e : VmTraceTracer.event) (s s' : VmTraceTracer.t) (g g'
    : list VmTraceTracer.frame_info) :
  VmTraceTracer.in_step s g \/ VmTraceTracer.lost s g ->
  VmTraceTracer.follow e g = Some g' ->
  VmTraceTracer.step names e s = Some s' ->
  VmTraceTracer.in_step s' g' \/ VmTraceTracer.lost s' g'.
Proof.
  destruct e as [rev msg code|pc stack_top h es|result gas|result]; intros Hinv Hf Hs.
  - eapply keep_start; eauto.
  - eapply keep_instruction; eauto.
  - eapply keep_precompiled; eauto.
  - eapply keep_end; eauto.
Qed.

Lemma keep_run (es : list VmTraceTracer.event) :
  forall (s s' : VmTraceTracer.t) (g g' : list VmTraceTracer.frame_info),
    VmTraceTracer.in_step s g \/ VmTraceTracer.lost s g ->
    VmTraceTracer.follow_all es g = Some g' ->
    VmTraceTracer.run names es s = Some s' ->
    VmTraceTracer.in_step s' g' \/ VmTraceTracer.lost s' g'.
Proof.
  induction es as [|e es IH]; intros s s' g g' Hinv Hf Hr; simpl in *.
  - injection Hf as <-. injection Hr as <-. exact Hinv.
  - destruct (VmTraceTracer.follow e g) as [g1|] eqn:Hf1; simpl in Hf; [|discriminate].
    destruct (VmTraceTracer.step names e s) as [s1|] eqn:Hs1; simpl in Hr; [|discriminate].
    eapply IH; [|exact Hf|exact Hr]. eapply keep_step; eauto.
Qed.



End Discipline.


(** The tracer has no guard of its own. Off the interpreter's discipline,
    with a [DELEGATECALL] announced as the first instruction of a frame, a
    nested start finds a parent with a single op, and the read of
    [ops[size - 2]] is out of bounds. *)
Lemma on_execution_start_read_is_unguarded :
  let names := fun (_ : unit) (_ : N) => @None string in
  let outer := {| msg_kind := EVMC_CALL; msg_flags := 0; msg_depth := 0;
                  msg_gas := 50000; msg_recipient := 0xaa%N; msg_sender := 0xbb%N;
                  msg_input_data := []; msg_value := 0; msg_code_address := 0xaa%N |} in
  let inner := {| msg_kind := EVMC_DELEGATECALL; msg_flags := 0; msg_depth := 1;
                  msg_gas := 30000; msg_recipient := 0xaa%N; msg_sender := 0xbb%N;
                  msg_input_data := []; msg_value := 0; msg_code_address := 0xcc%N |} in
  let bytecode := [Byte.xf4] in
  let es := {| es_code := bytecode; es_memory := []; es_gas_left := 50000;
               es_msg := outer |} in
  exists s p vt op,
    VmTraceTracer.run names
      [VmTraceTracer.ExecutionStart tt outer bytecode;
       VmTraceTracer.InstructionStart 0 [0; 0; 0; 0; 0; 0]%N 6 es]
      (VmTraceTracer.make empty_VmTrace (-1)) = Some s
    /\ VmTraceTracer.top_trace s = Some (p, vt)
    /\ 0 < length (ops (VmTraceTracer.vm_trace_ s))
    /\ ops_back 1 (ops vt) = Some op
    /\ op_code op = Op.DELEGATECALL
    /\ length (ops vt) = 1
    /\ ops_back 2 (ops vt) = None
    /\ VmTraceTracer.on_execution_start names tt inner [] s = None.
Proof.
  intros names outer inner bytecode es.
  eexists. eexists. eexists. eexists.
  split; [vm_compute; reflexivity|].
  split; [vm_compute; reflexivity|].
  split; [vm_compute; lia|].
  split; [vm_compute; reflexivity|].
  repeat split.
Qed.


(** ** StateDiffTracer *)

Lemma diff_address_neither_exists (ibs : IntraBlockState) (s : StateDiffTracer.t) (a : address) :
  StateAddresses.exists_ (StateDiffTracer.state_addresses_ s) a = false ->
  ibs_exists ibs a = false ->
  StateDiffTracer.state_diff_ (StateDiffTracer.diff_address ibs s a)
  = <["0x" +:+ to_hex_fixed 20 a :=
        default StateDiffEntry.default (StateDiffTracer.state_diff_ s !!
            ("0x" +:+ to_hex_fixed 20 a))]>
      (StateDiffTracer.state_diff_ s).
Proof. intros H1 H2. unfold StateDiffTracer.diff_address. rewrite H1, H2. reflexivity. Qed.

(** C2 fails on the code: [state_diff_[address_key]] inserts a default
    entry before the cases are told apart, and the case of an address that
    exists in neither state has no branch that erases it. A transaction that
    touches one such address ends with that address in the map, all four
    fields unchanged. *)
Theorem absent_account_leaves_unchanged_entry
    (result : CallResult) (ibs : IntraBlockState) (sa : StateAddresses.t) (a : address) :
  ibs_touched ibs = [a] ->
  StateAddresses.exists_ sa a = false ->
  ibs_exists ibs a = false ->
  StateDiffTracer.state_diff_ (StateDiffTracer.on_reward_granted result ibs
      (StateDiffTracer.make ∅ sa))
  = {[ "0x" +:+ to_hex_fixed 20 a := StateDiffEntry.default ]}
  /\ StateDiffEntry.has_change StateDiffEntry.default = false.
Proof.
  intros Ht H1 H2. split; [|reflexivity].
  unfold StateDiffTracer.on_reward_granted. rewrite Ht. cbn [foldl].
  rewrite diff_address_neither_exists by assumption.
  cbn [StateDiffTracer.state_diff_ StateDiffTracer.make]. rewrite lookup_empty. reflexivity.
Qed.

Lemma absent_account_leaves_unchanged_entry_witness :
  let ibs := {| ibs_exists := fun _ => false; ibs_get_balance := fun _ => 0%N;
                ibs_get_nonce := fun _ => 0%N; ibs_get_code := fun _ => [];
                ibs_get_original_storage := fun _ _ => 0%N;
                ibs_get_current_storage := fun _ _ => 0%N;
                ibs_touched := [0xaa%N] |} in
  let sa := {| StateAddresses.balances_ := ∅; StateAddresses.nonces_ := ∅;
               StateAddresses.codes_ := ∅; StateAddresses.initial_ibs_ := ibs;
               StateAddresses.exists_ := fun _ => false |} in
  let result := {| cr_status := EVMC_SUCCESS; cr_gas_left := 0; cr_data := [] |} in
  StateDiffTracer.state_diff_ (StateDiffTracer.on_reward_granted result ibs
      (StateDiffTracer.make ∅ sa))
  = {[ "0x00000000000000000000000000000000000000aa" := StateDiffEntry.default ]}
  /\ StateDiffEntry.has_change StateDiffEntry.default = false.
Proof.
  intros ibs sa result.
  apply (absent_account_leaves_unchanged_entry result ibs sa 0xaa%N); reflexivity.
Defined.

Lemma storage_fold_nonempty (ibs : IntraBlockState) (a : address) (keys : list string) :
  forall (st0 : gmap string DiffValue.t) (e0 : bool),
    (e0 = false -> st0 <> ∅) ->
    forall st e,
      foldl (fun '(st, eq) key =>
               let key_b32 := bytes32_from_hex key in
               let initial_storage := ibs_get_original_storage ibs a key_b32 in
               let final_storage := ibs_get_current_storage ibs a key_b32 in
               if (initial_storage =? final_storage)%N then (st, eq)
               else (<[key := StateDiffTracer.changed ("0x" +:+ to_hex_fixed 32 initial_storage)
                                         ("0x" +:+ to_hex_fixed 32 final_storage)]> st,
                     false))
            (st0, e0) keys = (st, e) ->
      e = false -> st <> ∅.
Proof.
  induction keys as [|k keys IH]; intros st0 e0 H0 st e; simpl.
  - intros E. injection E as <- <-. exact H0.
  - destruct (_ =? _)%N.
    + apply IH. exact H0.
    + apply IH. intros _. apply insert_non_empty.
Qed.

Lemma diff_address_retains_changes (ibs : IntraBlockState) (s : StateDiffTracer.t) (a : address) :
  (forall k e, StateDiffTracer.state_diff_ s !! k = Some e -> StateDiffEntry.has_change e = true) ->
  StateAddresses.exists_ (StateDiffTracer.state_addresses_ s) a = true \/ ibs_exists ibs a = true ->
  forall k e, StateDiffTracer.state_diff_ (StateDiffTracer.diff_address ibs s a) !! k = Some e ->
              StateDiffEntry.has_change e = true.
Proof.
  intros Hall Hex k e. unfold StateDiffTracer.diff_address. cbn [StateDiffTracer.state_diff_].
  set (key := "0x" +:+ to_hex_fixed 20 a).
  set (entry := default StateDiffEntry.default (StateDiffTracer.state_diff_ s !! key)).
  set (keys := elements (default ∅ (StateDiffTracer.diff_storage_ s !! a))).
  assert (Hins : forall e', StateDiffEntry.has_change e' = true ->
            <[key := e']> (StateDiffTracer.state_diff_ s) !! k = Some e ->
            StateDiffEntry.has_change e = true).
  { intros e' He' H. destruct (decide (key = k)) as [<-|Hne].
    - rewrite lookup_insert_eq in H. congruence.
    - rewrite lookup_insert_ne in H by exact Hne. eapply Hall; exact H. }
  assert (Hdel : delete key (StateDiffTracer.state_diff_ s) !! k = Some e ->
                 StateDiffEntry.has_change e = true).
  { intros H. destruct (decide (key = k)) as [<-|Hne].
    - rewrite lookup_delete_eq in H. discriminate.
    - rewrite lookup_delete_ne in H by exact Hne. eapply Hall; exact H. }
  destruct (StateAddresses.exists_ (StateDiffTracer.state_addresses_ s) a) eqn:E1;
    destruct (ibs_exists ibs a) eqn:E2.
  - destruct (StateDiffTracer.diff_existing (StateDiffTracer.state_addresses_ s) ibs a keys entry)
      as [entry' all_equals] eqn:Hd.
    destruct all_equals; [exact Hdel|]. apply Hins.
    unfold StateDiffTracer.diff_existing in Hd.
    destruct (foldl _ (StateDiffEntry.storage entry, true) keys) as [st eq_s] eqn:Hf.
    injection Hd as <- Hall_eq. unfold StateDiffEntry.has_change.
    cbn [StateDiffEntry.balance StateDiffEntry.nonce StateDiffEntry.code StateDiffEntry.storage].
    destruct (_ =? _)%N eqn:Eb; [|reflexivity].
    destruct (bool_decide (_ = _)) eqn:Ec; [|rewrite !orb_true_r; reflexivity].
    destruct (StateAddresses.get_nonce _ _ =? _)%N eqn:En;
      [|rewrite ?orb_true_r; reflexivity].
    simpl in Hall_eq. subst eq_s.
    pose proof (storage_fold_nonempty ibs a keys (StateDiffEntry.storage entry) true
                  ltac:(discriminate) st false Hf eq_refl) as Hne.
    rewrite bool_decide_eq_false_2 by exact Hne. rewrite !orb_true_r. reflexivity.
  - apply Hins. reflexivity.
  - destruct (StateDiffTracer.diff_added ibs a keys entry) as [entry' to_be_removed] eqn:Hd.
    destruct to_be_removed; [exact Hdel|]. apply Hins.
    unfold StateDiffTracer.diff_added in Hd. injection Hd as <- _. reflexivity.
  - destruct Hex; discriminate.
Qed.

Lemma on_reward_granted_retains_changes (result : CallResult) (ibs : IntraBlockState)
    (s : StateDiffTracer.t) :
  (forall k e, StateDiffTracer.state_diff_ s !! k = Some e -> StateDiffEntry.has_change e = true) ->
  (forall a, a ∈ ibs_touched ibs ->
     StateAddresses.exists_ (StateDiffTracer.state_addresses_ s) a = true \/ ibs_exists ibs a
         = true) ->
  forall k e, StateDiffTracer.state_diff_ (StateDiffTracer.on_reward_granted result ibs s) !! k
      = Some e ->
              StateDiffEntry.has_change e = true.
Proof.
  unfold StateDiffTracer.on_reward_granted. generalize (ibs_touched ibs) as touched.
  intros touched. revert s.
  induction touched as [|a touched IH]; intros s Hall Hex; simpl.
  - exact Hall.
  - apply IH.
    + apply diff_address_retains_changes; [exact Hall|]. apply Hex. apply elem_of_cons. auto.
    + intros b Hb. cbn [StateDiffTracer.diff_address StateDiffTracer.state_addresses_].
      apply Hex. apply elem_of_cons. auto.
Qed.

(** ** TraceCallExecutor *)

Section Orchestration.
Context {Transaction Call Json Executor : Type}.
Variable has_from : Transaction -> bool.
Variable recover_sender : Transaction -> Transaction.
Variable hash_of_transaction : Transaction -> N.
Variable to_transaction : Call -> Transaction.
Variable new_executor : Z -> Executor.
Variable executor_call :
  Executor -> @TraceCallExecutor.Block Transaction -> Transaction -> bool -> bool ->
  list Tracer -> TraceCallTraces.t -> Executor * ExecutionResult * TraceCallTraces.t.
Variable executor_reset : Executor -> Executor.
Variable read_chain_config : @TraceCallExecutor.ChainConfig Json.
Variable compute_reward :
  @TraceCallExecutor.ChainConfig Json -> @TraceCallExecutor.Block Transaction -> BlockReward.

Local Abbreviation trace_block :=
  (TraceCallExecutor.trace_block has_from recover_sender hash_of_transaction new_executor
     executor_call read_chain_config compute_reward).
Local Abbreviation trace_calls :=
  (TraceCallExecutor.trace_calls to_transaction new_executor executor_call executor_reset).
Local Abbreviation trace_calls_loop :=
  (TraceCallExecutor.trace_calls_loop to_transaction executor_call executor_reset).
Local Abbreviation run_call := (TraceCallExecutor.run_call to_transaction executor_call).
Local Abbreviation executor_before :=
  (TraceCallExecutor.executor_before to_transaction new_executor executor_call executor_reset).
Local Abbreviation outcome :=
  (TraceCallExecutor.outcome to_transaction new_executor executor_call executor_reset).
Local Abbreviation passes :=
  (TraceCallExecutor.passes to_transaction new_executor executor_call executor_reset).
Local Abbreviation contribution :=
  (TraceCallExecutor.contribution to_transaction new_executor executor_call executor_reset).

Lemma trace_block_transactions_loop_length
    (blk : TraceCallExecutor.Block) (cfg : TraceConfig) (txns : list Transaction) :
  forall (index : Z) (executor : Executor),
    length (TraceCallExecutor.trace_block_transactions_loop has_from recover_sender
              hash_of_transaction executor_call blk cfg txns index executor)
    = length txns.
Proof.
  induction txns as [|txn rest IH]; intros index executor; simpl; [reflexivity|].
  destruct (TraceCallExecutor.install cfg index _) as [tracers traces1].
  destruct (executor_call executor blk _ true true tracers traces1) as [[e' er] tr].
  simpl. now rewrite IH.
Qed.

Lemma trace_block_loop_defined (bwh : TraceCallExecutor.BlockWithHash)
    (results : list TraceCallResult.t) :
  forall (pos : nat) (traces : list Trace.t),
    pos + length results <= length (TraceCallExecutor.transactions (TraceCallExecutor.block bwh)) ->
    is_Some (TraceCallExecutor.trace_block_loop has_from recover_sender hash_of_transaction
               bwh results pos traces).
Proof.
  induction results as [|r rest IH]; intros pos traces Hlen; simpl.
  - eauto.
  - simpl in Hlen.
    destruct (lookup_lt_is_Some_2
                (TraceCallExecutor.transactions (TraceCallExecutor.block bwh)) pos)
      as [txn Htxn]; [lia|].
    rewrite Htxn. simpl. apply IH. lia.
Qed.

(** C1, as the code has it. The list returned by [trace_block] always ends
    with the synthetic reward trace (type ["reward"], author the block's
    beneficiary, reward type ["block"]), whatever the chain configuration;
    the configuration decides its value only: the miner reward of the
    external reward function when the configuration has an ["ethash"] entry,
    zero otherwise. *)
Theorem trace_block_always_ends_with_reward (bwh : TraceCallExecutor.BlockWithHash) :
  exists (body : list Trace.t) (value : N),
    trace_block bwh
    = Some (body
            ++ [{| Trace.action :=
                     ActionReward
                       {| RewardAction.author :=
                            TraceCallExecutor.header_beneficiary (TraceCallExecutor.block bwh);
                          RewardAction.reward_type := "block";
                          RewardAction.value := value |};
                   Trace.trace_result := None;
                   Trace.sub_traces := 0;
                   Trace.trace_address := [];
                   Trace.error := None;
                   Trace.type := "reward";
                   Trace.block_hash := Some (TraceCallExecutor.hash bwh);
                   Trace.block_number :=
                     Some (TraceCallExecutor.header_number (TraceCallExecutor.block bwh));
                   Trace.transaction_hash := None;
                   Trace.transaction_position := None |}])
    /\ value
       = match TraceCallExecutor.config read_chain_config !! "ethash" with
         | Some _ =>
             miner_reward (compute_reward read_chain_config (TraceCallExecutor.block bwh))
         | None => 0%N
         end.
Proof.
  unfold TraceCallExecutor.trace_block.
  destruct (trace_block_loop_defined bwh
              (TraceCallExecutor.trace_block_transactions has_from recover_sender
                 hash_of_transaction new_executor executor_call
                 (TraceCallExecutor.block bwh)
                 {| cfg_vm_trace := false; cfg_trace := true; cfg_state_diff := false |})
              0 []) as [body Hbody].
  { unfold TraceCallExecutor.trace_block_transactions.
    rewrite trace_block_transactions_loop_length. simpl. lia. }
  rewrite Hbody. simpl. exists body. eexists. split; [reflexivity|].
  destruct (TraceCallExecutor.config read_chain_config !! "ethash"); reflexivity.
Qed.

(** ** trace_calls *)

Lemma executor_before_S (blk : TraceCallExecutor.Block)
    (calls : list TraceCallExecutor.TraceCall) (k : nat) (c : TraceCallExecutor.TraceCall) :
  calls !! k = Some c ->
  executor_before blk calls (S k)
  = executor_reset (fst (fst (run_call blk (Z.of_nat k) c (executor_before blk calls k)))).
Proof. intros H. simpl. rewrite H. reflexivity. Qed.

Lemma trace_calls_loop_passes (blk : TraceCallExecutor.Block)
    (calls : list TraceCallExecutor.TraceCall) (rest : list TraceCallExecutor.TraceCall) :
  forall (n : nat) (result : TraceManyCallResult.t) (called : list Z),
    drop n calls = rest ->
    (forall k, n <= k < length calls -> passes blk calls k) ->
    trace_calls_loop blk rest (Z.of_nat n) (executor_before blk calls n) result called
    = ({| TraceManyCallResult.traces :=
            TraceManyCallResult.traces result
            ++ omap (contribution blk calls) (seq n (length rest));
          TraceManyCallResult.pre_check_error := TraceManyCallResult.pre_check_error result |},
       called ++ map Z.of_nat (seq n (length rest))).
Proof.
  induction rest as [|c rest IH]; intros n result called Hdrop Hok.
  - simpl. rewrite !app_nil_r. destruct result; reflexivity.
  - assert (Hc : calls !! n = Some c).
    { rewrite <- (Nat.add_0_r n), <- lookup_drop, Hdrop. reflexivity. }
    assert (Hrest : drop (S n) calls = rest).
    { pose proof (drop_S _ _ _ Hc) as Hd. rewrite Hdrop in Hd. congruence. }
    destruct (Hok n) as (er & tr & Hout & Hpc).
    { split; [lia|]. eapply lookup_lt_Some; exact Hc. }
    unfold TraceCallExecutor.outcome in Hout. rewrite Hc in Hout. simpl in Hout.
    cbn [TraceCallExecutor.trace_calls_loop].
    destruct (run_call blk (Z.of_nat n) c (executor_before blk calls n))
      as [[e' er'] tr'] eqn:Hrun.
    simpl in Hout. injection Hout as -> ->.
    rewrite Hpc.
    replace (Z.of_nat n + 1)%Z with (Z.of_nat (S n)) by lia.
    replace (executor_reset e') with (executor_before blk calls (S n))
      by (rewrite (executor_before_S _ _ _ c Hc), Hrun; reflexivity).
    rewrite IH; [|exact Hrest|intros k Hk; apply Hok; lia].
    assert (Hcon : contribution blk calls n
                   = Some (TraceCallTraces.set_output ("0x" +:+ to_hex (er_data er)) tr)).
    { unfold TraceCallExecutor.contribution, TraceCallExecutor.outcome.
      rewrite Hc. simpl. rewrite Hrun. reflexivity. }
    cbn [TraceManyCallResult.traces TraceManyCallResult.pre_check_error length seq map].
    replace (omap (contribution blk calls) (n :: seq (S n) (length rest)))
      with (TraceCallTraces.set_output ("0x" +:+ to_hex (er_data er)) tr
            :: omap (contribution blk calls) (seq (S n) (length rest)))
      by (simpl; rewrite Hcon; reflexivity).
    rewrite <- !app_assoc. reflexivity.
Qed.

Lemma trace_calls_loop_fails (blk : TraceCallExecutor.Block)
    (calls : list TraceCallExecutor.TraceCall) (i : nat) (m : string)
    (er : ExecutionResult) (tr : TraceCallTraces.t) :
  outcome blk calls i = Some (er, tr) ->
  er_pre_check_error er = Some m ->
  (forall k, k < i -> passes blk calls k) ->
  forall (rest : list TraceCallExecutor.TraceCall) (n : nat)
         (result : TraceManyCallResult.t) (called : list Z),
    n <= i ->
    drop n calls = rest ->
    trace_calls_loop blk rest (Z.of_nat n) (executor_before blk calls n) result called
    = ({| TraceManyCallResult.traces := [];
          TraceManyCallResult.pre_check_error :=
            Some ("first run for txIndex " +:+ to_string_int (Z.of_nat i)
                  +:+ " error: " +:+ m) |},
       called ++ map Z.of_nat (seq n (S i - n))).
Proof.
  intros Hout Hm Hok.
  assert (Hi : i < length calls).
  { unfold TraceCallExecutor.outcome in Hout.
    destruct (calls !! i) eqn:E; [|discriminate]. eapply lookup_lt_Some; exact E. }
  induction rest as [|c rest IH]; intros n result called Hn Hdrop.
  - exfalso. apply (f_equal length) in Hdrop. rewrite length_drop in Hdrop.
    simpl in Hdrop. lia.
  - assert (Hc : calls !! n = Some c).
    { rewrite <- (Nat.add_0_r n), <- lookup_drop, Hdrop. reflexivity. }
    assert (Hrest : drop (S n) calls = rest).
    { pose proof (drop_S _ _ _ Hc) as Hd. rewrite Hdrop in Hd. congruence. }
    cbn [TraceCallExecutor.trace_calls_loop].
    destruct (run_call blk (Z.of_nat n) c (executor_before blk calls n))
      as [[e' er'] tr'] eqn:Hrun.
    destruct (decide (n = i)) as [->|Hne].
    + unfold TraceCallExecutor.outcome in Hout. rewrite Hc in Hout. simpl in Hout.
      rewrite Hrun in Hout. simpl in Hout. injection Hout as -> ->.
      rewrite Hm. replace (S i - i) with 1 by lia. reflexivity.
    + destruct (Hok n) as (er0 & tr0 & Hout0 & Hpc); [lia|].
      unfold TraceCallExecutor.outcome in Hout0. rewrite Hc in Hout0. simpl in Hout0.
      rewrite Hrun in Hout0. simpl in Hout0. injection Hout0 as -> ->.
      rewrite Hpc.
      replace (Z.of_nat n + 1)%Z with (Z.of_nat (S n)) by lia.
      replace (executor_reset e') with (executor_before blk calls (S n))
        by (rewrite (executor_before_S _ _ _ c Hc), Hrun; reflexivity).
      rewrite IH; [|lia|exact Hrest].
      replace (S i - n) with (S (S i - S n)) by lia.
      cbn [seq map]. rewrite <- app_assoc. reflexivity.
Qed.

(** C9. If the call at index [i] is the first of the batch to return a
    pre-check error, with message [m], the result of [trace_calls] has no
    traces, its [pre_check_error] is ["first run for txIndex "], [i],
    [" error: "] and [m], and the executor was called for the indices [0] to
    [i] only; if every call passes the pre-check, every call contributes its
    [TraceCallTraces], in order. *)
Theorem trace_calls_first_pre_check_error
    (blk : TraceCallExecutor.Block) (calls : list TraceCallExecutor.TraceCall) :
  (forall (i : nat) (m : string) (er : ExecutionResult) (tr : TraceCallTraces.t),
      outcome blk calls i = Some (er, tr) ->
      er_pre_check_error er = Some m ->
      (forall k, k < i -> passes blk calls k) ->
      trace_calls blk calls
      = ({| TraceManyCallResult.traces := [];
            TraceManyCallResult.pre_check_error :=
              Some ("first run for txIndex " +:+ to_string_int (Z.of_nat i)
                    +:+ " error: " +:+ m) |},
         map Z.of_nat (seq 0 (S i))))
  /\ ((forall k, k < length calls -> passes blk calls k) ->
      exists traces,
        trace_calls blk calls
        = ({| TraceManyCallResult.traces := traces;
              TraceManyCallResult.pre_check_error := None |},
           map Z.of_nat (seq 0 (length calls)))
        /\ length traces = length calls
        /\ forall k, k < length calls -> traces !! k = contribution blk calls k).
Proof.
  split.
  - intros i m er tr Hout Hm Hok.
    unfold TraceCallExecutor.trace_calls.
    pose proof (trace_calls_loop_fails blk calls i m er tr Hout Hm Hok calls 0
                  {| TraceManyCallResult.traces := [];
                     TraceManyCallResult.pre_check_error := None |} []) as H.
    rewrite Nat.sub_0_r in H. apply H; [lia|reflexivity].
  - intros Hok.
    unfold TraceCallExecutor.trace_calls.
    pose proof (trace_calls_loop_passes blk calls calls 0
                  {| TraceManyCallResult.traces := [];
                     TraceManyCallResult.pre_check_error := None |} []) as H.
    cbn [TraceCallExecutor.executor_before app TraceManyCallResult.traces
         TraceManyCallResult.pre_check_error] in H.
    change (Z.of_nat 0) with 0%Z in H.
    rewrite H; [|reflexivity|intros k Hk; apply Hok; lia].
    eexists. split; [reflexivity|].
    assert (Hall : forall k, k < length calls ->
                   is_Some (contribution blk calls k)).
    { intros k Hk. destruct (Hok k Hk) as (er & tr & Hout & _).
      unfold TraceCallExecutor.contribution. rewrite Hout. simpl. eauto. }
    assert (Hgen : forall cnt n, n + cnt <= length calls ->
              length (omap (contribution blk calls) (seq n cnt)) = cnt
              /\ forall j, j < cnt ->
                   omap (contribution blk calls) (seq n cnt) !! j
                   = contribution blk calls (n + j)).
    { induction cnt as [|cnt IHl]; intros n Hn.
      - split; [reflexivity|]. intros j Hj. lia.
      - destruct (Hall n) as [x Hx]; [lia|].
        destruct (IHl (S n)) as [IH1 IH2]; [lia|].
        change (seq n (S cnt)) with (n :: seq (S n) cnt).
        replace (omap (contribution blk calls) (n :: seq (S n) cnt))
          with (x :: omap (contribution blk calls) (seq (S n) cnt))
          by (simpl; rewrite Hx; reflexivity).
        split; [simpl; now rewrite IH1|].
        intros [|j] Hj.
        + rewrite Nat.add_0_r. simpl. now rewrite Hx.
        + change ((x :: omap (contribution blk calls) (seq (S n) cnt)) !! S j)
            with (omap (contribution blk calls) (seq (S n) cnt) !! j).
          rewrite IH2 by lia. f_equal. lia. }
    destruct (Hgen (length calls) 0) as [H1 H2]; [lia|].
    split; [exact H1|]. intros k Hk. exact (H2 k Hk).
Qed.

End Orchestration.

(** C1 as stated fails: on a chain whose configuration has no ["ethash"]
    entry, the list returned for a block with one transaction still ends
    with a reward trace; its value is zero. *)
Lemma trace_block_reward_without_ethash :
  let call_trace := Trace.set_type "call" Trace.default in
  let executor_call :=
    fun (e : unit) (_ : @TraceCallExecutor.Block unit) (_ : unit) (_ _ : bool)
        (_ : list Tracer) (traces : TraceCallTraces.t) =>
      (e, {| er_error_code := 0; er_gas_left := 0; er_data := [];
             er_pre_check_error := None |},
       {| TraceCallTraces.output := TraceCallTraces.output traces;
          TraceCallTraces.state_diff := TraceCallTraces.state_diff traces;
          TraceCallTraces.trace := [call_trace];
          TraceCallTraces.vm_trace := TraceCallTraces.vm_trace traces;
          TraceCallTraces.transaction_hash := TraceCallTraces.transaction_hash traces |}) in
  let chain_config :=
    {| TraceCallExecutor.chain_id := 15555;
       TraceCallExecutor.config := ({[ "trust" := tt ]} : gmap string unit) |} in
  let bwh :=
    {| TraceCallExecutor.block :=
         {| TraceCallExecutor.header_number := 7;
            TraceCallExecutor.header_beneficiary := 0xbe%N;
            TraceCallExecutor.transactions := [tt] |};
       TraceCallExecutor.hash := 0x1234 |} in
  TraceCallExecutor.config chain_config !! "ethash" = None
  /\ exists first final,
       TraceCallExecutor.trace_block (fun _ => true) (fun t => t) (fun _ => 0x99%N)
         (fun _ => tt) executor_call chain_config
         (fun _ _ => {| miner_reward := 2000000000000000000; ommer_rewards := [] |}) bwh
       = Some [first; final]
       /\ Trace.type first = "call"
       /\ Trace.type final = "reward"
       /\ Trace.action final
          = ActionReward {| RewardAction.author := 0xbe%N;
                            RewardAction.reward_type := "block";
                            RewardAction.value := 0 |}.
Proof.
  intros call_trace executor_call chain_config bwh.
  split; [reflexivity|].
  eexists. eexists. split; [reflexivity|]. repeat split.
Qed.

Lemma trace_calls_first_pre_check_error_witness :
  let executor_call :=
    fun (e : nat) (_ : @TraceCallExecutor.Block bool) (txn : bool) (_ _ : bool)
        (_ : list Tracer) (traces : TraceCallTraces.t) =>
      (S e, {| er_error_code := 0; er_gas_left := 0; er_data := [];
               er_pre_check_error := if txn then None else Some "insufficient funds" |},
       traces) in
  let blk := {| TraceCallExecutor.header_number := 7;
                TraceCallExecutor.header_beneficiary := 0xbe%N;
                TraceCallExecutor.transactions := [] |} in
  let cfg := {| cfg_vm_trace := false; cfg_trace := true; cfg_state_diff := false |} in
  let calls := [ {| TraceCallExecutor.call := true; TraceCallExecutor.trace_config := cfg |};
                 {| TraceCallExecutor.call := false; TraceCallExecutor.trace_config := cfg |};
                 {| TraceCallExecutor.call := true; TraceCallExecutor.trace_config := cfg |} ] in
  TraceCallExecutor.trace_calls (fun c : bool => c) (fun _ => 0) executor_call (fun _ => 0)
    blk calls
  = ({| TraceManyCallResult.traces := [];
        TraceManyCallResult.pre_check_error :=
          Some "first run for txIndex 1 error: insufficient funds" |},
     [0%Z; 1%Z]).
Proof.
  intros executor_call blk cfg calls.
  refine (proj1 (trace_calls_first_pre_check_error (fun c : bool => c) (fun _ => 0)
                   executor_call (fun _ => 0) blk calls) 1 "insufficient funds" _ _ _ _ _).
  - reflexivity.
  - reflexivity.
  - intros k Hk. assert (k = 0) as -> by lia.
    eexists. eexists. split; reflexivity.
Defined.

(** ** Capture helpers: the stack *)

Lemma copy_stack_loop_spec (stack_top : list N) :
  forall (top : nat) (trace_stack : list string),
    top <= length stack_top ->
    copy_stack_loop stack_top top trace_stack
    = Some (trace_stack
            ++ map (fun v => "0x" +:+ intx_to_string16 v) (rev (take top stack_top))).
Proof.
  induction top as [|i IH]; intros acc Hle; simpl.
  - now rewrite app_nil_r.
  - destruct (lookup_lt_is_Some_2 stack_top i) as [v Hv]; [lia|].
    unfold stack_at. rewrite Hv. simpl. rewrite IH by lia.
    rewrite (take_S_r _ _ _ Hv), rev_app_distr. simpl.
    now rewrite <- app_assoc.
Qed.

Lemma copy_stack_loop_short (stack_top : list N) :
  forall (top : nat) (trace_stack : list string),
    length stack_top < top -> copy_stack_loop stack_top top trace_stack = None.
Proof.
  induction top as [|i IH]; intros acc Hlt; simpl; [lia|].
  unfold stack_at. destruct (stack_top !! i) as [v|] eqn:Hv; simpl.
  - apply IH. apply lookup_lt_Some in Hv. lia.
  - reflexivity.
Qed.

Lemma get_stack_count_le (op_code : N) : get_stack_count op_code <= 17.
Proof.
  unfold get_stack_count, in_range.
  repeat match goal with
  | |- context [(?a <=? ?b)%N] => destruct (N.leb_spec a b); cbn [andb]
  end.
  all: unfold Op.PUSH1, Op.PUSH32, Op.SWAP1, Op.SWAP16, Op.DUP1, Op.DUP16 in *.
  all: try lia.
  all: destruct (existsb (N.eqb op_code) one_value_ops); lia.
Qed.

(** X1. [copy_stack] appends to the op's [push] list the top
    [get_stack_count] words of the stack, the deepest of them first and
    the top of the stack last, each as [0x] and minimal lower-case hex; it
    never appends more than 17 words and leaves the earlier entries as
    they are. *)
Theorem copy_stack_appends_top_words (op_code : N) (stack_top : list N)
    (trace_stack : list string) :
  get_stack_count op_code <= length stack_top ->
  copy_stack op_code stack_top trace_stack
  = Some (trace_stack
          ++ map (fun v => "0x" +:+ intx_to_string16 v)
                 (rev (take (get_stack_count op_code) stack_top)))
  /\ get_stack_count op_code <= 17.
Proof.
  intros H. split; [now apply copy_stack_loop_spec|apply get_stack_count_le].
Qed.

Lemma copy_stack_appends_top_words_witness :
  copy_stack Op.SWAP1 [1; 2; 3]%N ["0x9"]
  = Some (["0x9"] ++ map (fun v => "0x" +:+ intx_to_string16 v)
                        (rev (take (get_stack_count Op.SWAP1) [1; 2; 3]%N)))
  /\ get_stack_count Op.SWAP1 <= 17.
Proof. apply (copy_stack_appends_top_words Op.SWAP1 [1; 2; 3]%N ["0x9"]). vm_compute. lia. Defined.

(** ** Capture helpers: memory windows across two instructions *)

Lemma string_length_app (a b : string) :
  String.length (a +:+ b) = String.length a + String.length b.
Proof.
  induction a as [|x a IH]; [reflexivity|].
  change (S (String.length (a +:+ b)) = S (String.length a + String.length b)).
  now rewrite IH.
Qed.

Lemma to_hex_length (bs : list Byte.byte) : String.length (to_hex bs) = 2 * length bs.
Proof.
  induction bs as [|b bs IH]; [reflexivity|].
  change (to_hex (b :: bs)) with (hex_byte b +:+ to_hex bs).
  rewrite string_length_app, IH. unfold hex_byte. simpl. lia.
Qed.

(** X2. The memory window of an [MSTORE] or [MLOAD]: the window planted
    by [copy_memory_offset_len] when the instruction starts and filled by
    [copy_memory] when the next one starts is the 32 bytes of memory at
    the offset on top of the stack (its low 64 bits), provided they lie
    within the memory as it is then; [data] is [0x] and 64 digits. *)
Theorem word_access_captures_32_bytes (op_code : N) (o : N) (rest : list N)
    (mem : list Byte.byte) (tm0 : option TraceMemory) :
  op_code = Op.MSTORE \/ op_code = Op.MLOAD ->
  N.to_nat (limb0 o) + 32 <= length mem ->
  exists d,
    copy_memory_offset_len op_code (o :: rest) tm0 ≫= copy_memory mem
    = Some (Some {| offset := limb0 o; len := 32; data := d |})
    /\ d = "0x" +:+ to_hex (take 32 (drop (N.to_nat (limb0 o)) mem))
    /\ String.length d = 66.
Proof.
  intros Hop Hb.
  assert (E : copy_memory_offset_len op_code (o :: rest) tm0
              = Some (Some {| offset := limb0 o; len := 32; data := "" |})).
  { destruct Hop as [-> | ->]; reflexivity. }
  rewrite E. cbn [mbind option_bind].
  unfold copy_memory. cbn [len offset].
  change (32 =? 0)%N with false. change (INT_MAX <? 32)%N with false. cbn iota.
  rewrite copy_memory_loop_in_bounds
    by (rewrite N.add_0_r; change (N.to_nat 32) with 32; exact Hb).
  rewrite N.add_0_r. change (N.to_nat 32) with 32. cbn [mbind option_bind].
  eexists. split; [reflexivity|]. split; [reflexivity|].
  rewrite string_length_app, to_hex_length, length_take, length_drop.
  change (String.length "0x") with 2. lia.
Qed.

Lemma word_access_captures_32_bytes_witness :
  exists d,
    copy_memory_offset_len Op.MSTORE [0%N; 7%N] None
      ≫= copy_memory (repeat Byte.x00 32)
    = Some (Some {| offset := limb0 0; len := 32; data := d |})
    /\ d = "0x" +:+ to_hex (take 32 (drop (N.to_nat (limb0 0)) (repeat Byte.x00 32)))
    /\ String.length d = 66.
Proof.
  apply (word_access_captures_32_bytes Op.MSTORE 0 [7%N] (repeat Byte.x00 32) None).
  - left. reflexivity.
  - vm_compute. lia.
Defined.

(** X3. A [CREATE] or [CREATE2] leaves no memory window: the
    placeholder of length zero that [copy_memory_offset_len] plants is
    dropped by [copy_memory] at the next instruction, whatever the stack
    and the memory hold. *)
Theorem create_leaves_no_window (op_code : N) (stack_top : list N)
    (mem : list Byte.byte) (tm0 : option TraceMemory) :
  op_code = Op.CREATE \/ op_code = Op.CREATE2 ->
  copy_memory_offset_len op_code stack_top tm0 ≫= copy_memory mem = Some None.
Proof. intros [-> | ->]; reflexivity. Qed.

Lemma create_leaves_no_window_witness :
  copy_memory_offset_len Op.CREATE2 [] None ≫= copy_memory [] = Some None.
Proof. apply (create_leaves_no_window Op.CREATE2 [] [] None). right. reflexivity. Defined.

(** X4. [push_memory_offset_len] and [copy_memory_offset_len] agree on
    the instructions that enter a frame: for the four calls and the two
    creates the window pushed is the one [copy_memory_offset_len] plants,
    and for every other opcode the stack of windows is left as it is. *)
Theorem push_memory_offset_len_agrees (op_code : N) (stack_top : list N)
    (tms : list TraceMemory) :
  push_memory_offset_len op_code stack_top tms
  = match VmTraceTracer.operands op_code with
    | Some _ =>
        w ← copy_memory_offset_len op_code stack_top None;
        tm ← w;
        Some (tm :: tms)
    | None => Some tms
    end.
Proof.
  unfold push_memory_offset_len, VmTraceTracer.operands, copy_memory_offset_len, window.
  destruct (N.eqb_spec op_code Op.STATICCALL) as [->|H1].
  { cbn. destruct (stack_at stack_top 4); cbn; [|reflexivity].
    destruct (stack_at stack_top 5); reflexivity. }
  destruct (N.eqb_spec op_code Op.DELEGATECALL) as [->|H2].
  { cbn. destruct (stack_at stack_top 4); cbn; [|reflexivity].
    destruct (stack_at stack_top 5); reflexivity. }
  destruct (N.eqb_spec op_code Op.CALL) as [->|H3].
  { cbn. destruct (stack_at stack_top 5); cbn; [|reflexivity].
    destruct (stack_at stack_top 6); reflexivity. }
  destruct (N.eqb_spec op_code Op.CALLCODE) as [->|H4].
  { cbn. destruct (stack_at stack_top 5); cbn; [|reflexivity].
    destruct (stack_at stack_top 6); reflexivity. }
  destruct (N.eqb_spec op_code Op.CREATE) as [->|H5]; [reflexivity|].
  destruct (N.eqb_spec op_code Op.CREATE2) as [->|H6]; [reflexivity|].
  reflexivity.
Qed.

(** ** Storage keys: [to_string] and [bytes32_from_hex] *)

Lemma raw_to_N_digits (d : Hexadecimal.uint) :
  forall acc : positive,
    HexString.Raw.to_N (HexadecimalString.NilEmpty.string_of_uint d) (N.pos acc)
    = N.pos (Pos.of_hex_uint_acc d acc).
Proof.
  induction d; intros acc; [reflexivity|..]; cbn -[Pos.mul Pos.add N.mul N.add];
    rewrite <- IHd; reflexivity.
Qed.

Lemma raw_to_N_uint (d : Hexadecimal.uint) :
  HexString.Raw.to_N (HexadecimalString.NilEmpty.string_of_uint d) 0 = N.of_hex_uint d.
Proof.
  induction d; [reflexivity|exact IHd|..]; cbn -[Pos.of_hex_uint_acc];
    apply raw_to_N_digits.
Qed.

Lemma raw_to_N_intx (v : N) : HexString.Raw.to_N (intx_to_string16 v) 0 = v.
Proof.
  unfold intx_to_string16.
  rewrite <- (HexadecimalN.Unsigned.of_to v) at 2.
  destruct (N.to_hex_uint v) eqn:E; [reflexivity|..]; rewrite <- raw_to_N_uint; reflexivity.
Qed.

Lemma string_of_uint_length (d : Hexadecimal.uint) :
  String.length (HexadecimalString.NilEmpty.string_of_uint d) = Hexadecimal.nb_digits d.
Proof. induction d; simpl; congruence. Qed.

Lemma usize_nb_digits (d : Hexadecimal.uint) :
  HexadecimalPos.Unsigned.usize d = N.of_nat (Hexadecimal.nb_digits d).
Proof. induction d; simpl HexadecimalPos.Unsigned.usize; simpl Hexadecimal.nb_digits; lia. Qed.

Lemma of_hex_uint_acc_lower (d : Hexadecimal.uint) (acc : positive) :
  (16 ^ N.of_nat (Hexadecimal.nb_digits d) <= N.pos (Pos.of_hex_uint_acc d acc))%N.
Proof.
  rewrite HexadecimalPos.Unsigned.of_uint_acc_rev, usize_nb_digits.
  assert (0 < 16 ^ N.of_nat (Hexadecimal.nb_digits d))%N
    by (apply N.neq_0_lt_0, N.pow_nonzero; lia).
  nia.
Qed.

(** A 256-bit word has at most 64 hexadecimal digits. *)
Lemma intx_to_string16_length (v : N) :
  (v < 2 ^ 256)%N -> 1 <= String.length (intx_to_string16 v) <= 64.
Proof.
  intros Hv. unfold intx_to_string16.
  pose proof (HexadecimalN.Unsigned.of_to v) as Hof.
  pose proof (HexadecimalN.Unsigned.to_of (N.to_hex_uint v)) as Hto.
  rewrite Hof in Hto.
  assert (Hbig : forall l acc, v = N.pos (Pos.of_hex_uint_acc l acc) ->
                               Hexadecimal.nb_digits l < 64).
  { intros l acc E. pose proof (of_hex_uint_acc_lower l acc) as Hl. rewrite <- E in Hl.
    destruct (Nat.lt_ge_cases (Hexadecimal.nb_digits l) 64) as [?|Hge]; [assumption|].
    exfalso. assert (16 ^ 64 <= 16 ^ N.of_nat (Hexadecimal.nb_digits l))%N
      by (apply N.pow_le_mono_r; lia).
    change (2 ^ 256)%N with (16 ^ 64)%N in Hv. lia. }
  destruct (N.to_hex_uint v) as [|l|l|l|l|l|l|l|l|l|l|l|l|l|l|l|l] eqn:E.
  1: { simpl. lia. }
  1: { (* a leading zero: the numeral is the single digit 0 *)
    unfold Hexadecimal.unorm in Hto. simpl Hexadecimal.nzhead in Hto.
    destruct (Hexadecimal.nzhead l) eqn:El; try discriminate Hto.
    - injection Hto as ->. simpl. lia.
    - exfalso. revert El. apply HexadecimalFacts.nzhead_nonzero. }
  all: unfold N.of_hex_uint in Hof; simpl Pos.of_hex_uint in Hof;
    symmetry in Hof; apply Hbig in Hof;
    change (HexadecimalString.NilZero.string_of_uint ?d)
      with (HexadecimalString.NilEmpty.string_of_uint d);
    rewrite string_of_uint_length; simpl Hexadecimal.nb_digits; lia.
Qed.

Lemma padding_prefix_reads_as_zero (k : nat) (s : string) :
  k <= 64 ->
  HexString.to_N (String.substring 0 (String.length PADDING - k) PADDING +:+ s)
  = HexString.Raw.to_N s 0
  /\ String.length (String.substring 0 (String.length PADDING - k) PADDING) = 66 - k.
Proof.
  intros Hk. do 65 (destruct k as [|k]; [split; reflexivity|]). lia.
Qed.

Lemma to_string_length (v : N) : (v < 2 ^ 256)%N -> String.length (to_string v) = 66.
Proof.
  intros Hv. pose proof (intx_to_string16_length v Hv) as Hlen.
  destruct (padding_prefix_reads_as_zero (String.length (intx_to_string16 v))
              (intx_to_string16 v)) as [_ Hpad]; [lia|].
  unfold to_string. cbv zeta. rewrite string_length_app, Hpad. lia.
Qed.

Lemma bytes32_from_hex_to_string (v : N) :
  (v < 2 ^ 256)%N -> bytes32_from_hex (to_string v) = v.
Proof.
  intros Hv. pose proof (intx_to_string16_length v Hv) as Hlen.
  destruct (padding_prefix_reads_as_zero (String.length (intx_to_string16 v))
              (intx_to_string16 v)) as [Hread _]; [lia|].
  unfold to_string, bytes32_from_hex. cbv zeta. rewrite Hread. apply raw_to_N_intx.
Qed.

(** X5. [to_string] is the fixed-width form of a storage key: for a
    256-bit word the result has exactly 66 characters, and
    [bytes32_from_hex] reads the word back from it. So the key the state
    diff tracer looks up at the end of a transaction is the one the
    [SSTORE] was given, and different slots have different keys. *)
Theorem to_string_fixed_width_round_trip (v w : N) :
  (v < 2 ^ 256)%N -> (w < 2 ^ 256)%N ->
  String.length (to_string v) = 66
  /\ bytes32_from_hex (to_string v) = v
  /\ (to_string v = to_string w -> v = w).
Proof.
  intros Hv Hw. split; [now apply to_string_length|].
  split; [now apply bytes32_from_hex_to_string|].
  intros E. rewrite <- (bytes32_from_hex_to_string v Hv), E.
  now apply bytes32_from_hex_to_string.
Qed.

Lemma to_string_fixed_width_round_trip_witness :
  String.length (to_string 255) = 66
  /\ bytes32_from_hex (to_string 255) = 255%N
  /\ (to_string 255 = to_string 256 -> 255%N = 256%N).
Proof.
  apply (to_string_fixed_width_round_trip 255 256); vm_compute; reflexivity.
Defined.

(** ** VmTraceTracer: the index labels *)

Lemma prefix_of_app (p q : path) :
  forall base, prefix_of base (p ++ q) = prefix_of (prefix_of base p) q.
Proof. induction p as [|i p IH]; intros base; simpl; [reflexivity|apply IH]. Qed.

Lemma well_indexed_node (base : string) (t : VmTrace) :
  well_indexed base t <->
  (forall i op, ops t !! i = Some op ->
     idx op = base +:+ to_string_dec (N.of_nat i)
     /\ forall s, sub op = Some s ->
          well_indexed (base +:+ to_string_dec (N.of_nat i) +:+ "-") s).
Proof.
  split.
  - intros H i op Hop. split.
    + apply (H [] t i op); [reflexivity|exact Hop].
    + intros s Hs q vt j opj Hget Hj.
      apply (H (i :: q) vt j opj); [|exact Hj].
      simpl. rewrite Hop. simpl. rewrite Hs. simpl. exact Hget.
  - intros H [|i q] vt j opj Hget Hj; simpl in Hget.
    + injection Hget as <-. apply (H j opj Hj).
    + destruct (ops t !! i) as [op|] eqn:Hop; simpl in Hget; [|discriminate].
      destruct (sub op) as [s|] eqn:Hs; simpl in Hget; [|discriminate].
      destruct (H i op Hop) as [_ Hsub]. apply (Hsub s Hs q vt j opj Hget Hj).
Qed.

Lemma well_indexed_get (p : path) (base : string) (t vt : VmTrace) :
  well_indexed base t -> get p t = Some vt -> well_indexed (prefix_of base p) vt.
Proof.
  intros H Hget q v j opj Hq Hj. rewrite <- prefix_of_app.
  apply (H (p ++ q) v j opj); [|exact Hj]. rewrite get_app, Hget. exact Hq.
Qed.

Lemma well_indexed_no_ops (base : string) (t : VmTrace) : ops t = [] -> well_indexed base t.
Proof. intros E. apply well_indexed_node. intros i op Hop. rewrite E in Hop. discriminate. Qed.

(** A node stays well indexed when its ops are replaced by ops that
    carry the label of their position and whose [sub], if any, is the
    well-indexed one of the op that was there, or has no ops. *)
Lemma well_indexed_set_ops (base : string) (t : VmTrace) (l : list TraceOp) :
  well_indexed base t ->
  (forall i op', l !! i = Some op' ->
     idx op' = base +:+ to_string_dec (N.of_nat i)
     /\ forall s, sub op' = Some s ->
          ops s = [] \/ exists op, ops t !! i = Some op /\ sub op = Some s) ->
  well_indexed base (set_ops l t).
Proof.
  intros H Hl. apply well_indexed_node. intros i op' Hop'. simpl in Hop'.
  destruct (Hl i op' Hop') as [Hidx Hsub]. split; [exact Hidx|].
  intros s Hs. destruct (Hsub s Hs) as [E|(op & Hop & Hso)].
  - now apply well_indexed_no_ops.
  - destruct (proj1 (well_indexed_node base t) H i op Hop) as [_ Hs']. now apply Hs'.
Qed.

Lemma well_indexed_upd (p : path) (vt' : VmTrace) :
  forall (base : string) (t : VmTrace),
    well_indexed base t -> well_indexed (prefix_of base p) vt' ->
    well_indexed base (upd p (fun _ => vt') t).
Proof.
  induction p as [|i p IH]; intros base t Ht Hvt; simpl in *; [exact Hvt|].
  destruct (ops t !! i) as [op|] eqn:Hop; [|exact Ht].
  destruct (sub op) as [s|] eqn:Hs; [|exact Ht].
  pose proof (proj1 (well_indexed_node base t) Ht) as Hn.
  apply well_indexed_node. intros j opj Hj. simpl in Hj.
  destruct (decide (j = i)) as [->|Hne].
  - rewrite list_lookup_insert_eq in Hj by (eapply lookup_lt_Some; eassumption).
    injection Hj as <-. destruct (Hn i op Hop) as [Hidx Hsub]. split; [exact Hidx|].
    intros s' Hs'. simpl in Hs'. injection Hs' as <-. apply IH; [now apply Hsub|exact Hvt].
  - rewrite list_lookup_insert_ne in Hj by congruence. now apply Hn.
Qed.

Lemma prefixes_agree_invalidate (base : string) (x : path) (st : list frame_ref)
    (pf : list string) :
  prefixes_agree base st pf -> prefixes_agree base (invalidate x st) pf.
Proof.
  unfold prefixes_agree. induction 1 as [|r pre st pf Hr HF IH]; simpl; constructor; [|exact IH].
  intros p Hp. destruct r as [q|]; [|discriminate].
  destruct (below x q); [discriminate|]. now apply Hr.
Qed.

Lemma prefixes_agree_tail (base : string) (st : list frame_ref) (pf : list string) :
  prefixes_agree base st pf -> prefixes_agree base (tail st) (tail pf).
Proof. unfold prefixes_agree. destruct 1; simpl; [constructor|assumption]. Qed.

Lemma set_last_lookup (op' : TraceOp) (l : list TraceOp) (i : nat) (x : TraceOp) :
  set_last op' l !! i = Some x ->
  (i = length l - 1 /\ x = op' /\ 0 < length l) \/ l !! i = Some x.
Proof.
  unfold set_last. intros H.
  destruct (decide (i = length l - 1)) as [->|Hne].
  - destruct (decide (0 < length l)) as [Hl|Hl].
    + rewrite list_lookup_insert_eq in H by lia. injection H as <-. left. auto.
    + destruct l; [discriminate|simpl in Hl; lia].
  - rewrite list_lookup_insert_ne in H by congruence. right. exact H.
Qed.

(** Replacing the tail op by one with the same label whose [sub] is kept
    or made fresh keeps the node well indexed. *)
Lemma well_indexed_set_last (base : string) (t : VmTrace) (op op' : TraceOp) :
  well_indexed base t ->
  ops_back 1 (ops t) = Some op ->
  idx op' = idx op ->
  (forall s, sub op' = Some s -> ops s = [] \/ sub op = Some s) ->
  well_indexed base (set_ops (set_last op' (ops t)) t).
Proof.
  intros Ht Hop Hidx Hsub. apply well_indexed_set_ops; [exact Ht|].
  pose proof (proj1 (well_indexed_node base t) Ht) as Hn.
  assert (Hlast : ops t !! (length (ops t) - 1) = Some op).
  { unfold ops_back in Hop. destruct (decide (1 <= length (ops t))); [exact Hop|discriminate]. }
  intros i x Hx. apply set_last_lookup in Hx. destruct Hx as [(-> & -> & _)|Hx].
  - destruct (Hn _ _ Hlast) as [Hi _]. split; [congruence|].
    intros s Hs. destruct (Hsub s Hs) as [E|E]; [left; exact E|right; eauto].
  - destruct (Hn _ _ Hx) as [Hi _]. split; [exact Hi|]. intros s Hs. right. eauto.
Qed.

Section IndexLabels.
Context {evmc_revision : Type}.
Variable names : evmc_revision -> N -> option string.
Variable index : Z.

(** The labels are right and the two stacks go together. *)
Local Abbreviation labelled s :=
  (VmTraceTracer.transaction_index_ s = index
   /\ well_indexed (root_prefix index) (VmTraceTracer.vm_trace_ s)
   /\ prefixes_agree (root_prefix index) (VmTraceTracer.traces_stack_ s)
        (VmTraceTracer.index_prefix_ s)).

Lemma top_prefix (s : VmTraceTracer.t) (p : path) (vt : VmTrace) (pre : string) :
  labelled s ->
  VmTraceTracer.top_trace s = Some (p, vt) ->
  head (VmTraceTracer.index_prefix_ s) = Some pre ->
  pre = prefix_of (root_prefix index) p
  /\ get p (VmTraceTracer.vm_trace_ s) = Some vt
  /\ well_indexed (prefix_of (root_prefix index) p) vt.
Proof.
  intros (_ & Hwi & Hpa) Htop Hpre.
  destruct (top_trace_inv s p vt Htop) as (st0 & Hst & Hget).
  rewrite Hst in Hpa. inversion Hpa as [|r pre0 st1 pf1 Hr HF E1 E2]. subst.
  rewrite <- E2 in Hpre. simpl in Hpre. injection Hpre as ->.
  split; [now apply Hr|]. split; [exact Hget|]. eapply well_indexed_get; eauto.
Qed.

Lemma labelled_start (rev : evmc_revision) (msg : evmc_message) (code : list Byte.byte)
    (s s' : VmTraceTracer.t) :
  labelled s ->
  VmTraceTracer.on_execution_start names rev msg code s = Some s' ->
  labelled s'.
Proof.
  intros HL. pose proof HL as (Hix & Hwi & Hpa). unfold VmTraceTracer.on_execution_start.
  destruct (Z.eqb_spec (msg_depth msg) 0) as [Hd|Hd].
  - cbn. intros H. injection H as <-. cbn. split; [exact Hix|]. split.
    + apply well_indexed_node. intros i op Hop. simpl in Hop.
      now apply (proj1 (well_indexed_node _ _) Hwi).
    + constructor; [|exact Hpa]. intros p Hp. injection Hp as <-.
      rewrite Hix. reflexivity.
  - destruct (decide (0 < length (ops (VmTraceTracer.vm_trace_ s)))) as [Hroot|Hroot].
    + destruct (VmTraceTracer.top_trace s) as [[p vt]|] eqn:Htop; cbn; [|discriminate].
      destruct (head (VmTraceTracer.index_prefix_ s)) as [pre|] eqn:Hpre; cbn; [|discriminate].
      destruct (VmTraceTracer.enter_sub msg ("0x" +:+ to_hex code) vt) as [vt'|] eqn:He; cbn;
        [|discriminate].
      intros H. injection H as <-. cbn.
      destruct (top_prefix s p vt pre HL Htop Hpre) as (-> & Hget & Hvt).
      split; [exact Hix|]. split.
      * apply well_indexed_upd; [exact Hwi|].
        unfold VmTraceTracer.enter_sub in He.
        destruct (ops_back 1 (ops vt)) as [op|] eqn:Hop; cbn in He; [|discriminate].
        destruct (VmTraceTracer.is_call_op (op_code op)).
        -- destruct (ops_back 2 (ops vt)) as [op_1|]; cbn in He; [|discriminate].
           injection He as <-.
           apply (well_indexed_set_last _ vt op); auto.
           intros s0 Hs0. cbn in Hs0. injection Hs0 as <-. left. reflexivity.
        -- cbn in He. injection He as <-.
           apply (well_indexed_set_last _ vt op); auto.
           intros s0 Hs0. cbn in Hs0. injection Hs0 as <-. left. reflexivity.
      * constructor.
        -- intros q Hq. injection Hq as <-. rewrite prefix_of_app. reflexivity.
        -- now apply prefixes_agree_invalidate.
    + cbn. destruct (head (VmTraceTracer.index_prefix_ s)); cbn; [|discriminate].
      intros H. injection H as <-. cbn. auto.
Qed.

Lemma labelled_instruction (pc : N) (stack_top : list N) (stack_height : Z)
    (es : ExecutionState) (s s' : VmTraceTracer.t) :
  labelled s ->
  VmTraceTracer.on_instruction_start pc stack_top stack_height es s = Some s' ->
  labelled s'.
Proof.
  intros HL. pose proof HL as (Hix & Hwi & Hpa). unfold VmTraceTracer.on_instruction_start.
  intros H.
  destruct (es_code es !! N.to_nat pc) as [b|]; cbn in H; [|discriminate].
  destruct (VmTraceTracer.opcode_names_ s) as [nm|]; cbn in H; [|discriminate].
  destruct (VmTraceTracer.top_trace s) as [[p vt]|] eqn:Htop; cbn in H; [|discriminate].
  assert (Hfin : forall ops1 pre m sto,
            head (VmTraceTracer.index_prefix_ s) = Some pre ->
            well_indexed (prefix_of (root_prefix index) p) (set_ops ops1 vt) ->
            length ops1 = length (ops vt) ->
            (forall i x, ops1 !! i = Some x -> exists op, ops vt !! i = Some op /\ sub x = sub op) ->
            well_indexed (root_prefix index)
              (upd p (fun _ =>
                 set_ops (ops1 ++ [mkTraceOp (es_gas_left es)
                   {| memory := m; stack := []; storage := sto; used := 0 |}
                   (pre +:+ to_string_dec (N.of_nat (length ops1))) (msg_depth (es_msg es))
                   (Byte.to_N b)
                   (if String.eqb (get_op_name nm (Byte.to_N b)) "KECCAK256" then "SHA3"
                    else get_op_name nm (Byte.to_N b))
                   pc None None None]) vt) (VmTraceTracer.vm_trace_ s))).
  { intros ops1 pre m sto Hpre H1 Hlen Hsubs.
    destruct (top_prefix s p vt pre HL Htop Hpre) as (-> & Hget & Hvt).
    apply well_indexed_upd; [exact Hwi|].
    apply well_indexed_set_ops; [exact Hvt|].
    pose proof (proj1 (well_indexed_node _ _) H1) as Hn1.
    intros i x Hx. destruct (decide (i < length ops1)) as [Hlt|Hge].
    - rewrite lookup_app_l in Hx by exact Hlt.
      destruct (Hn1 i x Hx) as [Hi _]. split; [exact Hi|].
      intros s0 Hs0. right. destruct (Hsubs i x Hx) as (op & Hop & Hso).
      exists op. split; [exact Hop|congruence].
    - rewrite lookup_app_r in Hx by lia.
      destruct (i - length ops1) as [|k] eqn:Hk; [|destruct k; discriminate].
      injection Hx as <-. cbn. assert (i = length ops1) as -> by lia.
      split; [reflexivity|]. intros s0 Hs0. discriminate. }
  destruct (ops_back 1 (ops vt)) as [op|] eqn:Hop.
  - destruct (VmTraceTracer.finalize_previous stack_top es op) as [op'|] eqn:Hfp;
      cbn in H; [|discriminate].
    destruct (head (VmTraceTracer.index_prefix_ s)) as [pre|] eqn:Hpre; cbn in H; [|discriminate].
    destruct (copy_memory_offset_len _ stack_top None) as [m|]; cbn in H; [|discriminate].
    destruct (copy_store _ stack_top None) as [sto|]; cbn in H; [|discriminate].
    injection H as <-. cbn. split; [exact Hix|]. split; [|exact Hpa].
    assert (Hop' : idx op' = idx op /\ sub op' = sub op).
    { unfold VmTraceTracer.finalize_previous in Hfp.
      destruct (copy_memory _ _); cbn in Hfp; [|discriminate].
      destruct (copy_stack _ _ _); cbn in Hfp; [|discriminate].
      injection Hfp as <-. split; reflexivity. }
    destruct Hop' as [Hi Hs].
    destruct (top_prefix s p vt pre HL Htop Hpre) as (_ & _ & Hvt).
    apply Hfin; [reflexivity| | |].
    + apply (well_indexed_set_last _ vt op); auto. intros s0 Hs0. right. congruence.
    + apply length_insert.
    + intros i x Hx. apply set_last_lookup in Hx. destruct Hx as [(-> & -> & _)|Hx].
      * exists op. split; [|exact Hs]. unfold ops_back in Hop.
        destruct (decide (1 <= length (ops vt))); [exact Hop|discriminate].
      * eauto.
  - cbn in H.
    destruct (head (VmTraceTracer.index_prefix_ s)) as [pre|] eqn:Hpre; cbn in H; [|discriminate].
    destruct (copy_memory_offset_len _ stack_top None) as [m|]; cbn in H; [|discriminate].
    destruct (copy_store _ stack_top None) as [sto|]; cbn in H; [|discriminate].
    injection H as <-. cbn. split; [exact Hix|]. split; [|exact Hpa].
    destruct (top_prefix s p vt pre HL Htop Hpre) as (_ & _ & Hvt).
    apply Hfin; [reflexivity| |reflexivity|eauto].
    apply well_indexed_node. intros i x Hx. simpl in Hx.
    now apply (proj1 (well_indexed_node _ _) Hvt).
Qed.
Lemma labelled_precompiled (result : evmc_result) (gas : Z) (s s' : VmTraceTracer.t) :
  labelled s ->
  VmTraceTracer.on_precompiled_run result gas s = Some s' ->
  labelled s'.
Proof.
  intros (Hix & Hwi & Hpa). unfold VmTraceTracer.on_precompiled_run.
  destruct (ops_back 1 (ops (VmTraceTracer.vm_trace_ s))) as [op|] eqn:Hop.
  - intros H. injection H as <-. cbn. split; [exact Hix|]. split.
    + apply (well_indexed_set_last _ _ op); auto.
      intros s0 Hs0. cbn in Hs0. injection Hs0 as <-. left. reflexivity.
    + now apply prefixes_agree_invalidate.
  - intros H. injection H as <-. auto.
Qed.

Lemma finalize_tail_label (status : evmc_status_code) (start_gas gas_left : Z) (op : TraceOp) :
  idx (VmTraceTracer.finalize_tail status start_gas gas_left op) = idx op
  /\ sub (VmTraceTracer.finalize_tail status start_gas gas_left op) = sub op.
Proof. destruct status; split; reflexivity. Qed.

Lemma labelled_end (result : evmc_result) (s s' : VmTraceTracer.t) :
  labelled s ->
  VmTraceTracer.on_execution_end result s = Some s' ->
  labelled s'.
Proof.
  intros HL. pose proof HL as (Hix & Hwi & Hpa). unfold VmTraceTracer.on_execution_end.
  destruct (VmTraceTracer.top_trace s) as [[p vt]|] eqn:Htop; cbn; [|discriminate].
  destruct (head (VmTraceTracer.start_gas_ s)) as [g|]; cbn; [|discriminate].
  destruct (head (VmTraceTracer.index_prefix_ s)) as [pre|] eqn:Hpre; cbn; [|discriminate].
  intros H. injection H as <-. cbn.
  destruct (top_prefix s p vt pre HL Htop Hpre) as (_ & _ & Hvt).
  split; [exact Hix|]. split; [|now apply prefixes_agree_tail].
  apply well_indexed_upd; [exact Hwi|].
  unfold VmTraceTracer.close_frame.
  destruct (ops_back 1 (ops vt)) as [op|] eqn:Hop; [|exact Hvt].
  destruct ((op_code op =? Op.STOP)%N && Nat.eqb (length (ops vt)) 1).
  - now apply well_indexed_no_ops.
  - destruct (finalize_tail_label (status_code result) g (gas_left result) op) as [Hi Hs].
    apply (well_indexed_set_last _ vt op); auto. intros s0 Hs0. right. congruence.
Qed.

Lemma labelled_run (es : list VmTraceTracer.event) :
  forall s s', labelled s -> VmTraceTracer.run names es s = Some s' -> labelled s'.
Proof.
  induction es as [|e es IH]; intros s s' HL Hrun; simpl in Hrun.
  - injection Hrun as <-. exact HL.
  - destruct (VmTraceTracer.step names e s) as [s1|] eqn:Hs; simpl in Hrun; [|discriminate].
    apply (IH s1 s'); [|exact Hrun].
    destruct e; simpl in Hs;
      eauto using labelled_start, labelled_instruction, labelled_precompiled, labelled_end.
Qed.

(** X6. The index labels of the per-opcode trace spell the position of
    every op: after any sequence of callbacks on a tracer built with
    transaction index [index] on an empty trace, the op at position [i] of
    the node reached from the root through the ops at positions [p] has
    [idx] equal to the transaction prefix (empty for index -1), the
    positions of [p] each followed by a dash, and [i]. *)
Theorem idx_labels_spell_positions (es : list VmTraceTracer.event) (s : VmTraceTracer.t) :
  VmTraceTracer.run names es (VmTraceTracer.make empty_VmTrace index) = Some s ->
  well_indexed (root_prefix index) (VmTraceTracer.vm_trace_ s).
Proof.
  intros Hrun.
  apply (labelled_run es (VmTraceTracer.make empty_VmTrace index) s); [|exact Hrun].
  cbn. split; [reflexivity|]. split; [now apply well_indexed_no_ops|constructor].
Qed.

End IndexLabels.
Lemma idx_labels_spell_positions_witness :
  well_indexed (root_prefix 3)
    (VmTraceTracer.vm_trace_
       (Scenario.after 3 (Scenario.into_the_callee
          ++ [VmTraceTracer.InstructionStart 0 [] 0 (Scenario.inner_at_gas 30000)]))).
Proof.
  apply (idx_labels_spell_positions Scenario.names 3
           (Scenario.into_the_callee
            ++ [VmTraceTracer.InstructionStart 0 [] 0 (Scenario.inner_at_gas 30000)])).
  vm_compute. reflexivity.
Defined.

(** ** VmTraceTracer: gas attribution and the end of a frame *)

(** What [on_instruction_start] leaves in the current frame. *)
Lemma on_instruction_start_frame (pc0 : N) (stack_top : list N) (stack_height : Z)
    (es : ExecutionState) (s s' : VmTraceTracer.t) (p : path) (vt : VmTrace) :
  VmTraceTracer.top_trace s = Some (p, vt) ->
  VmTraceTracer.on_instruction_start pc0 stack_top stack_height es s = Some s' ->
  exists ops1 trace_op,
    VmTraceTracer.top_trace s' = Some (p, set_ops (ops1 ++ [trace_op]) vt)
    /\ length ops1 = length (ops vt)
    /\ gas_cost trace_op = es_gas_left es
    /\ depth trace_op = msg_depth (es_msg es)
    /\ pc0 = pc trace_op
    /\ precompiled_call_gas trace_op = None
    /\ (forall op, ops_back 1 (ops vt) = Some op ->
          exists op', VmTraceTracer.finalize_previous stack_top es op = Some op'
                      /\ ops1 = set_last op' (ops vt)).
Proof.
  intros Htop. unfold VmTraceTracer.on_instruction_start. intros H.
  destruct (es_code es !! N.to_nat pc0) as [b|]; cbn in H; [|discriminate].
  destruct (VmTraceTracer.opcode_names_ s) as [nm|]; cbn in H; [|discriminate].
  rewrite Htop in H. cbn in H.
  destruct (top_trace_inv s p vt Htop) as (st0 & Hst & Hget).
  assert (Hnew : forall vt', VmTraceTracer.top_trace
            {| VmTraceTracer.vm_trace_ := upd p (fun _ => vt') (VmTraceTracer.vm_trace_ s);
               VmTraceTracer.transaction_index_ := VmTraceTracer.transaction_index_ s;
               VmTraceTracer.opcode_names_ := Some nm;
               VmTraceTracer.traces_stack_ := VmTraceTracer.traces_stack_ s;
               VmTraceTracer.start_gas_ := VmTraceTracer.start_gas_ s;
               VmTraceTracer.index_prefix_ := VmTraceTracer.index_prefix_ s |}
            = Some (p, vt')).
  { intros vt'. unfold VmTraceTracer.top_trace. cbn. rewrite Hst. cbn.
    rewrite (get_upd_same p (fun _ => vt') _ vt Hget). reflexivity. }
  destruct (ops_back 1 (ops vt)) as [op|] eqn:Hop.
  - destruct (VmTraceTracer.finalize_previous stack_top es op) as [op'|] eqn:Hfp;
      cbn in H; [|discriminate].
    destruct (head (VmTraceTracer.index_prefix_ s)) as [pre|]; cbn in H; [|discriminate].
    destruct (copy_memory_offset_len _ stack_top None) as [m|]; cbn in H; [|discriminate].
    destruct (copy_store _ stack_top None) as [sto|]; cbn in H; [|discriminate].
    injection H as <-. eexists. eexists. split; [apply Hnew|].
    split; [apply length_insert|]. repeat split.
    intros op0 E. injection E as <-. eauto.
  - cbn in H.
    destruct (head (VmTraceTracer.index_prefix_ s)) as [pre|]; cbn in H; [|discriminate].
    destruct (copy_memory_offset_len _ stack_top None) as [m|]; cbn in H; [|discriminate].
    destruct (copy_store _ stack_top None) as [sto|]; cbn in H; [|discriminate].
    injection H as <-. eexists. eexists. split; [apply Hnew|].
    split; [reflexivity|]. repeat split. intros op0 E. discriminate.
Qed.

(** ** Memory windows through the callbacks *)





(** X7. The gas cost of an instruction is settled when the next
    instruction of the same frame starts: after two consecutive
    [on_instruction_start] callbacks of one frame, with [g1] and [g2] gas
    left, the current trace has grown by two ops; the first has
    [gas_cost = g1 - g2] (in 64-bit arithmetic) and [used = g2], the second
    has the provisional [gas_cost = g2]. *)
Theorem gas_cost_settled_by_next_instruction
    (s s1 s2 : VmTraceTracer.t) (p : path) (vt : VmTrace)
    (pc1 pc2 : N) (st1 st2 : list N) (h1 h2 : Z) (es1 es2 : ExecutionState) :
  VmTraceTracer.top_trace s = Some (p, vt) ->
  VmTraceTracer.on_instruction_start pc1 st1 h1 es1 s = Some s1 ->
  VmTraceTracer.on_instruction_start pc2 st2 h2 es2 s1 = Some s2 ->
  msg_depth (es_msg es2) = msg_depth (es_msg es1) ->
  exists vt2 a b,
    VmTraceTracer.top_trace s2 = Some (p, vt2)
    /\ length (ops vt2) = length (ops vt) + 2
    /\ ops vt2 !! length (ops vt) = Some a
    /\ ops vt2 !! S (length (ops vt)) = Some b
    /\ pc a = pc1 /\ pc b = pc2
    /\ gas_cost a = wrap_i64 (es_gas_left es1 - es_gas_left es2)
    /\ used (trace_ex a) = es_gas_left es2
    /\ gas_cost b = es_gas_left es2.
Proof.
  intros Htop H1 H2 Hd.
  destruct (on_instruction_start_frame _ _ _ _ _ _ _ _ Htop H1)
    as (ops1 & a0 & Htop1 & Hlen1 & Hg1 & Hd1 & Hpc1 & Hpre1 & _).
  destruct (on_instruction_start_frame _ _ _ _ _ _ _ _ Htop1 H2)
    as (ops2 & b & Htop2 & Hlen2 & Hg2 & Hd2 & Hpc2 & _ & Hprev).
  cbn [ops set_ops] in Hlen2, Hprev.
  destruct (Hprev a0 (ops_back_1_app ops1 a0)) as (a & Hfp & Hops2).
  rewrite set_last_app in Hops2. subst ops2.
  unfold VmTraceTracer.finalize_previous in Hfp.
  destruct (copy_memory _ _) as [m|]; cbn in Hfp; [|discriminate].
  destruct (copy_stack _ _ _) as [stk|]; cbn in Hfp; [|discriminate].
  injection Hfp as <-.
  eexists. exists (set_trace_ex
              {| memory := m; stack := stk; storage := storage (trace_ex a0);
                 used := es_gas_left es2 |}
              (set_gas_cost
                 match precompiled_call_gas a0 with
                 | Some g => wrap_i64 (gas_cost a0 - g)
                 | None => if (depth a0 =? msg_depth (es_msg es2))%Z
                           then wrap_i64 (gas_cost a0 - es_gas_left es2) else gas_cost a0
                 end a0)), b.
  split; [exact Htop2|]. cbn [ops set_ops].
  split; [rewrite !length_app; simpl; lia|].
  split; [rewrite <- Hlen1, <- app_assoc, lookup_app_r by lia;
          now rewrite Nat.sub_diag|].
  split; [rewrite <- Hlen1, lookup_app_r by (rewrite length_app; simpl; lia);
          rewrite length_app; simpl;
          now replace (S (length ops1) - (length ops1 + 1)) with 0 by lia|].
  cbn. rewrite Hpre1, Hd1, Hd, Z.eqb_refl, Hg1. auto.
Qed.

Lemma gas_cost_settled_by_next_instruction_witness :
  let s := Scenario.after (-1) [VmTraceTracer.ExecutionStart tt Scenario.outer Scenario.bytecode] in
  let s1 := default s (VmTraceTracer.on_instruction_start 0 [] 0 (Scenario.at_gas 50000) s) in
  let s2 := default s1 (VmTraceTracer.on_instruction_start 2 [0%N] 1 (Scenario.at_gas 49997) s1) in
  let vt := VmTraceTracer.vm_trace_ s in
  exists vt2 a b,
    VmTraceTracer.top_trace s2 = Some ([], vt2)
    /\ length (ops vt2) = length (ops vt) + 2
    /\ ops vt2 !! length (ops vt) = Some a
    /\ ops vt2 !! S (length (ops vt)) = Some b
    /\ pc a = 0%N /\ pc b = 2%N
    /\ gas_cost a = wrap_i64 (es_gas_left (Scenario.at_gas 50000)
                              - es_gas_left (Scenario.at_gas 49997))
    /\ used (trace_ex a) = es_gas_left (Scenario.at_gas 49997)
    /\ gas_cost b = es_gas_left (Scenario.at_gas 49997).
Proof.
  intros s s1 s2 vt.
  apply (gas_cost_settled_by_next_instruction s s1 s2 [] vt 0 2 [] [0%N] 0 1
           (Scenario.at_gas 50000) (Scenario.at_gas 49997));
    vm_compute; reflexivity.
Defined.

(** X8. Of the status of a frame's end, [on_execution_end] only tells
    [EVMC_UNDEFINED_INSTRUCTION] from the rest: two results with the same
    gas left and any two statuses other than that one, [EVMC_OUT_OF_GAS]
    and [EVMC_REVERT] among them, leave the tracer in the same state. *)
Theorem on_execution_end_ignores_other_statuses (r1 r2 : evmc_result) (s : VmTraceTracer.t) :
  status_code r1 <> EVMC_UNDEFINED_INSTRUCTION ->
  status_code r2 <> EVMC_UNDEFINED_INSTRUCTION ->
  gas_left r1 = gas_left r2 ->
  VmTraceTracer.on_execution_end r1 s = VmTraceTracer.on_execution_end r2 s.
Proof.
  intros N1 N2 Hg. unfold VmTraceTracer.on_execution_end.
  destruct (VmTraceTracer.top_trace s) as [[p vt]|]; cbn; [|reflexivity].
  destruct (head (VmTraceTracer.start_gas_ s)) as [g|]; cbn; [|reflexivity].
  destruct (head (VmTraceTracer.index_prefix_ s)) as [pre|]; cbn; [|reflexivity].
  assert (E : VmTraceTracer.close_frame r1 g vt = VmTraceTracer.close_frame r2 g vt).
  { unfold VmTraceTracer.close_frame. destruct (ops_back 1 (ops vt)) as [op|]; [|reflexivity].
    destruct (_ && _); [reflexivity|]. rewrite Hg.
    destruct (status_code r1), (status_code r2); try reflexivity; congruence. }
  now rewrite E.
Qed.

Lemma on_execution_end_ignores_other_statuses_witness :
  let s := Scenario.after (-1) Scenario.to_the_call in
  VmTraceTracer.on_execution_end
    {| status_code := EVMC_OUT_OF_GAS; gas_left := 0; output_data := [] |} s
  = VmTraceTracer.on_execution_end
      {| status_code := EVMC_REVERT; gas_left := 0; output_data := [Byte.x01] |} s.
Proof.
  intros s.
  apply (on_execution_end_ignores_other_statuses
           {| status_code := EVMC_OUT_OF_GAS; gas_left := 0; output_data := [] |}
           {| status_code := EVMC_REVERT; gas_left := 0; output_data := [Byte.x01] |} s);
    simpl; [discriminate|discriminate|reflexivity].
Defined.

(** X9. A precompiled run inside a nested frame makes the tracer lose
    that frame. [on_precompiled_run] gives the last op of the root trace
    a fresh [sub]; while a nested frame is open that op is the call the
    frame was entered from, so the trace the frame writes to is destroyed
    and the reference on top of [traces_stack_] dangles: no later
    [on_instruction_start] or [on_execution_end] has a defined result. *)
Theorem precompiled_run_in_nested_frame_loses_it
    (result : evmc_result) (gas : Z) (s : VmTraceTracer.t) (q : path) (st0 : list frame_ref) :
  0 < length (ops (VmTraceTracer.vm_trace_ s)) ->
  VmTraceTracer.traces_stack_ s
  = Some ((length (ops (VmTraceTracer.vm_trace_ s)) - 1) :: q) :: st0 ->
  exists s',
    VmTraceTracer.on_precompiled_run result gas s = Some s'
    /\ VmTraceTracer.top_trace s' = None
    /\ (forall pc stack_top stack_height es,
          VmTraceTracer.on_instruction_start pc stack_top stack_height es s' = None)
    /\ (forall r, VmTraceTracer.on_execution_end r s' = None).
Proof.
  intros Hlen Hst. unfold VmTraceTracer.on_precompiled_run.
  destruct (ops_back 1 (ops (VmTraceTracer.vm_trace_ s))) as [op|] eqn:Hop.
  2: { exfalso. assert (is_Some (ops_back 1 (ops (VmTraceTracer.vm_trace_ s)))) as [x Hx]
         by (apply ops_back_length; lia). congruence. }
  eexists. split; [reflexivity|].
  assert (Htop : VmTraceTracer.top_trace
            {| VmTraceTracer.vm_trace_ :=
                 set_ops (set_last (set_sub (Some (mkVmTrace "0x" []))
                                      (set_precompiled_call_gas (Some gas) op))
                            (ops (VmTraceTracer.vm_trace_ s))) (VmTraceTracer.vm_trace_ s);
               VmTraceTracer.transaction_index_ := VmTraceTracer.transaction_index_ s;
               VmTraceTracer.opcode_names_ := VmTraceTracer.opcode_names_ s;
               VmTraceTracer.traces_stack_ :=
                 invalidate [length (ops (VmTraceTracer.vm_trace_ s)) - 1]
                   (VmTraceTracer.traces_stack_ s);
               VmTraceTracer.start_gas_ := VmTraceTracer.start_gas_ s;
               VmTraceTracer.index_prefix_ := VmTraceTracer.index_prefix_ s |} = None).
  { unfold VmTraceTracer.top_trace. cbn [VmTraceTracer.traces_stack_]. rewrite Hst.
    unfold invalidate. cbn [map head below]. rewrite Nat.eqb_refl. reflexivity. }
  split; [exact Htop|]. split.
  - intros pc stack_top stack_height es. unfold VmTraceTracer.on_instruction_start.
    rewrite Htop. destruct (es_code es !! N.to_nat pc); cbn; [|reflexivity].
    destruct (VmTraceTracer.opcode_names_ s); reflexivity.
  - intros r. unfold VmTraceTracer.on_execution_end. rewrite Htop. reflexivity.
Qed.

Lemma precompiled_run_in_nested_frame_loses_it_witness :
  let s := Scenario.after (-1) Scenario.into_the_callee in
  let result := {| status_code := EVMC_SUCCESS; gas_left := 0; output_data := [] |} in
  exists s',
    VmTraceTracer.on_precompiled_run result 700 s = Some s'
    /\ VmTraceTracer.top_trace s' = None
    /\ (forall pc stack_top stack_height es,
          VmTraceTracer.on_instruction_start pc stack_top stack_height es s' = None)
    /\ (forall r, VmTraceTracer.on_execution_end r s' = None).
Proof.
  intros s result.
  apply (precompiled_run_in_nested_frame_loses_it result 700 s [] [Some []]).
  - vm_compute. lia.
  - vm_compute. reflexivity.
Defined.

(** ** TraceTracer: the list of traces only grows *)

Section TraceList.

(** [tr'] is [tr] with at most its result, its error and its counter of
    children changed. *)
Local Abbreviation same_frame tr tr' :=
  (Trace.action tr' = Trace.action tr /\ Trace.type tr' = Trace.type tr
   /\ Trace.trace_address tr' = Trace.trace_address tr).

Lemma end_status_same_frame (status : evmc_status_code) (g gl : Z) (tr tr' : Trace.t) :
  TraceTracer.end_status status g gl tr = Some tr' -> same_frame tr tr'.
Proof.
  unfold TraceTracer.end_status, TraceTracer.fail.
  destruct status; try (intros H; injection H as <-; repeat split).
  destruct (Trace.trace_result tr); simpl; [|discriminate].
  intros H; injection H as <-; repeat split.
Qed.

Lemma reward_status_same_frame (result : CallResult) (g : Z) (tr tr' : Trace.t) :
  TraceTracer.reward_status result g tr = Some tr' -> same_frame tr tr'.
Proof.
  unfold TraceTracer.reward_status, TraceTracer.fail.
  destruct (cr_status result); try (intros H; injection H as <-; repeat split).
  destruct (Trace.trace_result tr); simpl; [|discriminate].
  intros H; injection H as <-; repeat split.
Qed.

Lemma step_keeps_traces (e : TraceTracer.event) (s s' : TraceTracer.t) :
  TraceTracer.step e s = Some s' ->
  length (TraceTracer.traces_ s')
  = length (TraceTracer.traces_ s) + starts [e]
  /\ forall i tr, TraceTracer.traces_ s !! i = Some tr ->
       exists tr', TraceTracer.traces_ s' !! i = Some tr' /\ same_frame tr tr'.
Proof.
  destruct e as [msg code| |result|result]; simpl; unfold starts; simpl.
  - (* on_execution_start *)
    unfold TraceTracer.on_execution_start.
    set (trace := TraceTracer.new_trace _ msg code).
    destruct (0 <? msg_depth msg)%Z; [destruct (TraceTracer.index_stack_ s) as [|ip rest]|].
    + cbn. intros H. injection H as <-. cbn. rewrite length_app. simpl. split; [lia|].
      intros i tr Hi. exists tr. rewrite lookup_app_l by (eapply lookup_lt_Some; eauto). auto.
    + destruct ((TraceTracer.traces_ s ++ [trace]) !! ip) as [parent|] eqn:Hp; cbn;
        [|discriminate].
      set (traces1 := <[length (TraceTracer.traces_ s) := _]> (TraceTracer.traces_ s ++ [trace])).
      destruct (traces1 !! ip) as [parent1|] eqn:Hp1; cbn; [|discriminate].
      intros H. injection H as <-. cbn. unfold traces1.
      rewrite !length_insert, length_app. simpl. split; [lia|].
      intros i tr Hi. pose proof (lookup_lt_Some _ _ _ Hi) as Hlt.
      assert (H1 : traces1 !! i = Some tr).
      { unfold traces1. rewrite list_lookup_insert_ne by lia.
        now rewrite lookup_app_l by lia. }
      destruct (decide (i = ip)) as [->|Hne].
      * rewrite list_lookup_insert_eq
          by (unfold traces1; rewrite length_insert, length_app; simpl; lia).
        eexists. split; [reflexivity|]. rewrite Hp1 in H1. injection H1 as ->.
        repeat split.
      * rewrite list_lookup_insert_ne by congruence. exists tr. auto.
    + cbn. intros H. injection H as <-. cbn. rewrite length_app. simpl. split; [lia|].
      intros i tr Hi. exists tr. rewrite lookup_app_l by (eapply lookup_lt_Some; eauto). auto.
  - intros H. injection H as <-. split; [lia|]. eauto.
  - (* on_execution_end *)
    unfold TraceTracer.on_execution_end.
    destruct (head (TraceTracer.index_stack_ s)) as [index|]; cbn; [|discriminate].
    destruct (head (TraceTracer.start_gas_ s)) as [g|]; cbn; [|discriminate].
    destruct (TraceTracer.traces_ s !! index) as [trace|] eqn:Ht; cbn; [|discriminate].
    destruct (if (0 <? TraceTracer.current_depth_ s)%Z
              then r ← Trace.trace_result trace;
                   Some (Trace.set_trace_result
                           (Some (TraceTracer.store_output (output_data result) r)) trace)
              else Some trace) as [trace1|] eqn:H1; cbn; [|discriminate].
    destruct (TraceTracer.end_status _ g _ trace1) as [trace2|] eqn:H2; cbn; [|discriminate].
    intros H. injection H as <-. cbn. rewrite length_insert. split; [lia|].
    intros i tr Hi. destruct (decide (i = index)) as [->|Hne].
    + rewrite list_lookup_insert_eq by (eapply lookup_lt_Some; eauto).
      eexists. split; [reflexivity|]. rewrite Ht in Hi. injection Hi as <-.
      destruct (end_status_same_frame _ _ _ _ _ H2) as (A & B & C).
      assert (same_frame trace trace1) as (A1 & B1 & C1).
      { destruct (0 <? TraceTracer.current_depth_ s)%Z.
        - destruct (Trace.trace_result trace); cbn in H1; [|discriminate].
          injection H1 as <-. repeat split.
        - injection H1 as <-. repeat split. }
      repeat split; congruence.
    + rewrite list_lookup_insert_ne by congruence. eauto.
  - (* on_reward_granted *)
    unfold TraceTracer.on_reward_granted.
    destruct (TraceTracer.traces_ s) as [|trace rest] eqn:Ht.
    + intros H. injection H as <-. rewrite Ht. split; [reflexivity|]. eauto.
    + destruct (TraceTracer.reward_status result _ trace) as [trace'|] eqn:Hr; cbn;
        [|discriminate].
      intros H. injection H as <-. cbn. split; [lia|].
      intros [|i] tr Hi; simpl in *; [|eauto].
      injection Hi as <-. eexists. split; [reflexivity|].
      eapply reward_status_same_frame; eauto.
Qed.

Lemma starts_cons (e : TraceTracer.event) (es : list TraceTracer.event) :
  starts (e :: es) = starts [e] + starts es.
Proof. unfold starts. simpl. destruct e; simpl; reflexivity. Qed.

(** X10. The list of traces only grows, by one trace per frame: after
    any sequence of callbacks it holds one more trace for every
    [on_execution_start] of the sequence, and every trace that was there
    is still at its position, with its action, its type and its trace
    address as they were. *)
Theorem traces_grow_one_per_frame (es : list TraceTracer.event) :
  forall (s s' : TraceTracer.t),
    TraceTracer.run es s = Some s' ->
    length (TraceTracer.traces_ s') = length (TraceTracer.traces_ s) + starts es
    /\ forall i tr, TraceTracer.traces_ s !! i = Some tr ->
         exists tr', TraceTracer.traces_ s' !! i = Some tr'
                     /\ Trace.action tr' = Trace.action tr
                     /\ Trace.type tr' = Trace.type tr
                     /\ Trace.trace_address tr' = Trace.trace_address tr.
Proof.
  induction es as [|e es IH]; intros s s' Hrun; simpl in Hrun.
  - injection Hrun as <-. unfold starts. simpl. split; [lia|]. eauto.
  - destruct (TraceTracer.step e s) as [s1|] eqn:Hs; simpl in Hrun; [|discriminate].
    destruct (step_keeps_traces e s s1 Hs) as [L1 K1].
    destruct (IH s1 s' Hrun) as [L2 K2]. rewrite starts_cons. split; [lia|].
    intros i tr Hi. destruct (K1 i tr Hi) as (tr1 & Hi1 & A & B & C).
    destruct (K2 i tr1 Hi1) as (tr2 & Hi2 & A2 & B2 & C2).
    exists tr2. repeat split; congruence.
Qed.
Lemma traces_grow_one_per_frame_witness :
  let ok := {| status_code := EVMC_SUCCESS; gas_left := 10; output_data := [] |} in
  let es := [TraceTracer.ExecutionStart Scenario.outer []; TraceTracer.InstructionStart;
             TraceTracer.ExecutionStart Scenario.inner []; TraceTracer.ExecutionEnd ok;
             TraceTracer.ExecutionEnd ok] in
  let s := TraceTracer.make [] (fun _ => true) in
  let s' := default s (TraceTracer.run es s) in
  length (TraceTracer.traces_ s') = length (TraceTracer.traces_ s) + starts es
  /\ forall i tr, TraceTracer.traces_ s !! i = Some tr ->
       exists tr', TraceTracer.traces_ s' !! i = Some tr'
                   /\ Trace.action tr' = Trace.action tr
                   /\ Trace.type tr' = Trace.type tr
                   /\ Trace.trace_address tr' = Trace.trace_address tr.
Proof.
  intros ok es s s'. apply (traces_grow_one_per_frame es s s'). vm_compute. reflexivity.
Defined.

(** ** TraceTracer: creations *)

Lemma step_keeps_created (e : TraceTracer.event) (s s' : TraceTracer.t) :
  TraceTracer.step e s = Some s' ->
  TraceTracer.created_address_ s ⊆ TraceTracer.created_address_ s'
  /\ TraceTracer.initial_ibs_exists s' = TraceTracer.initial_ibs_exists s.
Proof.
  destruct e as [msg code| |result|result]; simpl.
  - unfold TraceTracer.on_execution_start.
    destruct (_ : option (list Trace.t * Z)) as [[traces g]|]; cbn; [|discriminate].
    intros H. injection H as <-. cbn. split; [|reflexivity].
    destruct (TraceTracer.is_create s msg); set_solver.
  - intros H. injection H as <-. auto.
  - unfold TraceTracer.on_execution_end.
    destruct (head (TraceTracer.index_stack_ s)); cbn; [|discriminate].
    destruct (head (TraceTracer.start_gas_ s)); cbn; [|discriminate].
    destruct (TraceTracer.traces_ s !! _); cbn; [|discriminate].
    destruct (if (0 <? TraceTracer.current_depth_ s)%Z then _ else _); cbn; [|discriminate].
    destruct (TraceTracer.end_status _ _ _ _); cbn; [|discriminate].
    intros H. injection H as <-. auto.
  - unfold TraceTracer.on_reward_granted.
    destruct (TraceTracer.traces_ s); [intros H; injection H as <-; auto|].
    destruct (TraceTracer.reward_status _ _ _); cbn; [|discriminate].
    intros H. injection H as <-. auto.
Qed.

Lemma run_keeps_created (es : list TraceTracer.event) :
  forall s s', TraceTracer.run es s = Some s' ->
    TraceTracer.created_address_ s ⊆ TraceTracer.created_address_ s'
    /\ TraceTracer.initial_ibs_exists s' = TraceTracer.initial_ibs_exists s.
Proof.
  induction es as [|e es IH]; intros s s' Hrun; simpl in Hrun.
  - injection Hrun as <-. auto.
  - destruct (TraceTracer.step e s) as [s1|] eqn:Hs; simpl in Hrun; [|discriminate].
    destruct (step_keeps_created e s s1 Hs) as [A B].
    destruct (IH s1 s' Hrun) as [A' B']. split; [|congruence].
    intros x Hx. apply A', A, Hx.
Qed.

(** X11. An address is traced as created at most once per transaction:
    once a frame has been classified as a creation, every later frame of
    the same recipient, whatever happens in between, is classified as a
    call and its trace gets the type ["call"]. *)
Theorem created_address_is_called_afterwards
    (msg msg' : evmc_message) (code code' : list Byte.byte) (es : list TraceTracer.event)
    (s s1 s2 s3 : TraceTracer.t) :
  TraceTracer.is_create s msg = true ->
  TraceTracer.on_execution_start msg code s = Some s1 ->
  TraceTracer.run es s1 = Some s2 ->
  msg_recipient msg' = msg_recipient msg ->
  TraceTracer.on_execution_start msg' code' s2 = Some s3 ->
  TraceTracer.is_create s2 msg' = false
  /\ exists tr, TraceTracer.traces_ s3 !! length (TraceTracer.traces_ s2) = Some tr
                /\ Trace.type tr = "call".
Proof.
  intros Hc H1 Hrun Hrcp H3.
  assert (Hin : msg_recipient msg ∈ TraceTracer.created_address_ s1).
  { revert H1. unfold TraceTracer.on_execution_start. rewrite Hc.
    destruct (_ : option (list Trace.t * Z)) as [[traces g]|]; cbn; [|discriminate].
    intros H. injection H as <-. cbn. set_solver. }
  destruct (run_keeps_created es s1 s2 Hrun) as [Hsub _].
  assert (Hnc : TraceTracer.is_create s2 msg' = false).
  { unfold TraceTracer.is_create. rewrite Hrcp.
    rewrite (bool_decide_eq_true_2 _ (Hsub _ Hin)). simpl. now rewrite andb_false_r. }
  split; [exact Hnc|].
  revert H3. unfold TraceTracer.on_execution_start. rewrite Hnc.
  set (trace := TraceTracer.new_trace false msg' code').
  destruct (0 <? msg_depth msg')%Z; [destruct (TraceTracer.index_stack_ s2) as [|ip rest]|].
  - cbn. intros H. injection H as <-. cbn. exists trace.
    rewrite lookup_app_r by lia. rewrite Nat.sub_diag. split; reflexivity.
  - destruct ((TraceTracer.traces_ s2 ++ [trace]) !! ip) as [parent|] eqn:Hp; cbn;
      [|discriminate].
    set (traces1 := <[length (TraceTracer.traces_ s2) := _]> (TraceTracer.traces_ s2 ++ [trace])).
    destruct (traces1 !! ip) as [parent1|] eqn:Hp1; cbn; [|discriminate].
    intros H. injection H as <-. cbn.
    assert (Hlen : length traces1 = S (length (TraceTracer.traces_ s2))).
    { unfold traces1. rewrite length_insert, length_app. simpl. lia. }
    assert (Hnew : exists tr, traces1 !! length (TraceTracer.traces_ s2) = Some tr
                              /\ Trace.type tr = "call").
    { unfold traces1. rewrite list_lookup_insert_eq by (rewrite length_app; simpl; lia).
      eexists. split; reflexivity. }
    destruct Hnew as (tr & Htr & Hty).
    destruct (decide (ip = length (TraceTracer.traces_ s2))) as [->|Hne].
    + rewrite list_lookup_insert_eq by lia. eexists. split; [reflexivity|].
      rewrite Hp1 in Htr. injection Htr as ->. exact Hty.
    + rewrite list_lookup_insert_ne by congruence. eauto.
  - cbn. intros H. injection H as <-. cbn. exists trace.
    rewrite lookup_app_r by lia. rewrite Nat.sub_diag. split; reflexivity.
Qed.

Lemma created_address_is_called_afterwards_witness :
  let create := {| msg_kind := EVMC_CREATE; msg_flags := 0; msg_depth := 0; msg_gas := 50000;
                   msg_recipient := 0xdd%N; msg_sender := 0xbb%N; msg_input_data := [];
                   msg_value := 0; msg_code_address := 0%N |} in
  let again := {| msg_kind := EVMC_CALL; msg_flags := 0; msg_depth := 1; msg_gas := 30000;
                  msg_recipient := 0xdd%N; msg_sender := 0xdd%N; msg_input_data := [];
                  msg_value := 0; msg_code_address := 0%N |} in
  let s := TraceTracer.make [] (fun _ => false) in
  let s1 := default s (TraceTracer.on_execution_start create [] s) in
  let s2 := default s1 (TraceTracer.run [TraceTracer.InstructionStart] s1) in
  let s3 := default s2 (TraceTracer.on_execution_start again [] s2) in
  TraceTracer.is_create s2 again = false
  /\ exists tr, TraceTracer.traces_ s3 !! length (TraceTracer.traces_ s2) = Some tr
                /\ Trace.type tr = "call".
Proof.
  intros create again s s1 s2 s3.
  apply (created_address_is_called_afterwards create again [] []
           [TraceTracer.InstructionStart] s s1 s2 s3); vm_compute; reflexivity.
Defined.

(** ** TraceTracer: the depth of a trace address *)

Lemma address_depths_kept (traces traces' : list Trace.t) (st : list nat) :
  (forall i tr, traces !! i = Some tr ->
     exists tr', traces' !! i = Some tr' /\ same_frame tr tr') ->
  address_depths traces st -> address_depths traces' st.
Proof.
  intros K. induction st as [|i st IHst]; simpl; [auto|].
  intros [(tr & Hi & Hl) Hst]. split; [|auto].
  destruct (K i tr Hi) as (tr' & Hi' & _ & _ & C). exists tr'. split; [exact Hi'|congruence].
Qed.

Lemma address_depths_step (e : TraceTracer.event) (s s' : TraceTracer.t) :
  address_depths (TraceTracer.traces_ s) (TraceTracer.index_stack_ s) ->
  TraceTracer.admissible e s = true ->
  TraceTracer.step e s = Some s' ->
  address_depths (TraceTracer.traces_ s') (TraceTracer.index_stack_ s').
Proof.
  intros Hinv Hadm Hstep.
  pose proof (step_keeps_traces e s s' Hstep) as [_ K].
  pose proof (address_depths_kept _ _ _ K Hinv) as Hkept.
  destruct e as [msg code| |result|result]; simpl in Hstep, Hadm.
  - apply andb_true_iff in Hadm. destruct Hadm as [Hd Hroot].
    apply Z.eqb_eq in Hd.
    destruct (TraceTracer.index_stack_ s) as [|ip rest] eqn:Hst.
    + destruct (on_execution_start_outer msg code s (or_intror Hst)) as (s1 & Hs1 & HT & HI & _).
      rewrite Hstep in Hs1. injection Hs1 as <-. rewrite HI, HT, Hst. simpl.
      split; [|auto]. eexists. rewrite lookup_app_r by lia. rewrite Nat.sub_diag.
      split; [reflexivity|]. now rewrite (proj1 (new_trace_shape _ msg code)).
    + simpl in Hinv. destruct Hinv as [(parent & Hp & Hpl) Hrest].
      assert (Hpos : (0 < msg_depth msg)%Z) by (rewrite Hd; simpl; lia).
      destruct (on_execution_start_nested msg code s ip rest parent Hpos Hst Hp)
        as (s1 & Hs1 & HT & HI & _).
      rewrite Hstep in Hs1. injection Hs1 as <-. rewrite HI, Hst. simpl.
      split; [|exact Hkept].
      pose proof (lookup_lt_Some _ _ _ Hp) as Hlt.
      rewrite HT. eexists. split.
      * rewrite list_lookup_insert_ne by lia. rewrite lookup_app_r by lia.
        rewrite Nat.sub_diag. reflexivity.
      * cbn. rewrite length_app. simpl. lia.
  - injection Hstep as <-. exact Hinv.
  - assert (E : TraceTracer.index_stack_ s' = tail (TraceTracer.index_stack_ s)).
    { revert Hstep. unfold TraceTracer.on_execution_end.
      destruct (head (TraceTracer.index_stack_ s)); cbn; [|discriminate].
      destruct (head (TraceTracer.start_gas_ s)); cbn; [|discriminate].
      destruct (TraceTracer.traces_ s !! _); cbn; [|discriminate].
      destruct (if (0 <? TraceTracer.current_depth_ s)%Z then _ else _); cbn; [|discriminate].
      destruct (TraceTracer.end_status _ _ _ _); cbn; [|discriminate].
      intros H. injection H as <-. reflexivity. }
    rewrite E. destruct (TraceTracer.index_stack_ s); simpl in *; [exact I|apply Hkept].
  - assert (E : TraceTracer.index_stack_ s' = TraceTracer.index_stack_ s).
    { revert Hstep. unfold TraceTracer.on_reward_granted.
      destruct (TraceTracer.traces_ s); [intros H; injection H as <-; auto|].
      destruct (TraceTracer.reward_status _ _ _); cbn; [|discriminate].
      intros H. injection H as <-. reflexivity. }
    rewrite E. exact Hkept.
Qed.

Lemma address_depths_run (es : list TraceTracer.event) :
  forall s s',
    address_depths (TraceTracer.traces_ s) (TraceTracer.index_stack_ s) ->
    TraceTracer.well_nested es s = true ->
    TraceTracer.run es s = Some s' ->
    address_depths (TraceTracer.traces_ s') (TraceTracer.index_stack_ s').
Proof.
  induction es as [|e es IH]; intros s s' Hinv Hwn Hrun; simpl in *.
  - injection Hrun as <-. exact Hinv.
  - apply andb_true_iff in Hwn. destruct Hwn as [Hadm Hwn].
    destruct (TraceTracer.step e s) as [s1|] eqn:Hs; [|discriminate].
    simpl in Hrun. eapply IH; [|exact Hwn|exact Hrun]. eapply address_depths_step; eauto.
Qed.

(** X12. The trace address of a frame is as long as the frame is deep:
    in a well-nested execution a frame entered with [msg.depth = d] gets
    a trace whose [trace_address] has [d] elements (none for the
    outermost frame), and entering it is always defined. *)
Theorem trace_address_length_is_depth
    (es : list TraceTracer.event) (initial_exists : address -> bool) (s : TraceTracer.t)
    (msg : evmc_message) (code : list Byte.byte) :
  TraceTracer.well_nested es (TraceTracer.make [] initial_exists) = true ->
  TraceTracer.run es (TraceTracer.make [] initial_exists) = Some s ->
  TraceTracer.admissible (TraceTracer.ExecutionStart msg code) s = true ->
  exists s' tr,
    TraceTracer.on_execution_start msg code s = Some s'
    /\ TraceTracer.traces_ s' !! length (TraceTracer.traces_ s) = Some tr
    /\ Z.of_nat (length (Trace.trace_address tr)) = msg_depth msg.
Proof.
  intros Hwn Hrun Hadm.
  assert (Hinv : address_depths (TraceTracer.traces_ s) (TraceTracer.index_stack_ s)).
  { eapply address_depths_run; [|exact Hwn|exact Hrun]. exact I. }
  simpl in Hadm. apply andb_true_iff in Hadm. destruct Hadm as [Hd Hroot].
  apply Z.eqb_eq in Hd.
  destruct (TraceTracer.index_stack_ s) as [|ip rest] eqn:Hst.
  - destruct (on_execution_start_outer msg code s (or_intror Hst)) as (s1 & Hs1 & HT & _).
    exists s1. eexists. split; [exact Hs1|]. rewrite HT.
    rewrite lookup_app_r by lia. rewrite Nat.sub_diag. split; [reflexivity|].
    rewrite (proj1 (new_trace_shape _ msg code)). simpl in *. lia.
  - simpl in Hinv. destruct Hinv as [(parent & Hp & Hpl) Hrest].
    assert (Hpos : (0 < msg_depth msg)%Z) by (rewrite Hd; simpl; lia).
    destruct (on_execution_start_nested msg code s ip rest parent Hpos Hst Hp)
      as (s1 & Hs1 & HT & _).
    pose proof (lookup_lt_Some _ _ _ Hp) as Hlt.
    exists s1. eexists. split; [exact Hs1|]. rewrite HT. split.
    + rewrite list_lookup_insert_ne by lia. rewrite lookup_app_r by lia.
      rewrite Nat.sub_diag. reflexivity.
    + cbn. rewrite length_app. simpl in *. lia.
Qed.

Lemma trace_address_length_is_depth_witness :
  let es := [TraceTracer.ExecutionStart Scenario.outer []; TraceTracer.InstructionStart] in
  let s := default (TraceTracer.make [] (fun _ => true))
                   (TraceTracer.run es (TraceTracer.make [] (fun _ => true))) in
  exists s' tr,
    TraceTracer.on_execution_start Scenario.inner [] s = Some s'
    /\ TraceTracer.traces_ s' !! length (TraceTracer.traces_ s) = Some tr
    /\ Z.of_nat (length (Trace.trace_address tr)) = msg_depth Scenario.inner.
Proof.
  intros es s.
  apply (trace_address_length_is_depth es (fun _ => true) s Scenario.inner []);
    vm_compute; reflexivity.
Defined.

(** ** TraceTracer: the end of the transaction *)

(** X13. [on_reward_granted] settles the outermost frame, the first
    trace, by the status of the whole call, with the table of
    [on_execution_end]: any status but success drops the result and sets
    the error of the table; success keeps the error as it is and sets
    [gas_used] to the gas the outermost frame was entered with less the
    gas left. No other trace is touched, and with no trace at all the
    callback does nothing. *)
Theorem on_reward_granted_settles_first_trace
    (result : CallResult) (s : TraceTracer.t) (trace : Trace.t) (rest : list Trace.t) :
  TraceTracer.traces_ s = trace :: rest ->
  (cr_status result = EVMC_SUCCESS -> is_Some (Trace.trace_result trace)) ->
  exists s' trace',
    TraceTracer.on_reward_granted result s = Some s'
    /\ TraceTracer.traces_ s' = trace' :: rest
    /\ Trace.action trace' = Trace.action trace
    /\ Trace.trace_address trace' = Trace.trace_address trace
    /\ (cr_status result <> EVMC_SUCCESS ->
        Trace.error trace' = TraceTracer.spec_error (cr_status result)
        /\ Trace.trace_result trace' = None)
    /\ (cr_status result = EVMC_SUCCESS ->
        Trace.error trace' = Trace.error trace
        /\ exists r, Trace.trace_result trace' = Some r
             /\ TraceResult.gas_used r
                = wrap_i64 (TraceTracer.initial_gas_ s - cr_gas_left result)).
Proof.
  intros Ht Hres. unfold TraceTracer.on_reward_granted. rewrite Ht.
  unfold TraceTracer.reward_status, TraceTracer.fail.
  destruct (cr_status result) eqn:Hst;
    try (cbn; eexists; eexists; split; [reflexivity|]; cbn;
         repeat split; try reflexivity; intros; congruence).
  destruct (Hres eq_refl) as [r Hr]. rewrite Hr. cbn.
  eexists. eexists. split; [reflexivity|]. cbn. repeat split; try congruence.
  eexists. split; [reflexivity|].
  destruct (decide (0 < length (cr_data result))); [|reflexivity].
  unfold TraceTracer.store_output. cbn.
  destruct (TraceResult.code r); [reflexivity|]. destruct (TraceResult.output r); reflexivity.
Qed.

Lemma on_reward_granted_settles_first_trace_witness :
  let ok := {| status_code := EVMC_SUCCESS; gas_left := 10; output_data := [] |} in
  let es := [TraceTracer.ExecutionStart Scenario.outer []; TraceTracer.ExecutionEnd ok] in
  let s := default (TraceTracer.make [] (fun _ => true))
                   (TraceTracer.run es (TraceTracer.make [] (fun _ => true))) in
  let result := {| cr_status := EVMC_OUT_OF_GAS; cr_gas_left := 0; cr_data := [] |} in
  let trace := default Trace.default (head (TraceTracer.traces_ s)) in
  exists s' trace',
    TraceTracer.on_reward_granted result s = Some s'
    /\ TraceTracer.traces_ s' = trace' :: []
    /\ Trace.action trace' = Trace.action trace
    /\ Trace.trace_address trace' = Trace.trace_address trace
    /\ (cr_status result <> EVMC_SUCCESS ->
        Trace.error trace' = TraceTracer.spec_error (cr_status result)
        /\ Trace.trace_result trace' = None)
    /\ (cr_status result = EVMC_SUCCESS ->
        Trace.error trace' = Trace.error trace
        /\ exists r, Trace.trace_result trace' = Some r
             /\ TraceResult.gas_used r
                = wrap_i64 (TraceTracer.initial_gas_ s - cr_gas_left result)).
Proof.
  intros ok es s result trace.
  apply (on_reward_granted_settles_first_trace result s trace []).
  - vm_compute. reflexivity.
  - simpl. discriminate.
Defined.
End TraceList.

(** ** StateDiffTracer: what the loop of on_reward_granted leaves *)

(** The storage loop of an account that exists before and after. *)
Lemma storage_fold_lookup (ibs : IntraBlockState) (a : address) (keys : list string) :
  forall (st0 : gmap string DiffValue.t) (e0 : bool) st e,
    foldl (fun '(st, eq) key =>
             let key_b32 := bytes32_from_hex key in
             let initial_storage := ibs_get_original_storage ibs a key_b32 in
             let final_storage := ibs_get_current_storage ibs a key_b32 in
             if (initial_storage =? final_storage)%N then (st, eq)
             else (<[key := StateDiffTracer.changed ("0x" +:+ to_hex_fixed 32 initial_storage)
                                       ("0x" +:+ to_hex_fixed 32 final_storage)]> st,
                   false))
          (st0, e0) keys = (st, e) ->
    (forall k,
       st !! k
       = if bool_decide (k ∈ keys)
            && negb (ibs_get_original_storage ibs a (bytes32_from_hex k)
                     =? ibs_get_current_storage ibs a (bytes32_from_hex k))%N
         then Some (StateDiffTracer.changed
                      ("0x" +:+ to_hex_fixed 32
                         (ibs_get_original_storage ibs a (bytes32_from_hex k)))
                      ("0x" +:+ to_hex_fixed 32
                         (ibs_get_current_storage ibs a (bytes32_from_hex k))))
         else st0 !! k)
    /\ e = e0 && forallb (fun k => (ibs_get_original_storage ibs a (bytes32_from_hex k)
                                    =? ibs_get_current_storage ibs a (bytes32_from_hex k))%N)
                         keys.
Proof.
  induction keys as [|key keys IH]; intros st0 e0 st e H; simpl in H.
  - injection H as <- <-. split; [|now rewrite andb_true_r].
    intros k. rewrite bool_decide_eq_false_2 by (intros Hin; inversion Hin). reflexivity.
  - cbv zeta in H.
    destruct (N.eqb_spec (ibs_get_original_storage ibs a (bytes32_from_hex key))
                         (ibs_get_current_storage ibs a (bytes32_from_hex key))) as [E|E].
    + destruct (IH _ _ _ _ H) as [L F]. split.
      * intros k. rewrite L.
        destruct (decide (k = key)) as [->|Hne].
        -- rewrite E, N.eqb_refl. simpl. now rewrite !andb_false_r.
        -- destruct (bool_decide (k ∈ keys)) eqn:Hk.
           ++ apply bool_decide_eq_true in Hk.
              rewrite (bool_decide_eq_true_2 (k ∈ key :: keys)) by (apply elem_of_cons; auto).
              reflexivity.
           ++ apply bool_decide_eq_false in Hk.
              rewrite (bool_decide_eq_false_2 (k ∈ key :: keys)); [reflexivity|].
              intros Hin. apply elem_of_cons in Hin. destruct Hin; congruence.
      * rewrite F. simpl. rewrite E, N.eqb_refl. reflexivity.
    + destruct (IH _ _ _ _ H) as [L F]. split.
      * intros k. rewrite L.
        destruct (decide (k = key)) as [->|Hne].
        -- rewrite (bool_decide_eq_true_2 (key ∈ key :: keys)) by (apply elem_of_cons; auto).
           apply N.eqb_neq in E. rewrite E. simpl.
           destruct (bool_decide (key ∈ keys)); simpl; [reflexivity|].
           now rewrite lookup_insert_eq.
        -- rewrite lookup_insert_ne by congruence.
           destruct (bool_decide (k ∈ keys)) eqn:Hk.
           ++ apply bool_decide_eq_true in Hk.
              rewrite (bool_decide_eq_true_2 (k ∈ key :: keys)) by (apply elem_of_cons; auto).
              reflexivity.
           ++ apply bool_decide_eq_false in Hk.
              rewrite (bool_decide_eq_false_2 (k ∈ key :: keys)); [reflexivity|].
              intros Hin. apply elem_of_cons in Hin. destruct Hin; congruence.
      * rewrite F. simpl. apply N.eqb_neq in E. rewrite E. simpl.
        now rewrite andb_false_r.
Qed.

(** A state diff tracer that saw no execution start has no names table:
    its [on_instruction_start] has no defined result. *)
Lemma on_instruction_start_needs_names (pc : N) (stack_top : list N) (es : ExecutionState)
    (state_diff : gmap string StateDiffEntry.t) (sa : StateAddresses.t) :
  StateDiffTracer.on_instruction_start pc stack_top es (StateDiffTracer.make state_diff sa)
  = None.
Proof.
  unfold StateDiffTracer.on_instruction_start.
  destruct (es_code es !! N.to_nat pc); reflexivity.
Qed.

(** X14. A changed slot is reported under the key of the [SSTORE]. Take a
    tracer whose frame has started ([on_execution_start], which sets the
    names table). When an [SSTORE] to slot [k] with a value below it on
    the stack is then announced, [on_instruction_start] has a defined
    result and leaves the state diff as it is. When moreover the account
    exists before and after the transaction, and the slot's current value
    differs from its original one when the transaction ends, then the
    account has an entry in the state diff, and the entry's storage maps
    [to_string k] to the change from the original to the current value of
    slot [k], both as [0x] and 64 digits. *)
Theorem sstore_change_is_reported {evmc_revision : Type}
    (names : evmc_revision -> N -> option string) (rev : evmc_revision)
    (msg : evmc_message) (code : list Byte.byte)
    (pc : N) (k v : N) (rest : list N) (es : ExecutionState)
    (ibs : IntraBlockState) (s0 : StateDiffTracer.t) :
  let a := msg_recipient (es_msg es) in
  let s := StateDiffTracer.on_execution_start names rev msg code s0 in
  es_code es !! N.to_nat pc = Some Byte.x55 ->
  (k < 2 ^ 256)%N ->
  StateAddresses.exists_ (StateDiffTracer.state_addresses_ s0) a = true ->
  ibs_exists ibs a = true ->
  ibs_get_original_storage ibs a k <> ibs_get_current_storage ibs a k ->
  exists s1,
    StateDiffTracer.on_instruction_start pc (k :: v :: rest) es s = Some s1
    /\ StateDiffTracer.state_diff_ s1 = StateDiffTracer.state_diff_ s0
    /\ exists e,
         StateDiffTracer.state_diff_ (StateDiffTracer.diff_address ibs s1 a)
           !! ("0x" +:+ to_hex_fixed 20 a) = Some e
         /\ StateDiffEntry.storage e !! to_string k
            = Some (StateDiffTracer.changed
                      ("0x" +:+ to_hex_fixed 32 (ibs_get_original_storage ibs a k))
                      ("0x" +:+ to_hex_fixed 32 (ibs_get_current_storage ibs a k))).
Proof.
  intros a s Hcode Hk Hex0 Hex1 Hne.
  assert (Hnames : exists nm, StateDiffTracer.opcode_names_ s = Some nm).
  { unfold s, StateDiffTracer.on_execution_start. cbn [StateDiffTracer.opcode_names_].
    destruct (StateDiffTracer.opcode_names_ s0); eauto. }
  destruct Hnames as [nm Hnm].
  unfold StateDiffTracer.on_instruction_start. rewrite Hcode. cbn [mbind option_bind].
  rewrite Hnm. cbn.
  eexists. split; [reflexivity|]. cbn [StateDiffTracer.state_diff_].
  split; [reflexivity|].
  unfold StateDiffTracer.diff_address.
  cbn [StateDiffTracer.state_diff_ StateDiffTracer.state_addresses_
       StateDiffTracer.diff_storage_] in *.
  fold a. rewrite Hex0, Hex1. rewrite lookup_insert_eq. cbn [default].
  set (keyset := {[to_string k]} ∪ default ∅ (StateDiffTracer.diff_storage_ s0 !! a)).
  set (entry := default StateDiffEntry.default
                  (StateDiffTracer.state_diff_ s0 !! ("0x" +:+ to_hex_fixed 20 a))).
  unfold StateDiffTracer.diff_existing.
  match goal with
  | |- context [foldl ?f ?i ?l] => destruct (foldl f i l) as [st eq_s] eqn:Hfold
  end.
  destruct (storage_fold_lookup _ _ _ _ _ _ _ Hfold) as [L F].
  pose proof (bytes32_from_hex_to_string k Hk) as Hrt.
  assert (Hin : to_string k ∈ elements keyset).
  { apply elem_of_elements. unfold keyset. set_solver. }
  assert (Hs : eq_s = false).
  { rewrite F. simpl. apply not_true_is_false. intros Hall.
    rewrite forallb_forall in Hall. apply list_elem_of_In in Hin.
    specialize (Hall _ Hin). simpl in Hall. rewrite Hrt in Hall.
    apply N.eqb_eq in Hall. contradiction. }
  rewrite Hs, !andb_false_r. rewrite lookup_insert_eq.
  eexists. split; [reflexivity|]. cbn [StateDiffEntry.storage].
  rewrite L, (bool_decide_eq_true_2 _ Hin), Hrt.
  apply N.eqb_neq in Hne. rewrite Hne. reflexivity.
Qed.

Lemma sstore_change_is_reported_witness :
  let es := Scenario.storing in
  let a := msg_recipient (es_msg es) in
  let ibs := Scenario.final_state true 0 9 in
  let s0 := StateDiffTracer.make ∅ (Scenario.baseline true) in
  let s := StateDiffTracer.on_execution_start Scenario.names tt Scenario.outer (es_code es) s0 in
  exists s1,
    StateDiffTracer.on_instruction_start 0 [5; 9]%N es s = Some s1
    /\ StateDiffTracer.state_diff_ s1 = StateDiffTracer.state_diff_ s0
    /\ exists e,
         StateDiffTracer.state_diff_ (StateDiffTracer.diff_address ibs s1 a)
           !! ("0x" +:+ to_hex_fixed 20 a) = Some e
         /\ StateDiffEntry.storage e !! to_string 5
            = Some (StateDiffTracer.changed
                      ("0x" +:+ to_hex_fixed 32 (ibs_get_original_storage ibs a 5))
                      ("0x" +:+ to_hex_fixed 32 (ibs_get_current_storage ibs a 5))).
Proof.
  intros es a ibs s0 s.
  apply (sstore_change_is_reported Scenario.names tt Scenario.outer (es_code es)
           0 5 9 [] es ibs s0).
  - reflexivity.
  - vm_compute. reflexivity.
  - reflexivity.
  - reflexivity.
  - simpl. discriminate.
Defined.

(** The branch of an account that exists before and after: with nothing
    changed, the flag [all_equals] stays set. *)
Lemma diff_existing_all_equal (sa : StateAddresses.t) (ibs : IntraBlockState) (a : address)
    (keys : list string) (entry : StateDiffEntry.t) :
  StateAddresses.get_balance sa a = ibs_get_balance ibs a ->
  StateAddresses.get_code sa a = ibs_get_code ibs a ->
  StateAddresses.get_nonce sa a = ibs_get_nonce ibs a ->
  (forall k, k ∈ keys ->
     ibs_get_original_storage ibs a (bytes32_from_hex k)
     = ibs_get_current_storage ibs a (bytes32_from_hex k)) ->
  (StateDiffTracer.diff_existing sa ibs a keys entry).2 = true.
Proof.
  intros Hb Hc Hn Hkeys. unfold StateDiffTracer.diff_existing.
  match goal with
  | |- context [foldl ?f ?i ?l] => destruct (foldl f i l) as [st eq_s] eqn:Hfold
  end.
  destruct (storage_fold_lookup _ _ _ _ _ _ _ Hfold) as [_ F].
  assert (Hs : eq_s = true).
  { rewrite F. simpl. apply forallb_forall. intros k Hk. apply N.eqb_eq, Hkeys.
    now apply list_elem_of_In in Hk. }
  rewrite Hs, Hb, Hn, Hc, !N.eqb_refl, bool_decide_eq_true_2 by reflexivity.
  reflexivity.
Qed.

(** X15. An account that a transaction touched but left as it was is
    not in the state diff: when it exists before and after, with the
    balance, the code and the nonce of the baseline, and every slot written
    to holds its original value again, the loop of [on_reward_granted]
    leaves no entry under its address, whatever was there before. *)
Theorem unchanged_account_is_omitted (ibs : IntraBlockState) (s : StateDiffTracer.t)
    (a : address) :
  let sa := StateDiffTracer.state_addresses_ s in
  StateAddresses.exists_ sa a = true ->
  ibs_exists ibs a = true ->
  StateAddresses.get_balance sa a = ibs_get_balance ibs a ->
  StateAddresses.get_code sa a = ibs_get_code ibs a ->
  StateAddresses.get_nonce sa a = ibs_get_nonce ibs a ->
  (forall k, k ∈ default ∅ (StateDiffTracer.diff_storage_ s !! a) ->
     ibs_get_original_storage ibs a (bytes32_from_hex k)
     = ibs_get_current_storage ibs a (bytes32_from_hex k)) ->
  StateDiffTracer.state_diff_ (StateDiffTracer.diff_address ibs s a)
    !! ("0x" +:+ to_hex_fixed 20 a) = None.
Proof.
  intros sa Hex0 Hex1 Hb Hc Hn Hkeys. unfold StateDiffTracer.diff_address.
  cbn [StateDiffTracer.state_diff_]. fold sa. rewrite Hex0, Hex1.
  match goal with
  | |- context [StateDiffTracer.diff_existing ?x1 ?x2 ?x3 ?x4 ?x5] =>
      pose proof (diff_existing_all_equal x1 x2 x3 x4 x5 Hb Hc Hn) as Hall;
      destruct (StateDiffTracer.diff_existing x1 x2 x3 x4 x5) as [entry' all_equals]
  end.
  simpl in Hall. rewrite Hall.
  - apply lookup_delete_eq.
  - intros k Hk. apply Hkeys. now apply elem_of_elements in Hk.
Qed.

Lemma unchanged_account_is_omitted_witness :
  StateDiffTracer.state_diff_
    (StateDiffTracer.diff_address (Scenario.final_state true 0 0)
       (Scenario.after_sstore true) 0xaa%N)
    !! ("0x" +:+ to_hex_fixed 20 0xaa%N) = None.
Proof.
  apply (unchanged_account_is_omitted (Scenario.final_state true 0 0)
           (Scenario.after_sstore true) 0xaa%N); try reflexivity.
Defined.

(** X16. The loop of [on_reward_granted] writes only under the
    addresses the transaction touched, and never to the shadow baseline:
    every key of the state diff that is not the hex form of a touched
    address maps to what it mapped to before, and [state_addresses_] is
    left as it was. *)
Theorem on_reward_granted_writes_touched_only
    (result : CallResult) (ibs : IntraBlockState) (s : StateDiffTracer.t) (key : string) :
  (forall a, a ∈ ibs_touched ibs -> key <> "0x" +:+ to_hex_fixed 20 a) ->
  StateDiffTracer.state_diff_ (StateDiffTracer.on_reward_granted result ibs s) !! key
  = StateDiffTracer.state_diff_ s !! key
  /\ StateDiffTracer.state_addresses_ (StateDiffTracer.on_reward_granted result ibs s)
     = StateDiffTracer.state_addresses_ s.
Proof.
  unfold StateDiffTracer.on_reward_granted. generalize (ibs_touched ibs) as touched.
  intros touched. revert s.
  induction touched as [|a touched IH]; intros s Hkey; simpl; [auto|].
  destruct (IH (StateDiffTracer.diff_address ibs s a)) as [H1 H2].
  { intros b Hb. apply Hkey. apply elem_of_cons. auto. }
  rewrite H1, H2. split; [|reflexivity].
  assert (Hne : "0x" +:+ to_hex_fixed 20 a <> key).
  { intros E. apply (Hkey a); [apply elem_of_cons; auto|congruence]. }
  unfold StateDiffTracer.diff_address. cbn [StateDiffTracer.state_diff_].
  destruct (StateAddresses.exists_ _ a), (ibs_exists ibs a).
  - destruct (StateDiffTracer.diff_existing _ _ _ _ _) as [e' [|]];
      [now rewrite lookup_delete_ne|now rewrite lookup_insert_ne].
  - now rewrite lookup_insert_ne.
  - destruct (StateDiffTracer.diff_added _ _ _ _) as [e' [|]];
      [now rewrite lookup_delete_ne|now rewrite lookup_insert_ne].
  - now rewrite lookup_insert_ne.
Qed.

Lemma on_reward_granted_writes_touched_only_witness :
  let ibs := Scenario.final_state true 7 0 in
  let s := StateDiffTracer.make ∅ (Scenario.baseline false) in
  let result := {| cr_status := EVMC_SUCCESS; cr_gas_left := 0; cr_data := [] |} in
  StateDiffTracer.state_diff_ (StateDiffTracer.on_reward_granted result ibs s) !! "0x00"
  = StateDiffTracer.state_diff_ s !! "0x00"
  /\ StateDiffTracer.state_addresses_ (StateDiffTracer.on_reward_granted result ibs s)
     = StateDiffTracer.state_addresses_ s.
Proof.
  intros ibs s result.
  apply (on_reward_granted_writes_touched_only result ibs s "0x00").
  intros a Ha. apply list_elem_of_singleton in Ha. subst a. vm_compute. discriminate.
Defined.

Lemma removed_fold_lookup (ibs : IntraBlockState) (a : address) (keys : list string) :
  forall (st0 : gmap string DiffValue.t) (k : string),
    foldl (fun st key =>
             <[key := StateDiffTracer.removed ("0x" +:+ to_hex_fixed 32
                        (ibs_get_original_storage ibs a (bytes32_from_hex key)))]> st)
          st0 keys !! k
    = if bool_decide (k ∈ keys)
      then Some (StateDiffTracer.removed ("0x" +:+ to_hex_fixed 32
                   (ibs_get_original_storage ibs a (bytes32_from_hex k))))
      else st0 !! k.
Proof.
  induction keys as [|key keys IH]; intros st0 k.
  - rewrite bool_decide_eq_false_2 by (intros Hin; inversion Hin). reflexivity.
  - simpl. rewrite IH. destruct (bool_decide (k ∈ keys)) eqn:Hk.
    + apply bool_decide_eq_true in Hk.
      now rewrite (bool_decide_eq_true_2 (k ∈ key :: keys)) by (apply elem_of_cons; auto).
    + apply bool_decide_eq_false in Hk. destruct (decide (k = key)) as [->|Hne].
      * rewrite (bool_decide_eq_true_2 (key ∈ key :: keys)) by (apply elem_of_cons; auto).
        now rewrite lookup_insert_eq.
      * rewrite lookup_insert_ne by congruence.
        rewrite (bool_decide_eq_false_2 (k ∈ key :: keys)); [reflexivity|].
        intros Hin. apply elem_of_cons in Hin. destruct Hin; congruence.
Qed.

(** X17. An account that the transaction destroyed is always reported:
    when the baseline has it and the final state has not, the loop of
    [on_reward_granted] leaves an entry under its address whose balance,
    code and nonce are removals of the baseline values and whose storage
    maps every slot written to during the transaction to the removal of
    its original value. *)
Theorem destroyed_account_is_reported (ibs : IntraBlockState) (s : StateDiffTracer.t)
    (a : address) :
  let sa := StateDiffTracer.state_addresses_ s in
  StateAddresses.exists_ sa a = true ->
  ibs_exists ibs a = false ->
  exists e,
    StateDiffTracer.state_diff_ (StateDiffTracer.diff_address ibs s a)
      !! ("0x" +:+ to_hex_fixed 20 a) = Some e
    /\ StateDiffEntry.balance e
       = StateDiffTracer.removed ("0x" +:+ intx_to_string16 (StateAddresses.get_balance sa a))
    /\ StateDiffEntry.code e
       = StateDiffTracer.removed ("0x" +:+ to_hex (StateAddresses.get_code sa a))
    /\ StateDiffEntry.nonce e
       = StateDiffTracer.removed (to_quantity (StateAddresses.get_nonce sa a))
    /\ forall k, k ∈ default ∅ (StateDiffTracer.diff_storage_ s !! a) ->
         StateDiffEntry.storage e !! k
         = Some (StateDiffTracer.removed ("0x" +:+ to_hex_fixed 32
                   (ibs_get_original_storage ibs a (bytes32_from_hex k)))).
Proof.
  intros sa Hex0 Hex1. unfold StateDiffTracer.diff_address.
  cbn [StateDiffTracer.state_diff_]. fold sa. rewrite Hex0, Hex1.
  rewrite lookup_insert_eq. eexists. split; [reflexivity|].
  unfold StateDiffTracer.diff_removed. cbn. repeat split.
  intros k Hk. rewrite removed_fold_lookup.
  rewrite bool_decide_eq_true_2; [reflexivity|]. now apply elem_of_elements.
Qed.

Lemma destroyed_account_is_reported_witness :
  let ibs := Scenario.final_state false 0 0 in
  let s := Scenario.after_sstore true in
  let sa := StateDiffTracer.state_addresses_ s in
  let a := 0xaa%N in
  exists e,
    StateDiffTracer.state_diff_ (StateDiffTracer.diff_address ibs s a)
      !! ("0x" +:+ to_hex_fixed 20 a) = Some e
    /\ StateDiffEntry.balance e
       = StateDiffTracer.removed ("0x" +:+ intx_to_string16 (StateAddresses.get_balance sa a))
    /\ StateDiffEntry.code e
       = StateDiffTracer.removed ("0x" +:+ to_hex (StateAddresses.get_code sa a))
    /\ StateDiffEntry.nonce e
       = StateDiffTracer.removed (to_quantity (StateAddresses.get_nonce sa a))
    /\ forall k, k ∈ default ∅ (StateDiffTracer.diff_storage_ s !! a) ->
         StateDiffEntry.storage e !! k
         = Some (StateDiffTracer.removed ("0x" +:+ to_hex_fixed 32
                   (ibs_get_original_storage ibs a (bytes32_from_hex k)))).
Proof.
  intros ibs s sa a.
  apply (destroyed_account_is_reported ibs s a); reflexivity.
Defined.

(** X18. A new account is reported unless it is empty: when the
    baseline has no such account and the final state has one, the loop of
    [on_reward_granted] leaves no entry under its address exactly when its
    balance and nonce are zero, its code is empty and no slot was written
    to; otherwise the entry is there, with balance, code and nonce as
    additions of the final values. *)
Theorem new_account_is_reported_unless_empty (ibs : IntraBlockState) (s : StateDiffTracer.t)
    (a : address) :
  StateAddresses.exists_ (StateDiffTracer.state_addresses_ s) a = false ->
  ibs_exists ibs a = true ->
  let empty :=
    ibs_get_balance ibs a = 0%N /\ ibs_get_code ibs a = [] /\ ibs_get_nonce ibs a = 0%N
    /\ default ∅ (StateDiffTracer.diff_storage_ s !! a) = (∅ : gset string) in
  let after := StateDiffTracer.state_diff_ (StateDiffTracer.diff_address ibs s a)
                 !! ("0x" +:+ to_hex_fixed 20 a) in
  (empty -> after = None)
  /\ (~ empty ->
      exists e, after = Some e
        /\ StateDiffEntry.balance e
           = StateDiffTracer.added ("0x" +:+ intx_to_string16 (ibs_get_balance ibs a))
        /\ StateDiffEntry.code e = StateDiffTracer.added ("0x" +:+ to_hex (ibs_get_code ibs a))
        /\ StateDiffEntry.nonce e = StateDiffTracer.added (to_quantity (ibs_get_nonce ibs a))).
Proof.
  intros Hex0 Hex1 empty after. subst empty after. unfold StateDiffTracer.diff_address.
  cbn [StateDiffTracer.state_diff_]. rewrite Hex0, Hex1.
  unfold StateDiffTracer.diff_added.
  set (keyset := default ∅ (StateDiffTracer.diff_storage_ s !! a)).
  split.
  - intros (Hb & Hc & Hn & Hk). rewrite Hb, Hc, Hn, Hk, elements_empty. cbn.
    apply lookup_delete_eq.
  - intros Hne.
    destruct ((ibs_get_balance ibs a =? 0)%N && bool_decide (ibs_get_code ibs a = [])
              && (ibs_get_nonce ibs a =? 0)%N && Nat.eqb (length (elements keyset)) 0)
      eqn:Hrm.
    + exfalso. apply Hne.
      apply andb_true_iff in Hrm. destruct Hrm as [Hrm Hk].
      apply andb_true_iff in Hrm. destruct Hrm as [Hrm Hn].
      apply andb_true_iff in Hrm. destruct Hrm as [Hb Hc].
      apply N.eqb_eq in Hb. apply N.eqb_eq in Hn. apply bool_decide_eq_true in Hc.
      apply Nat.eqb_eq in Hk. repeat split; auto.
      apply leibniz_equiv, elements_empty_inv. now apply nil_length_inv in Hk.
    + rewrite lookup_insert_eq. eexists. split; [reflexivity|]. cbn. auto.
Qed.

Lemma new_account_is_reported_unless_empty_witness :
  let ibs := Scenario.final_state true 7 0 in
  let s := StateDiffTracer.make ∅ (Scenario.baseline false) in
  let a := 0xaa%N in
  let empty :=
    ibs_get_balance ibs a = 0%N /\ ibs_get_code ibs a = [] /\ ibs_get_nonce ibs a = 0%N
    /\ default ∅ (StateDiffTracer.diff_storage_ s !! a) = (∅ : gset string) in
  let after := StateDiffTracer.state_diff_ (StateDiffTracer.diff_address ibs s a)
                 !! ("0x" +:+ to_hex_fixed 20 a) in
  (empty -> after = None)
  /\ (~ empty ->
      exists e, after = Some e
        /\ StateDiffEntry.balance e
           = StateDiffTracer.added ("0x" +:+ intx_to_string16 (ibs_get_balance ibs a))
        /\ StateDiffEntry.code e = StateDiffTracer.added ("0x" +:+ to_hex (ibs_get_code ibs a))
        /\ StateDiffEntry.nonce e = StateDiffTracer.added (to_quantity (ibs_get_nonce ibs a))).
Proof.
  intros ibs s a.
  apply (new_account_is_reported_unless_empty ibs s a); reflexivity.
Defined.

(** ** IntraBlockStateTracer: the shadow baseline *)

Lemma record_address_reads (ibs : IntraBlockState) (s : StateAddresses.t) (a b : address) :
  StateAddresses.get_balance (IntraBlockStateTracer.record_address ibs s a) b
  = (if decide (b = a) then ibs_get_balance ibs a else StateAddresses.get_balance s b)
  /\ StateAddresses.get_nonce (IntraBlockStateTracer.record_address ibs s a) b
     = (if decide (b = a) then ibs_get_nonce ibs a else StateAddresses.get_nonce s b)
  /\ StateAddresses.get_code (IntraBlockStateTracer.record_address ibs s a) b
     = (if decide (b = a) then ibs_get_code ibs a else StateAddresses.get_code s b)
  /\ StateAddresses.exists_ (IntraBlockStateTracer.record_address ibs s a)
     = StateAddresses.exists_ s.
Proof.
  unfold StateAddresses.get_balance, StateAddresses.get_nonce, StateAddresses.get_code,
    IntraBlockStateTracer.record_address. cbn.
  destruct (decide (b = a)) as [->|Hne].
  - rewrite !lookup_insert_eq. auto.
  - rewrite !lookup_insert_ne by congruence. auto.
Qed.

Lemma record_addresses_read (ibs : IntraBlockState) (l : list address) :
  forall (s : StateAddresses.t) (b : address),
    let s' := foldl (IntraBlockStateTracer.record_address ibs) s l in
    StateAddresses.get_balance s' b
    = (if bool_decide (b ∈ l) then ibs_get_balance ibs b else StateAddresses.get_balance s b)
    /\ StateAddresses.get_nonce s' b
       = (if bool_decide (b ∈ l) then ibs_get_nonce ibs b else StateAddresses.get_nonce s b)
    /\ StateAddresses.get_code s' b
       = (if bool_decide (b ∈ l) then ibs_get_code ibs b else StateAddresses.get_code s b)
    /\ StateAddresses.exists_ s' = StateAddresses.exists_ s.
Proof.
  induction l as [|a l IH]; intros s b.
  - cbv zeta. rewrite bool_decide_eq_false_2 by (intros Hin; inversion Hin). simpl. auto.
  - cbv zeta. simpl foldl.
    destruct (IH (IntraBlockStateTracer.record_address ibs s a) b) as (B & N & C & E).
    destruct (record_address_reads ibs s a b) as (B1 & N1 & C1 & E1).
    rewrite B, N, C, E, B1, N1, C1, E1.
    destruct (bool_decide (b ∈ l)) eqn:Hl.
    + apply bool_decide_eq_true in Hl.
      rewrite (bool_decide_eq_true_2 (b ∈ a :: l)) by (apply elem_of_cons; auto). auto.
    + apply bool_decide_eq_false in Hl. destruct (decide (b = a)) as [->|Hne].
      * rewrite (bool_decide_eq_true_2 (a ∈ a :: l)) by (apply elem_of_cons; auto). auto.
      * rewrite (bool_decide_eq_false_2 (b ∈ a :: l)); [auto|].
        intros Hin. apply elem_of_cons in Hin. destruct Hin; congruence.
Qed.

(** X19. After [IntraBlockStateTracer::on_reward_granted] the shadow
    baseline reads, for every address the transaction touched, the
    balance, the nonce and the code of the state the transaction left;
    for every other address it reads what it read before. (The setters
    of [StateAddresses] are taken to store the override that its getters
    look up first.) *)
Theorem baseline_follows_touched_accounts
    (result : CallResult) (ibs : IntraBlockState) (sa : StateAddresses.t) (a : address) :
  let sa' := IntraBlockStateTracer.on_reward_granted result ibs sa in
  (a ∈ ibs_touched ibs ->
     StateAddresses.get_balance sa' a = ibs_get_balance ibs a
     /\ StateAddresses.get_nonce sa' a = ibs_get_nonce ibs a
     /\ StateAddresses.get_code sa' a = ibs_get_code ibs a)
  /\ (a ∉ ibs_touched ibs ->
     StateAddresses.get_balance sa' a = StateAddresses.get_balance sa a
     /\ StateAddresses.get_nonce sa' a = StateAddresses.get_nonce sa a
     /\ StateAddresses.get_code sa' a = StateAddresses.get_code sa a).
Proof.
  intros sa'. subst sa'. unfold IntraBlockStateTracer.on_reward_granted.
  destruct (record_addresses_read ibs (ibs_touched ibs) sa a) as (B & N & C & _).
  split; intros Hin.
  - rewrite (bool_decide_eq_true_2 _ Hin) in B, N, C. auto.
  - rewrite (bool_decide_eq_false_2 _ Hin) in B, N, C. auto.
Qed.

Lemma baseline_follows_touched_accounts_witness :
  let result := {| cr_status := EVMC_SUCCESS; cr_gas_left := 0; cr_data := [] |} in
  let ibs := Scenario.final_state true 7 0 in
  let sa := Scenario.baseline true in
  let sa' := IntraBlockStateTracer.on_reward_granted result ibs sa in
  StateAddresses.get_balance sa' 0xaa%N = ibs_get_balance ibs 0xaa%N
  /\ StateAddresses.get_nonce sa' 0xaa%N = ibs_get_nonce ibs 0xaa%N
  /\ StateAddresses.get_code sa' 0xaa%N = ibs_get_code ibs 0xaa%N.
Proof.
  intros result ibs sa sa'.
  apply (proj1 (baseline_follows_touched_accounts result ibs sa 0xaa%N)).
  apply list_elem_of_singleton. reflexivity.
Defined.

(** X20. The baseline recorded after a transaction is the one the next
    state diff starts from: a state diff tracer built on the baseline that
    [IntraBlockStateTracer::on_reward_granted] left for a final state
    reports nothing for a touched account that exists and is found in
    that same state with its written slots at their original values. *)
Theorem no_diff_against_recorded_baseline
    (result : CallResult) (ibs : IntraBlockState) (sa : StateAddresses.t)
    (s : StateDiffTracer.t) (a : address) :
  StateDiffTracer.state_addresses_ s = IntraBlockStateTracer.on_reward_granted result ibs sa ->
  a ∈ ibs_touched ibs ->
  StateAddresses.exists_ sa a = true ->
  ibs_exists ibs a = true ->
  (forall k, k ∈ default ∅ (StateDiffTracer.diff_storage_ s !! a) ->
     ibs_get_original_storage ibs a (bytes32_from_hex k)
     = ibs_get_current_storage ibs a (bytes32_from_hex k)) ->
  StateDiffTracer.state_diff_ (StateDiffTracer.diff_address ibs s a)
    !! ("0x" +:+ to_hex_fixed 20 a) = None.
Proof.
  intros Hsa Hin Hex0 Hex1 Hkeys.
  destruct (record_addresses_read ibs (ibs_touched ibs) sa a) as (B & N & C & E).
  rewrite (bool_decide_eq_true_2 _ Hin) in B, N, C.
  unfold StateDiffTracer.diff_address. cbn [StateDiffTracer.state_diff_].
  rewrite Hsa. unfold IntraBlockStateTracer.on_reward_granted. rewrite E, Hex0, Hex1.
  match goal with
  | |- context [StateDiffTracer.diff_existing ?x1 ?x2 ?x3 ?x4 ?x5] =>
      pose proof (diff_existing_all_equal x1 x2 x3 x4 x5 B C N) as Hall;
      destruct (StateDiffTracer.diff_existing x1 x2 x3 x4 x5) as [entry' all_equals]
  end.
  simpl in Hall. rewrite Hall.
  - apply lookup_delete_eq.
  - intros k Hk. apply Hkeys. now apply elem_of_elements in Hk.
Qed.

Lemma no_diff_against_recorded_baseline_witness :
  let result := {| cr_status := EVMC_SUCCESS; cr_gas_left := 0; cr_data := [] |} in
  let ibs := Scenario.final_state true 7 0 in
  let s := StateDiffTracer.make ∅
             (IntraBlockStateTracer.on_reward_granted result ibs (Scenario.baseline true)) in
  StateDiffTracer.state_diff_ (StateDiffTracer.diff_address ibs s 0xaa%N)
    !! ("0x" +:+ to_hex_fixed 20 0xaa%N) = None.
Proof.
  intros result ibs s.
  apply (no_diff_against_recorded_baseline result ibs (Scenario.baseline true) s 0xaa%N).
  - reflexivity.
  - apply list_elem_of_singleton. reflexivity.
  - reflexivity.
  - reflexivity.
  - intros k Hk. reflexivity.
Defined.

(** ** Tracing a block, a transaction, a call *)

Section Execution.
Context {Transaction Call Json Executor : Type}.
Variable has_from : Transaction -> bool.
Variable recover_sender : Transaction -> Transaction.
Variable hash_of_transaction : Transaction -> N.
Variable to_transaction : Call -> Transaction.
Variable transaction_index : Transaction -> N.
Variable new_executor : Z -> Executor.
Variable executor_call :
  Executor -> @TraceCallExecutor.Block Transaction -> Transaction -> bool -> bool ->
  list Tracer -> TraceCallTraces.t -> Executor * ExecutionResult * TraceCallTraces.t.
Variable executor_reset : Executor -> Executor.
Variable read_chain_config : @TraceCallExecutor.ChainConfig Json.
Variable compute_reward :
  @TraceCallExecutor.ChainConfig Json -> @TraceCallExecutor.Block Transaction -> BlockReward.

Local Abbreviation with_sender := (TraceCallExecutor.with_sender has_from recover_sender).
Local Abbreviation trace_block_transactions :=
  (TraceCallExecutor.trace_block_transactions has_from recover_sender hash_of_transaction
     new_executor executor_call).
Local Abbreviation trace_block_transactions_loop :=
  (TraceCallExecutor.trace_block_transactions_loop has_from recover_sender hash_of_transaction
     executor_call).
Local Abbreviation trace_block_loop :=
  (TraceCallExecutor.trace_block_loop has_from recover_sender hash_of_transaction).
Local Abbreviation trace_block :=
  (TraceCallExecutor.trace_block has_from recover_sender hash_of_transaction new_executor
     executor_call read_chain_config compute_reward).
Local Abbreviation replay := (Execute.replay has_from recover_sender executor_call).
Local Abbreviation execute :=
  (Execute.execute has_from recover_sender transaction_index new_executor executor_call
     executor_reset).
Local Abbreviation trace_call :=
  (Execute.trace_call has_from recover_sender to_transaction transaction_index new_executor
     executor_call executor_reset).
Local Abbreviation trace_transaction :=
  (Execute.trace_transaction has_from recover_sender hash_of_transaction transaction_index
     new_executor executor_call executor_reset).

Lemma install_keeps_hash (cfg : TraceConfig) (index : Z) (traces : TraceCallTraces.t) :
  TraceCallTraces.transaction_hash (TraceCallExecutor.install cfg index traces).2
  = TraceCallTraces.transaction_hash traces.
Proof.
  unfold TraceCallExecutor.install.
  destruct (cfg_vm_trace cfg), (cfg_state_diff cfg); reflexivity.
Qed.

Lemma trace_block_transactions_loop_lookup
    (blk : TraceCallExecutor.Block) (cfg : TraceConfig) (txns : list Transaction) :
  (forall e b t r g trs tr,
     TraceCallTraces.transaction_hash (executor_call e b t r g trs tr).2
     = TraceCallTraces.transaction_hash tr) ->
  forall (index : Z) (executor : Executor) (k : nat) (txn : Transaction),
    txns !! k = Some txn ->
    exists r,
      trace_block_transactions_loop blk cfg txns index executor !! k = Some r
      /\ TraceCallTraces.transaction_hash (TraceCallResult.traces r)
         = Some (hash_of_transaction (with_sender txn)).
Proof.
  intros Hkeep. induction txns as [|t rest IH]; intros index executor k txn Hk;
    [discriminate|].
  simpl.
  pose proof (install_keeps_hash cfg index
    {| TraceCallTraces.output := ""; TraceCallTraces.state_diff := None;
       TraceCallTraces.trace := []; TraceCallTraces.vm_trace := None;
       TraceCallTraces.transaction_hash := Some (hash_of_transaction (with_sender t)) |})
    as Hi.
  destruct (TraceCallExecutor.install cfg index _) as [tracers traces1]. simpl in Hi.
  pose proof (Hkeep executor blk (with_sender t) true true tracers traces1) as Hc.
  destruct (executor_call executor blk _ true true tracers traces1) as [[e' er] tr].
  simpl in Hc. destruct k as [|k]; simpl in Hk |- *.
  - injection Hk as <-. eexists. split; [reflexivity|].
    destruct (er_pre_check_error er); simpl; congruence.
  - now apply IH.
Qed.

(** X21. [trace_block_transactions] answers with one result per
    transaction of the block, in the order of the block, whether or not
    a transaction passes the pre-check; and, the executor leaving the
    [transaction_hash] of a [TraceCallTraces] as it finds it, the result at
    a position carries the hash of the transaction at that position (with
    its sender recovered when it has none). *)
Theorem trace_block_transactions_one_result_each
    (blk : TraceCallExecutor.Block) (cfg : TraceConfig) :
  (forall e b t r g trs tr,
     TraceCallTraces.transaction_hash (executor_call e b t r g trs tr).2
     = TraceCallTraces.transaction_hash tr) ->
  length (trace_block_transactions blk cfg) = length (TraceCallExecutor.transactions blk)
  /\ forall (k : nat) (txn : Transaction),
       TraceCallExecutor.transactions blk !! k = Some txn ->
       exists r,
         trace_block_transactions blk cfg !! k = Some r
         /\ TraceCallTraces.transaction_hash (TraceCallResult.traces r)
            = Some (hash_of_transaction (with_sender txn)).
Proof.
  intros Hkeep. unfold TraceCallExecutor.trace_block_transactions. split.
  - apply trace_block_transactions_loop_length.
  - intros k txn Hk. now apply trace_block_transactions_loop_lookup.
Qed.

(** The copy of a call trace that [trace_block] stores for the
    transaction [txn] at position [pos]: [Trace trace{call_trace}] with
    the four context fields assigned. *)
Local Abbreviation placed_at bwh pos txn call_trace :=
  {| Trace.action := Trace.action call_trace;
     Trace.trace_result := Trace.trace_result call_trace;
     Trace.sub_traces := Trace.sub_traces call_trace;
     Trace.trace_address := Trace.trace_address call_trace;
     Trace.error := Trace.error call_trace;
     Trace.type := Trace.type call_trace;
     Trace.block_hash := Some (TraceCallExecutor.hash bwh);
     Trace.block_number :=
       Some (TraceCallExecutor.header_number (TraceCallExecutor.block bwh));
     Trace.transaction_hash := Some (hash_of_transaction (with_sender txn));
     Trace.transaction_position := Some (N.of_nat pos) |}.

Lemma trace_block_loop_copies (bwh : TraceCallExecutor.BlockWithHash)
    (results : list TraceCallResult.t) :
  forall (pos : nat) (traces out : list Trace.t),
    trace_block_loop bwh results pos traces = Some out ->
    out = traces
          ++ concat (imap (fun i '(txn, r) =>
                             map (fun call_trace => placed_at bwh (pos + i) txn call_trace)
                                 (TraceCallTraces.trace (TraceCallResult.traces r)))
                          (zip (drop pos (TraceCallExecutor.transactions
                                            (TraceCallExecutor.block bwh)))
                               results)).
Proof.
  induction results as [|r rest IH]; intros pos traces out H; simpl in H.
  - injection H as <-. rewrite zip_with_nil_r. simpl. now rewrite app_nil_r.
  - destruct (TraceCallExecutor.transactions (TraceCallExecutor.block bwh) !! pos)
      as [txn|] eqn:Htxn; simpl in H; [|discriminate].
    rewrite (IH _ _ _ H), (drop_S _ _ _ Htxn). cbn [zip_with imap concat].
    rewrite <- app_assoc, Nat.add_0_r. do 2 f_equal. f_equal.
    apply imap_ext. intros i [t r'] _. simpl.
    now replace (pos + S i) with (S (pos + i)) by lia.
Qed.

Lemma trace_block_loop_count (bwh : TraceCallExecutor.BlockWithHash)
    (results : list TraceCallResult.t) :
  forall (pos : nat) (traces out : list Trace.t),
    trace_block_loop bwh results pos traces = Some out ->
    length out
    = length traces
      + sum_list (map (fun r => length (TraceCallTraces.trace (TraceCallResult.traces r)))
                      results).
Proof.
  induction results as [|r rest IH]; intros pos traces out H; simpl in H.
  - injection H as <-. simpl. lia.
  - destruct (TraceCallExecutor.transactions (TraceCallExecutor.block bwh) !! pos)
      as [txn|] eqn:Htxn; simpl in H; [|discriminate].
    rewrite (IH _ _ _ H), length_app, length_map. simpl. lia.
Qed.

(** X22. [trace_block] always returns, and its list is this one: for
    each transaction of the block in order, paired with its result, the
    traces of that result in order, each a copy of the call trace (same
    action, result, sub-trace count, trace address, error and type) that
    carries the hash and the number of the block, the position of the
    transaction and the hash of the transaction (with its sender recovered
    when it has none); then one more trace, of type ["reward"], with the
    hash and the number of the block and neither position nor transaction
    hash.  There is one result per transaction, so no transaction and no
    trace is lost, and the list holds one trace more than the results
    have together. *)
Theorem trace_block_places_every_trace (bwh : TraceCallExecutor.BlockWithHash) :
  let blk := TraceCallExecutor.block bwh in
  let results :=
    trace_block_transactions blk
      {| cfg_vm_trace := false; cfg_trace := true; cfg_state_diff := false |} in
  exists reward,
    trace_block bwh
    = Some (concat
              (imap (fun pos '(txn, r) =>
                       map (fun call_trace =>
                              {| Trace.action := Trace.action call_trace;
                                 Trace.trace_result := Trace.trace_result call_trace;
                                 Trace.sub_traces := Trace.sub_traces call_trace;
                                 Trace.trace_address := Trace.trace_address call_trace;
                                 Trace.error := Trace.error call_trace;
                                 Trace.type := Trace.type call_trace;
                                 Trace.block_hash := Some (TraceCallExecutor.hash bwh);
                                 Trace.block_number :=
                                   Some (TraceCallExecutor.header_number blk);
                                 Trace.transaction_hash :=
                                   Some (hash_of_transaction (with_sender txn));
                                 Trace.transaction_position := Some (N.of_nat pos) |})
                           (TraceCallTraces.trace (TraceCallResult.traces r)))
                    (zip (TraceCallExecutor.transactions blk) results))
            ++ [reward])
    /\ length results = length (TraceCallExecutor.transactions blk)
    /\ Trace.type reward = "reward"
    /\ Trace.block_hash reward = Some (TraceCallExecutor.hash bwh)
    /\ Trace.block_number reward = Some (TraceCallExecutor.header_number blk)
    /\ Trace.transaction_position reward = None
    /\ Trace.transaction_hash reward = None
    /\ forall traces, trace_block bwh = Some traces ->
         length traces
         = sum_list (map (fun r => length (TraceCallTraces.trace (TraceCallResult.traces r)))
                         results) + 1.
Proof.
  intros blk results.
  assert (Hlen : length results = length (TraceCallExecutor.transactions blk)).
  { unfold results, TraceCallExecutor.trace_block_transactions.
    apply trace_block_transactions_loop_length. }
  unfold TraceCallExecutor.trace_block. fold blk. fold results.
  destruct (trace_block_loop_defined has_from recover_sender hash_of_transaction bwh results 0 [])
    as [body Hbody].
  { fold blk. rewrite Hlen. simpl. lia. }
  rewrite Hbody. cbn [mbind option_bind].
  pose proof (trace_block_loop_copies bwh results 0 [] body Hbody) as Heq.
  cbn [drop app Nat.add] in Heq. fold blk in Heq.
  eexists. split; [rewrite Heq; reflexivity|].
  split; [exact Hlen|]. do 5 (split; [reflexivity|]).
  intros traces Ht. injection Ht as <-. rewrite length_app.
  rewrite (trace_block_loop_count bwh results 0 [] body Hbody). reflexivity.
Qed.

Lemma replay_spec (blk : TraceCallExecutor.Block) (n : nat) :
  forall (idx : nat) (executor : Executor) (called : list (Transaction * list Tracer)),
    idx <= length (TraceCallExecutor.transactions blk) ->
    (idx + n <= length (TraceCallExecutor.transactions blk) ->
     exists executor',
       replay blk n idx executor called
       = Some (executor',
               called ++ map (fun t => (with_sender t, [TracerIntraBlockState]))
                             (take n (drop idx (TraceCallExecutor.transactions blk)))))
    /\ (length (TraceCallExecutor.transactions blk) < idx + n ->
        replay blk n idx executor called = None).
Proof.
  induction n as [|n IH]; intros idx executor called Hidx; simpl.
  - split; [|lia]. intros _. eexists. now rewrite app_nil_r.
  - destruct (TraceCallExecutor.transactions blk !! idx) as [t|] eqn:Ht; simpl.
    + destruct (executor_call executor blk (with_sender t) true true [TracerIntraBlockState]
                  TraceCallTraces.default) as [[e' er] tr].
      pose proof (lookup_lt_Some _ _ _ Ht) as Hlt'.
      destruct (IH (S idx) e' (called ++ [(with_sender t, [TracerIntraBlockState])]))
        as [Hok Hbad]; [lia|].
      split.
      * intros Hle. destruct Hok as [e'' He'']; [lia|]. exists e''. rewrite He''.
        rewrite (drop_S _ _ _ Ht). simpl. now rewrite <- app_assoc.
      * intros Hlt. apply Hbad. lia.
    + apply lookup_ge_None in Ht. split; [lia|reflexivity].
Qed.

Lemma install_without_baseline_tracer (cfg : TraceConfig) (index : Z)
    (traces : TraceCallTraces.t) :
  TracerIntraBlockState ∉ (Execute.install cfg index traces).1.
Proof.
  unfold Execute.install.
  destruct (cfg_vm_trace cfg), (cfg_trace cfg), (cfg_state_diff cfg); simpl;
    intros Hin; repeat (apply elem_of_cons in Hin; destruct Hin as [Hin|Hin];
                        [discriminate|]); inversion Hin.
Qed.

(** [execute], by the number of transactions in the block. *)
Lemma execute_spec
    (block_number : Z) (blk : TraceCallExecutor.Block) (transaction : Transaction)
    (index : Z) (cfg : TraceConfig) :
  let n := N.to_nat (transaction_index transaction) in
  (n <= length (TraceCallExecutor.transactions blk) ->
   exists result,
     execute block_number blk transaction index cfg
     = Some (result,
             map (fun t => (with_sender t, [TracerIntraBlockState]))
                 (take n (TraceCallExecutor.transactions blk))
             ++ [(transaction, (Execute.install cfg index TraceCallTraces.default).1)]))
  /\ (length (TraceCallExecutor.transactions blk) < n ->
      execute block_number blk transaction index cfg = None).
Proof.
  intros n. unfold Execute.execute. fold n.
  destruct (replay_spec blk n 0 (new_executor block_number) []) as [Hok Hbad]; [lia|]. split.
  - intros Hle. destruct Hok as [e' He']; [lia|]. rewrite He'. cbn [mbind option_bind].
    destruct (Execute.install cfg index TraceCallTraces.default) as [trs traces].
    destruct (executor_call (executor_reset e') blk transaction true true trs traces)
      as [[e'' er] tr].
    eexists. rewrite drop_0. reflexivity.
  - intros Hlt. rewrite Hbad by lia. reflexivity.
Qed.

(** X23. [execute] replays the block up to the transaction and then
    traces it: with [n] the transaction's index, the executor is called
    for the first [n] transactions of the block, in order, each with the
    tracer of the shadow baseline alone, and then once for the transaction
    itself with the tracers of the configuration, the tracer of the shadow
    baseline not among them. A block with fewer than [n] transactions is
    read past its end: no result is defined. *)
Theorem execute_replays_then_traces
    (block_number : Z) (blk : TraceCallExecutor.Block) (transaction : Transaction)
    (index : Z) (cfg : TraceConfig) :
  let n := N.to_nat (transaction_index transaction) in
  let tracers := (Execute.install cfg index TraceCallTraces.default).1 in
  (n <= length (TraceCallExecutor.transactions blk) ->
   exists result,
     execute block_number blk transaction index cfg
     = Some (result,
             map (fun t => (with_sender t, [TracerIntraBlockState]))
                 (take n (TraceCallExecutor.transactions blk))
             ++ [(transaction, tracers)])
     /\ TracerIntraBlockState ∉ tracers)
  /\ (length (TraceCallExecutor.transactions blk) < n ->
      execute block_number blk transaction index cfg = None).
Proof.
  intros n tracers.
  destruct (execute_spec block_number blk transaction index cfg) as [Hok Hbad]. split.
  - intros Hle. destruct (Hok Hle) as [result He]. exists result. split; [exact He|].
    apply install_without_baseline_tracer.
  - exact Hbad.
Qed.

(** X24. [trace_transaction] has a result exactly when the block holds
    at least as many transactions as the transaction's index says, and
    then every trace it returns carries the hash and the number of the
    block, the transaction's index as its position, and the
    transaction's hash. *)
Theorem trace_transaction_places_every_trace
    (bwh : TraceCallExecutor.BlockWithHash) (transaction : Transaction) :
  let blk := TraceCallExecutor.block bwh in
  (is_Some (trace_transaction bwh transaction)
   <-> N.to_nat (transaction_index transaction)
       <= length (TraceCallExecutor.transactions blk))
  /\ forall traces tr,
       trace_transaction bwh transaction = Some traces -> tr ∈ traces ->
       Trace.block_hash tr = Some (TraceCallExecutor.hash bwh)
       /\ Trace.block_number tr = Some (TraceCallExecutor.header_number blk)
       /\ Trace.transaction_position tr = Some (transaction_index transaction)
       /\ Trace.transaction_hash tr = Some (hash_of_transaction transaction).
Proof.
  intros blk. unfold Execute.trace_transaction. fold blk.
  match goal with
  | |- context [Execute.execute _ _ _ _ _ _ ?bn blk transaction ?ix ?cfg] =>
      destruct (execute_spec bn blk transaction ix cfg) as [Hok Hbad]
  end.
  split.
  - split.
    + intros [traces H].
      destruct (Nat.le_gt_cases (N.to_nat (transaction_index transaction))
                  (length (TraceCallExecutor.transactions blk))) as [Hle|Hgt]; [exact Hle|].
      rewrite (Hbad Hgt) in H. discriminate.
    + intros Hle. destruct (Hok Hle) as (result & He). rewrite He. simpl. eauto.
  - intros traces tr H Hin.
    destruct (execute _ blk transaction _ _) as [[result called]|]; simpl in H; [|discriminate].
    injection H as <-. apply list_elem_of_fmap in Hin. destruct Hin as (ct & -> & _).
    repeat split.
Qed.

(** X28. [trace_call] traces the call outside the numbering of the
    block: the call is run last, after the replay of [execute], and a
    per-opcode tracer, if the configuration asks for one, is built with
    index -1, so that the labels of its ops (X6) start without a
    transaction prefix. *)
Theorem trace_call_has_no_transaction_prefix
    (blk : TraceCallExecutor.Block) (c : Call) (cfg : TraceConfig) :
  N.to_nat (transaction_index (to_transaction c))
  <= length (TraceCallExecutor.transactions blk) ->
  exists result called tracers,
    trace_call blk c cfg = Some (result, called)
    /\ last called = Some (to_transaction c, tracers)
    /\ (cfg_vm_trace cfg = true -> exists i, TracerVmTrace i ∈ tracers)
    /\ forall i, TracerVmTrace i ∈ tracers -> i = (-1)%Z /\ root_prefix i = "".
Proof.
  intros Hle. unfold Execute.trace_call.
  match goal with
  | |- context [Execute.execute _ _ _ _ _ _ ?bn blk ?t ?ix cfg] =>
      destruct (execute_spec bn blk t ix cfg) as [Hok _]
  end.
  destruct (Hok Hle) as (result & He). rewrite He.
  eexists. eexists. eexists. split; [reflexivity|]. split; [apply last_snoc|].
  unfold Execute.install.
  destruct (cfg_vm_trace cfg), (cfg_trace cfg), (cfg_state_diff cfg); simpl; split;
    try (intros _; exists (-1)%Z; apply elem_of_cons; left; reflexivity);
    try discriminate;
    intros i Hin;
    repeat (apply elem_of_cons in Hin; destruct Hin as [Hin|Hin];
            [first [discriminate | injection Hin as ->; split; reflexivity]|]);
    inversion Hin.
Qed.

End Execution.

Lemma trace_block_transactions_one_result_each_witness :
  let executor_call :=
    fun (e : nat) (_ : @TraceCallExecutor.Block bool) (txn : bool) (_ _ : bool)
        (_ : list Tracer) (traces : TraceCallTraces.t) =>
      (S e, {| er_error_code := 0; er_gas_left := 0; er_data := [];
               er_pre_check_error := if txn then None else Some "insufficient funds" |},
       traces) in
  let blk := {| TraceCallExecutor.header_number := 7;
                TraceCallExecutor.header_beneficiary := 0xbe%N;
                TraceCallExecutor.transactions := [false; true] |} in
  let cfg := {| cfg_vm_trace := false; cfg_trace := true; cfg_state_diff := false |} in
  let hash_of := fun txn : bool => if txn then 1%N else 2%N in
  let results :=
    TraceCallExecutor.trace_block_transactions (fun _ => true) (fun t => t) hash_of
      (fun _ => 0) executor_call blk cfg in
  length results = length (TraceCallExecutor.transactions blk)
  /\ forall (k : nat) (txn : bool),
       TraceCallExecutor.transactions blk !! k = Some txn ->
       exists r,
         results !! k = Some r
         /\ TraceCallTraces.transaction_hash (TraceCallResult.traces r)
            = Some (hash_of (TraceCallExecutor.with_sender (fun _ => true) (fun t => t) txn)).
Proof.
  intros executor_call blk cfg hash_of results.
  apply (trace_block_transactions_one_result_each (fun _ => true) (fun t => t) hash_of
           (fun _ => 0) executor_call blk cfg).
  intros e b t r g trs tr. reflexivity.
Defined.

Lemma execute_replays_then_traces_witness :
  let executor_call :=
    fun (e : nat) (_ : @TraceCallExecutor.Block nat) (_ : nat) (_ _ : bool)
        (_ : list Tracer) (traces : TraceCallTraces.t) =>
      (S e, {| er_error_code := 0; er_gas_left := 0; er_data := [];
               er_pre_check_error := None |}, traces) in
  let blk := {| TraceCallExecutor.header_number := 7;
                TraceCallExecutor.header_beneficiary := 0xbe%N;
                TraceCallExecutor.transactions := [0; 1; 2] |} in
  let cfg := {| cfg_vm_trace := true; cfg_trace := true; cfg_state_diff := false |} in
  let tracers := (Execute.install cfg 2 TraceCallTraces.default).1 in
  exists result,
    Execute.execute (fun _ => true) (fun t => t) N.of_nat (fun _ => 0) executor_call
      (fun e => e) 6 blk 2 2 cfg
    = Some (result,
            map (fun t => (TraceCallExecutor.with_sender (fun _ => true) (fun t => t) t,
                           [TracerIntraBlockState]))
                (take (N.to_nat (N.of_nat 2)) (TraceCallExecutor.transactions blk))
            ++ [(2, tracers)])
    /\ TracerIntraBlockState ∉ tracers.
Proof.
  intros executor_call blk cfg tracers.
  apply (proj1 (execute_replays_then_traces (fun _ => true) (fun t => t) N.of_nat
                  (fun _ => 0) executor_call (fun e => e) 6 blk 2 2 cfg)).
  vm_compute. lia.
Defined.

Lemma trace_transaction_places_every_trace_witness :
  let executor_call :=
    fun (e : nat) (_ : @TraceCallExecutor.Block nat) (_ : nat) (_ _ : bool)
        (_ : list Tracer) (traces : TraceCallTraces.t) =>
      (S e, {| er_error_code := 0; er_gas_left := 0; er_data := [];
               er_pre_check_error := None |}, traces) in
  let bwh := {| TraceCallExecutor.block :=
                  {| TraceCallExecutor.header_number := 7;
                     TraceCallExecutor.header_beneficiary := 0xbe%N;
                     TraceCallExecutor.transactions := [0; 1; 2] |};
                TraceCallExecutor.hash := 0xcafe%N |} in
  is_Some (Execute.trace_transaction (fun _ => true) (fun t => t) N.of_nat N.of_nat
             (fun _ => 0) executor_call (fun e => e) bwh 2).
Proof.
  intros executor_call bwh.
  apply (proj1 (trace_transaction_places_every_trace (fun _ => true) (fun t => t) N.of_nat
                  N.of_nat (fun _ => 0) executor_call (fun e => e) bwh 2)).
  vm_compute. lia.
Defined.

Lemma trace_call_has_no_transaction_prefix_witness :
  let executor_call :=
    fun (e : nat) (_ : @TraceCallExecutor.Block nat) (_ : nat) (_ _ : bool)
        (_ : list Tracer) (traces : TraceCallTraces.t) =>
      (S e, {| er_error_code := 0; er_gas_left := 0; er_data := [];
               er_pre_check_error := None |}, traces) in
  let blk := {| TraceCallExecutor.header_number := 7;
                TraceCallExecutor.header_beneficiary := 0xbe%N;
                TraceCallExecutor.transactions := [0; 1; 2] |} in
  let cfg := {| cfg_vm_trace := true; cfg_trace := false; cfg_state_diff := false |} in
  exists result called tracers,
    Execute.trace_call (fun _ => true) (fun t => t) (fun c : nat => c) N.of_nat (fun _ => 0)
      executor_call (fun e => e) blk 0 cfg = Some (result, called)
    /\ last called = Some (0, tracers)
    /\ (cfg_vm_trace cfg = true -> exists i, TracerVmTrace i ∈ tracers)
    /\ forall i, TracerVmTrace i ∈ tracers -> i = (-1)%Z /\ root_prefix i = "".
Proof.
  intros executor_call blk cfg.
  apply (trace_call_has_no_transaction_prefix (fun _ => true) (fun t => t) (fun c : nat => c)
           N.of_nat (fun _ => 0) executor_call (fun e => e) blk 0 cfg).
  vm_compute. lia.
Defined.

(** ** The request and the JSON form of the state diff *)

(** X25. [from_json] reads a trace configuration as a set of tags: two
    arrays that agree on which of ["vmTrace"], ["trace"] and ["stateDiff"]
    they hold give the same configuration, so the order of the tags,
    repetitions and strings that are no tag make no difference; and a flag
    is set exactly when its tag is in the array. *)
Theorem from_json_reads_tags_as_a_set (c1 c2 : list string) :
  (forall tag, tag ∈ ["vmTrace"; "trace"; "stateDiff"] -> (tag ∈ c1 <-> tag ∈ c2)) ->
  from_json_TraceConfig c1 = from_json_TraceConfig c2
  /\ (cfg_vm_trace (from_json_TraceConfig c1) = true <-> "vmTrace" ∈ c1)
  /\ (cfg_trace (from_json_TraceConfig c1) = true <-> "trace" ∈ c1)
  /\ (cfg_state_diff (from_json_TraceConfig c1) = true <-> "stateDiff" ∈ c1).
Proof.
  intros H. unfold from_json_TraceConfig. cbn.
  assert (E : forall tag, tag ∈ ["vmTrace"; "trace"; "stateDiff"] ->
                bool_decide (tag ∈ c1) = bool_decide (tag ∈ c2)).
  { intros tag Ht. apply bool_decide_ext, H, Ht. }
  rewrite !bool_decide_eq_true. repeat split; auto.
  rewrite !E; [reflexivity|..]; repeat (apply elem_of_cons; first [left; reflexivity|right]).
Qed.

Lemma from_json_reads_tags_as_a_set_witness :
  from_json_TraceConfig ["trace"; "vmTrace"; "trace"; "other"]
  = from_json_TraceConfig ["vmTrace"; "trace"]
  /\ (cfg_vm_trace (from_json_TraceConfig ["trace"; "vmTrace"; "trace"; "other"]) = true
      <-> "vmTrace" ∈ ["trace"; "vmTrace"; "trace"; "other"])
  /\ (cfg_trace (from_json_TraceConfig ["trace"; "vmTrace"; "trace"; "other"]) = true
      <-> "trace" ∈ ["trace"; "vmTrace"; "trace"; "other"])
  /\ (cfg_state_diff (from_json_TraceConfig ["trace"; "vmTrace"; "trace"; "other"]) = true
      <-> "stateDiff" ∈ ["trace"; "vmTrace"; "trace"; "other"]).
Proof.
  apply (from_json_reads_tags_as_a_set ["trace"; "vmTrace"; "trace"; "other"]
           ["vmTrace"; "trace"]).
  intros tag Ht.
  assert (Hcases : tag = "vmTrace" \/ tag = "trace" \/ tag = "stateDiff").
  { repeat (apply elem_of_cons in Ht; destruct Ht as [Ht|Ht]; [auto|]). inversion Ht. }
  destruct Hcases as [ -> | [ -> | -> ] ];
    split; intros H; apply (bool_decide_pack _) in H; apply (bool_decide_unpack _);
    vm_compute in H |- *; exact H.
Defined.

Lemma JObject_inj (m1 m2 : gmap string Json) : JObject m1 = JObject m2 -> m1 = m2.
Proof. intros H. now injection H. Qed.

Lemma JString_inj (s1 s2 : string) : JString s1 = JString s2 -> s1 = s2.
Proof. intros H. now injection H. Qed.

Lemma to_json_DiffValue_inj (d1 d2 : DiffValue.t) :
  to_json_DiffValue d1 = to_json_DiffValue d2 -> d1 = d2.
Proof.
  assert (Hne : forall (k1 k2 : string) (x y : Json),
            k1 <> k2 -> ({[ k1 := x ]} : gmap string Json) <> {[ k2 := y ]}).
  { intros k1 k2 x y Hk E. apply (f_equal (lookup k1)) in E.
    rewrite lookup_singleton_eq, lookup_singleton_ne in E by congruence. discriminate. }
  assert (Heq : forall (k : string) (x y : Json),
            ({[ k := x ]} : gmap string Json) = {[ k := y ]} -> x = y).
  { intros k x y E. apply (f_equal (lookup k)) in E.
    rewrite !lookup_singleton_eq in E. congruence. }
  destruct d1 as [[f1|] [t1|]], d2 as [[f2|] [t2|]]; unfold to_json_DiffValue;
    cbn [DiffValue.from DiffValue.to]; intros H; try discriminate; try reflexivity;
    apply JObject_inj in H;
    try (exfalso; revert H; apply Hne; discriminate).
  - apply Heq, JObject_inj in H.
    pose proof (f_equal (lookup "from") H) as Hf.
    pose proof (f_equal (lookup "to") H) as Ht.
    rewrite !lookup_insert_eq in Hf.
    rewrite !lookup_insert_ne, !lookup_singleton_eq in Ht by discriminate.
    apply (inj Some), JString_inj in Hf. apply (inj Some), JString_inj in Ht. congruence.
  - apply Heq, JString_inj in H. congruence.
  - apply Heq, JString_inj in H. congruence.
Qed.

(** X26. The JSON form of a [DiffValue] tells the four cases apart and
    loses nothing: ["="] stands for no change, an object with the one key
    ["+"], ["-"] or ["*"] for an addition, a removal or a change, and two
    values with the same JSON form are the same value. *)
Theorem to_json_DiffValue_is_faithful (d1 d2 : DiffValue.t) :
  (to_json_DiffValue d1 = to_json_DiffValue d2 <-> d1 = d2)
  /\ (to_json_DiffValue d1 = JString "=" <-> d1 = DiffValue.unchanged)
  /\ (forall b, to_json_DiffValue d1 = JObject {[ "+" := JString b ]}
                <-> d1 = StateDiffTracer.added b)
  /\ (forall a, to_json_DiffValue d1 = JObject {[ "-" := JString a ]}
                <-> d1 = StateDiffTracer.removed a)
  /\ (forall a b,
        to_json_DiffValue d1
        = JObject {[ "*" := JObject (<["from" := JString a]> {[ "to" := JString b ]}) ]}
        <-> d1 = StateDiffTracer.changed a b).
Proof.
  split; [split; [apply to_json_DiffValue_inj|now intros ->]|].
  split; [split; [intros H; now apply to_json_DiffValue_inj|now intros ->]|].
  split; [intros b; split; [intros H; now apply to_json_DiffValue_inj|now intros ->]|].
  split; [intros a; split; [intros H; now apply to_json_DiffValue_inj|now intros ->]|].
  intros a b; split; [intros H; now apply to_json_DiffValue_inj|now intros ->].
Qed.

(** X27. The JSON form of a state diff entry determines the entry: two
    entries with the same JSON form have the same balance, code, nonce and
    storage diffs. *)
Theorem to_json_StateDiffEntry_is_faithful (e1 e2 : StateDiffEntry.t) :
  to_json_StateDiffEntry e1 = to_json_StateDiffEntry e2 <-> e1 = e2.
Proof.
  split; [|now intros ->]. unfold to_json_StateDiffEntry. intros H. apply JObject_inj in H.
  pose proof (f_equal (lookup "balance") H) as Hb.
  pose proof (f_equal (lookup "code") H) as Hc.
  pose proof (f_equal (lookup "nonce") H) as Hn.
  pose proof (f_equal (lookup "storage") H) as Hs.
  rewrite !lookup_insert_eq in Hb.
  rewrite !(lookup_insert_ne _ "balance" "code"), !lookup_insert_eq in Hc by discriminate.
  rewrite !(lookup_insert_ne _ "balance" "nonce"), !(lookup_insert_ne _ "code" "nonce"),
    !lookup_insert_eq in Hn by discriminate.
  rewrite !(lookup_insert_ne _ "balance" "storage"), !(lookup_insert_ne _ "code" "storage"),
    !(lookup_insert_ne _ "nonce" "storage"), !lookup_singleton_eq in Hs by discriminate.
  apply (inj Some), to_json_DiffValue_inj in Hb.
  apply (inj Some), to_json_DiffValue_inj in Hc.
  apply (inj Some), to_json_DiffValue_inj in Hn.
  apply (inj Some), JObject_inj in Hs.
  assert (Hst : StateDiffEntry.storage e1 = StateDiffEntry.storage e2).
  { apply map_eq. intros k. apply (f_equal (lookup k)) in Hs. rewrite !lookup_fmap in Hs.
    destruct (StateDiffEntry.storage e1 !! k) as [x|], (StateDiffEntry.storage e2 !! k) as [y|];
      simpl in Hs; try discriminate; [|reflexivity].
    apply (inj Some), to_json_DiffValue_inj in Hs. congruence. }
  destruct e1, e2. simpl in *. congruence.
Qed.
